(** * stepper.c: the step buffer, the pace timer and the axis helpers

    A shallow embedding of Grbl's [stepper.c] and the properties of its
    specification.  Integers of the C program are values of [Z] with the
    wrap-around of their width written out; the ring buffer is a list of
    [STEP_BUFFER_SIZE] bytes updated in place; the two interrupt handlers are
    state transformers that the foreground code meets at its preemption
    points and whenever it sleeps. *)

From Stdlib Require Import ZArith Lia List Bool.
From Stdlib Require SpecFloat.
From stdpp Require Import base list.
Import ListNotations.
Local Open Scope Z_scope.

(** ** Machine integers *)

Definition wrap8 (z : Z) : Z := z mod 2 ^ 8.
Definition wrap16 (z : Z) : Z := z mod 2 ^ 16.
Definition wrap32 (z : Z) : Z := z mod 2 ^ 32.

(** ** Configuration: config.h, stepper.h, nuts_bolts.h and the compiler's F_CPU *)

(** The I/O registers the module writes.  [STEPPING_PORT] is one of the
    three ports, chosen by config.h. *)
Inductive ioreg := PORTB | PORTC | PORTD | TCNT2 | TCCR1B | OCR1A.

#[global] Instance ioreg_eq_dec : EqDecision ioreg.
Proof. solve_decision. Defined.

(** The constants [stepper.c] takes from headers that are not part of the
    sources at hand.  Every property below holds for each choice of them,
    under the stated hypotheses. *)
Record config := {
  F_CPU : Z;
  STEPPING_PORT : ioreg;
  X_STEP_BIT : Z;
  Y_STEP_BIT : Z;
  Z_STEP_BIT : Z;
  X_DIRECTION_BIT : Z;
  Y_DIRECTION_BIT : Z;
  Z_DIRECTION_BIT : Z;
  STEPPING_INVERT_MASK : Z;
  STEP_PULSE_MICROSECONDS : Z;
  X_LIMIT_BIT : Z;
  Y_LIMIT_BIT : Z;
  Z_LIMIT_BIT : Z;
  X_AXIS : Z;
  Y_AXIS : Z;
  Z_AXIS : Z;
  STEPPER_MODE_STOPPED : Z;
  STEPPER_MODE_RUNNING : Z
}.

(** [#define TICKS_PER_MICROSECOND (F_CPU/1000000)] *)
Definition TICKS_PER_MICROSECOND (cfg : config) : Z := F_CPU cfg ÷ 1000000.

(** [#define STEP_BUFFER_SIZE 100] *)
Definition STEP_BUFFER_SIZE : Z := 100.

(** [#define PACE_CHANGE_MARKER 0xff] *)
Definition PACE_CHANGE_MARKER : Z := 0xff.

(** Modelled from the spec: [STEP_MASK] of config.h, which is not among the
    sources.  The spec's instruction has "one bit per axis for pulse this
    axis's step line"; the axes of [stepper.c] are X, Y and Z. *)
Definition STEP_MASK (cfg : config) : Z :=
  Z.lor (Z.lor (Z.shiftl 1 (X_STEP_BIT cfg)) (Z.shiftl 1 (Y_STEP_BIT cfg)))
        (Z.shiftl 1 (Z_STEP_BIT cfg)).

(** Modelled from the spec: [DIRECTION_MASK] of config.h, which is not among
    the sources.  The spec's instruction has "one bit per axis for this
    axis's direction line state". *)
Definition DIRECTION_MASK (cfg : config) : Z :=
  Z.lor (Z.lor (Z.shiftl 1 (X_DIRECTION_BIT cfg)) (Z.shiftl 1 (Y_DIRECTION_BIT cfg)))
        (Z.shiftl 1 (Z_DIRECTION_BIT cfg)).

(** Modelled from the spec: [STEPPING_MASK] of config.h, the step and the
    direction bits together: the bits a legal step instruction may set. *)
Definition STEPPING_MASK (cfg : config) : Z :=
  Z.lor (STEP_MASK cfg) (DIRECTION_MASK cfg).

(** The clock-select field of TCCR1B starts at bit [CS10] (avr/io.h). *)
Definition CS10 : Z := 0.

(** ** The program state *)

(** The globals of [stepper.c] and the I/O registers. *)
Record state := {
  step_buffer : list Z;
  step_buffer_head : Z;
  step_buffer_tail : Z;
  current_pace : Z;
  next_pace : Z;
  stepper_mode : Z;
  io : ioreg -> Z
}.

Definition set_step_buffer (v : list Z) (s : state) : state :=
  {| step_buffer := v; step_buffer_head := step_buffer_head s;
     step_buffer_tail := step_buffer_tail s; current_pace := current_pace s;
     next_pace := next_pace s; stepper_mode := stepper_mode s; io := io s |}.

Definition set_step_buffer_head (v : Z) (s : state) : state :=
  {| step_buffer := step_buffer s; step_buffer_head := v;
     step_buffer_tail := step_buffer_tail s; current_pace := current_pace s;
     next_pace := next_pace s; stepper_mode := stepper_mode s; io := io s |}.

Definition set_step_buffer_tail (v : Z) (s : state) : state :=
  {| step_buffer := step_buffer s; step_buffer_head := step_buffer_head s;
     step_buffer_tail := v; current_pace := current_pace s;
     next_pace := next_pace s; stepper_mode := stepper_mode s; io := io s |}.

Definition set_current_pace (v : Z) (s : state) : state :=
  {| step_buffer := step_buffer s; step_buffer_head := step_buffer_head s;
     step_buffer_tail := step_buffer_tail s; current_pace := v;
     next_pace := next_pace s; stepper_mode := stepper_mode s; io := io s |}.

Definition set_next_pace (v : Z) (s : state) : state :=
  {| step_buffer := step_buffer s; step_buffer_head := step_buffer_head s;
     step_buffer_tail := step_buffer_tail s; current_pace := current_pace s;
     next_pace := v; stepper_mode := stepper_mode s; io := io s |}.

Definition set_stepper_mode (v : Z) (s : state) : state :=
  {| step_buffer := step_buffer s; step_buffer_head := step_buffer_head s;
     step_buffer_tail := step_buffer_tail s; current_pace := current_pace s;
     next_pace := next_pace s; stepper_mode := v; io := io s |}.

(** Reading and writing a register. *)
Definition rd (r : ioreg) (s : state) : Z := io s r.

Definition wr (r : ioreg) (v : Z) (s : state) : state :=
  {| step_buffer := step_buffer s; step_buffer_head := step_buffer_head s;
     step_buffer_tail := step_buffer_tail s; current_pace := current_pace s;
     next_pace := next_pace s; stepper_mode := stepper_mode s;
     io := fun r' => if decide (r' = r) then v else io s r' |}.

(** ** The pace timer *)

(** The prescaler that each index of [config_pace_timer] stands for, as the
    function's comments give it ("prescaler: 8", ...). *)
Definition prescaler_divisor (prescaler : Z) : Z :=
  if prescaler =? 0 then 1
  else if prescaler =? 1 then 8
  else if prescaler =? 2 then 64
  else if prescaler =? 3 then 256
  else 1024.

(** The prescalers of timer 1, in order. *)
Definition prescalers : list Z := [1; 8; 64; 256; 1024].

(** [uint32_t ticks = microseconds*TICKS_PER_MICROSECOND;] *)
Definition pace_ticks (cfg : config) (microseconds : Z) : Z :=
  wrap32 (microseconds * TICKS_PER_MICROSECOND cfg).

(** The locals [ceiling] and [prescaler] of [config_pace_timer] once its
    cascade of tests is through. *)
Definition pace_ceiling_prescaler (cfg : config) (microseconds : Z) : Z * Z :=
  let ticks := pace_ticks cfg microseconds in
  if ticks <=? 0xffff then (wrap16 ticks, 0)
  else if ticks <=? 0x7ffff then (wrap16 (Z.shiftr ticks 3), 1)
  else if ticks <=? 0x3fffff then (wrap16 (Z.shiftr ticks 6), 2)
  else if ticks <=? 0xffffff then (wrap16 (Z.shiftr ticks 8), 3)
  else if ticks <=? 0x3ffffff then (wrap16 (Z.shiftr ticks 10), 4)
  else (0xffff, 4).

(** [void config_pace_timer(uint32_t microseconds)] *)
Definition config_pace_timer (cfg : config) (microseconds : Z) (s : state) : state :=
  let '(ceiling, prescaler) := pace_ceiling_prescaler cfg microseconds in
  let s := wr TCCR1B
              (wrap8 (Z.lor (Z.land (rd TCCR1B s) (Z.lnot (Z.shiftl 0x07 CS10)))
                            (Z.shiftl (prescaler + 1) CS10))) s in
  let s := wr OCR1A ceiling s in
  set_current_pace microseconds s.

(** The period, in clock ticks, of the setting [config_pace_timer] makes. *)
Definition configured_ticks (cfg : config) (microseconds : Z) : Z :=
  let '(ceiling, prescaler) := pace_ceiling_prescaler cfg microseconds in
  prescaler_divisor prescaler * ceiling.

(** ** The interrupt handlers *)

(** [SIGNAL(SIG_OUTPUT_COMPARE1A)]: the cadence handler. *)
Definition SIG_OUTPUT_COMPARE1A (cfg : config) (s : state) : state :=
  if negb (step_buffer_head s =? step_buffer_tail s) then
    let s := wr PORTD (wrap8 (Z.land (rd PORTD s) (Z.lnot (Z.shiftl 1 3)))) s in
    let popped := step_buffer s !!! Z.to_nat (step_buffer_tail s) in
    let s :=
      if popped =? PACE_CHANGE_MARKER then
        let s := config_pace_timer cfg (next_pace s) s in
        set_next_pace 0 s
      else
        let popped := wrap8 (Z.lxor popped (STEPPING_INVERT_MASK cfg)) in
        let s := wr (STEPPING_PORT cfg)
                    (wrap8 (Z.lor (Z.land (rd (STEPPING_PORT cfg) s)
                                          (Z.lnot (DIRECTION_MASK cfg)))
                                  (Z.land popped (DIRECTION_MASK cfg)))) s in
        let s := wr (STEPPING_PORT cfg)
                    (wrap8 (Z.lor (Z.land (rd (STEPPING_PORT cfg) s)
                                          (Z.lnot (STEP_MASK cfg)))
                                  popped)) s in
        wr TCNT2
           (wrap8 (- (((STEP_PULSE_MICROSECONDS cfg - 4) * TICKS_PER_MICROSECOND cfg) ÷ 8))) s in
    set_step_buffer_tail (Z.rem (step_buffer_tail s + 1) STEP_BUFFER_SIZE) s
  else
    wr PORTD (wrap8 (Z.lor (rd PORTD s) (Z.shiftl 1 3))) s.

(** [SIGNAL(SIG_OVERFLOW2)]: the pulse-reset handler. *)
Definition SIG_OVERFLOW2 (cfg : config) (s : state) : state :=
  wr (STEPPING_PORT cfg)
     (wrap8 (Z.lor (Z.land (rd (STEPPING_PORT cfg) s) (Z.lnot (STEP_MASK cfg)))
                   (Z.land (STEPPING_INVERT_MASK cfg) (STEP_MASK cfg)))) s.

(** ** The axis helpers *)

(** [uint8_t st_bit_for_stepper(int axis)] *)
Definition st_bit_for_stepper (cfg : config) (axis : Z) : Z :=
  if axis =? X_AXIS cfg then wrap8 (Z.shiftl 1 (X_STEP_BIT cfg))
  else if axis =? Y_AXIS cfg then wrap8 (Z.shiftl 1 (Y_STEP_BIT cfg))
  else if axis =? Z_AXIS cfg then wrap8 (Z.shiftl 1 (Z_STEP_BIT cfg))
  else 0.

(** [int check_limit_switch(int axis)].  [LIMIT_PORT] is an input register:
    [port1] and [port2] are what its two reads return. *)
Definition check_limit_switch (cfg : config) (axis : Z) (port1 port2 : Z) : Z :=
  let mask :=
    if axis =? X_AXIS cfg then wrap8 (Z.shiftl 1 (X_LIMIT_BIT cfg))
    else if axis =? Y_AXIS cfg then wrap8 (Z.shiftl 1 (Y_LIMIT_BIT cfg))
    else if axis =? Z_AXIS cfg then wrap8 (Z.shiftl 1 (Z_LIMIT_BIT cfg))
    else 0 in
  if negb (Z.land port1 mask =? 0) || negb (Z.land port2 mask =? 0) then 1 else 0.

(** The floating-point side of the helpers.  A [double] is a binary
    floating-point number, a [spec_float] of the standard library, in the
    format the compiler gives the type: [double_prec] bits of mantissa and
    the infinities at the exponent [double_emax] (24 and 128 where [double]
    has 32 bits, as with avr-gcc; 53 and 1024 where it has 64).  The steps
    per millimetre are constants of config.h. *)
Record double_config := {
  double_prec : Z;
  double_emax : Z;
  X_STEPS_PER_MM : SpecFloat.spec_float;
  Y_STEPS_PER_MM : SpecFloat.spec_float;
  Z_STEPS_PER_MM : SpecFloat.spec_float
}.

(** The product of two doubles: the exact product rounded to the nearest
    double, to the even one of two that are as near. *)
Definition double_mul (fp : double_config)
    : SpecFloat.spec_float -> SpecFloat.spec_float -> SpecFloat.spec_float :=
  SpecFloat.SFmul (double_prec fp) (double_emax fp).

(** [round] of math.h on the magnitude [m * 2 ^ e] of a finite double: the
    nearest integer, a half going away from zero. *)
Definition round_magnitude (m : positive) (e : Z) : Z :=
  if 0 <=? e then Z.pos m * 2 ^ e
  else (2 * Z.pos m + 2 ^ (- e)) / (2 * 2 ^ (- e)).

(** [round] followed by the conversion of its result to [int32_t] that the
    [return] makes.  C leaves the conversion undefined when the value is no
    [int32_t] (an infinity, a NaN, a magnitude out of range): [None]. *)
Definition round_to_int32 (x : SpecFloat.spec_float) : option Z :=
  match x with
  | SpecFloat.S754_zero _ => Some 0
  | SpecFloat.S754_finite sign m e =>
      let r := if sign then - round_magnitude m e else round_magnitude m e in
      if (- 2 ^ 31 <=? r) && (r <? 2 ^ 31) then Some r else None
  | SpecFloat.S754_infinity _ => None
  | SpecFloat.S754_nan => None
  end.

(** [int32_t st_millimeters_to_steps(double millimeters, int axis)] *)
Definition st_millimeters_to_steps (cfg : config) (fp : double_config)
    (millimeters : SpecFloat.spec_float) (axis : Z) : option Z :=
  if axis =? X_AXIS cfg then round_to_int32 (double_mul fp millimeters (X_STEPS_PER_MM fp))
  else if axis =? Y_AXIS cfg then round_to_int32 (double_mul fp millimeters (Y_STEPS_PER_MM fp))
  else if axis =? Z_AXIS cfg then round_to_int32 (double_mul fp millimeters (Z_STEPS_PER_MM fp))
  else Some 0.

(** ** Interrupts and the foreground *)

(** The two interrupt sources of the module. *)
Inductive irq := OC1A | OVF2.

Definition handler (cfg : config) (i : irq) (s : state) : state :=
  match i with
  | OC1A => SIG_OUTPUT_COMPARE1A cfg s
  | OVF2 => SIG_OVERFLOW2 cfg s
  end.

(** What a handler is about to execute: for the cadence handler on a buffer
    that is not empty, the byte at the tail and the pace it meets. *)
Definition observed (i : irq) (s : state) : list (Z * Z) :=
  match i with
  | OC1A =>
      if step_buffer_head s =? step_buffer_tail s then []
      else [(step_buffer s !!! Z.to_nat (step_buffer_tail s), current_pace s)]
  | OVF2 => []
  end.

(** The machine: the program state, the interrupts to come (one burst for
    each preemption point or sleep the foreground reaches), and two records
    kept for the statements only: what the cadence handler executed and what
    the caller has had accepted. *)
Record machine := {
  mem : state;
  pending : list (list irq);
  executed : list (Z * Z);
  issued : list (Z * Z)
}.

(** One handler runs to completion. *)
Definition fire (cfg : config) (i : irq) (sl : state * list (Z * Z)) : state * list (Z * Z) :=
  (handler cfg i (fst sl), snd sl ++ observed i (fst sl)).

Definition deliver (cfg : config) (burst : list irq) (sl : state * list (Z * Z))
    : state * list (Z * Z) :=
  fold_left (fun sl i => fire cfg i sl) burst sl.

Definition interrupts (cfg : config) (burst : list irq) (rest : list (list irq))
    (m : machine) : machine :=
  let sl := deliver cfg burst (mem m, executed m) in
  {| mem := fst sl; pending := rest; executed := snd sl; issued := issued m |}.

(** A foreground computation returns, or sleeps for ever because no
    interrupt is left to wake it. *)
Inductive outcome (A : Type) :=
| Returned (a : A) (m : machine)
| Asleep (m : machine).

Arguments Returned {A} a m.
Arguments Asleep {A} m.

Definition M (A : Type) : Type := machine -> outcome A.

#[global] Instance M_ret : MRet M := fun A a m => Returned a m.

#[global] Instance M_bind : MBind M := fun A B f c m =>
  match c m with
  | Returned a m' => f a m'
  | Asleep m' => Asleep m'
  end.

Definition load {A : Type} (f : state -> A) : M A :=
  fun m => Returned (f (mem m)) m.

Definition store (f : state -> state) : M unit :=
  fun m => Returned tt
    {| mem := f (mem m); pending := pending m; executed := executed m; issued := issued m |}.

(** Between two statements of the foreground the next burst of interrupts is
    served; none is served once the schedule is through. *)
Definition preempt (cfg : config) : M unit :=
  fun m =>
    match pending m with
    | [] => Returned tt m
    | burst :: rest => Returned tt (interrupts cfg burst rest m)
    end.

(** [while (cond) { sleep_mode(); }]: each sleep ends with the next burst of
    interrupts (an empty burst is a wake-up by a source foreign to the
    module); without one the processor sleeps on.  An interrupt served
    after the test and before the sleep instruction is counted with the
    burst that ends the sleep; should no interrupt follow it, the processor
    sleeps on although the condition no longer holds, which this function
    does not show: the theorems below conclude that a call returns only
    where it need not sleep. *)
Fixpoint sleep_while (cfg : config) (cond : state -> bool) (sched : list (list irq))
    (m : machine) : outcome unit :=
  if cond (mem m) then
    match sched with
    | [] => Asleep m
    | burst :: rest => sleep_while cfg cond rest (interrupts cfg burst rest m)
    end
  else Returned tt m.

Definition while_asleep (cfg : config) (cond : state -> bool) : M unit :=
  fun m => sleep_while cfg cond (pending m) m.

(** [inline void st_buffer_step(uint8_t motor_port_bits)] *)
Definition st_buffer_step (cfg : config) (motor_port_bits : Z) : M unit :=
  mode ← load stepper_mode;
  if negb (mode =? STEPPER_MODE_RUNNING cfg) then mret tt
  else
    head ← load step_buffer_head;
    let next_buffer_head := Z.rem (head + 1) STEP_BUFFER_SIZE in
    preempt cfg;;
    while_asleep cfg (fun s => step_buffer_tail s =? next_buffer_head);;
    preempt cfg;;
    store (fun s =>
      set_step_buffer
        (<[Z.to_nat (step_buffer_head s) := motor_port_bits]> (step_buffer s)) s);;
    preempt cfg;;
    store (set_step_buffer_head next_buffer_head).

(** [void st_buffer_pace(uint32_t microseconds)].  The comparison of
    [current_pace] is one load here.  The 8-bit processor makes four, with
    interrupts enabled, and the handler that pops a marker writes
    [current_pace]: the properties below that rest on the outcome of the
    comparison are stated for the calls it cannot tear ([compare_is_sure]
    further down). *)
Definition st_buffer_pace (cfg : config) (microseconds : Z) : M unit :=
  pace ← load current_pace;
  mode ← load stepper_mode;
  if (pace =? microseconds) || negb (mode =? STEPPER_MODE_RUNNING cfg) then mret tt
  else
    preempt cfg;;
    while_asleep cfg (fun s => negb (next_pace s =? 0));;
    preempt cfg;;
    store (set_next_pace microseconds);;
    preempt cfg;;
    st_buffer_step cfg PACE_CHANGE_MARKER.

(** ** Sequences of calls *)

Inductive call :=
| Call_step (motor_port_bits : Z)
| Call_pace (microseconds : Z).

Definition do_call (cfg : config) (c : call) : M unit :=
  match c with
  | Call_step b => st_buffer_step cfg b
  | Call_pace p => st_buffer_pace cfg p
  end.

(** The pace the producer last had accepted: the pending one when a change
    is outstanding, the current one otherwise. *)
Definition producer_pace (s : state) : Z :=
  if next_pace s =? 0 then current_pace s else next_pace s.

(** The caller's record of a step that was taken into the buffer, with the
    pace in force for it. *)
Definition note (cfg : config) (c : call) : M unit :=
  fun m =>
    match c with
    | Call_step b =>
        if stepper_mode (mem m) =? STEPPER_MODE_RUNNING cfg then
          Returned tt
            {| mem := mem m; pending := pending m; executed := executed m;
               issued := issued m ++ [(b, producer_pace (mem m))] |}
        else Returned tt m
    | Call_pace _ => Returned tt m
    end.

(** A call and its record. *)
Definition issue (cfg : config) (c : call) : M unit :=
  do_call cfg c;; note cfg c.

(** A producer that makes the calls of [prog] one after the other, with
    interrupts served before each call and after the last. *)
Fixpoint run (cfg : config) (prog : list call) : M unit :=
  match prog with
  | [] => preempt cfg
  | c :: rest => preempt cfg;; issue cfg c;; run cfg rest
  end.

Definition final {A : Type} (o : outcome A) : machine :=
  match o with
  | Returned _ m => m
  | Asleep m => m
  end.

Definition returned {A : Type} (o : outcome A) : bool :=
  match o with
  | Returned _ _ => true
  | Asleep _ => false
  end.

(** ** What is in the buffer *)

Fixpoint ring_slice (buf : list Z) (i : Z) (n : nat) : list Z :=
  match n with
  | O => []
  | S n' => (buf !!! Z.to_nat i) :: ring_slice buf ((i + 1) mod STEP_BUFFER_SIZE) n'
  end.

(** The instructions that are enqueued and not yet consumed, oldest first. *)
Definition resident (s : state) : list Z :=
  ring_slice (step_buffer s) (step_buffer_tail s)
    (Z.to_nat ((step_buffer_head s - step_buffer_tail s) mod STEP_BUFFER_SIZE)).

Definition is_empty (s : state) : Prop := step_buffer_head s = step_buffer_tail s.

Definition is_full (s : state) : Prop :=
  (step_buffer_head s + 1) mod STEP_BUFFER_SIZE = step_buffer_tail s.

Definition is_marker (b : Z) : bool := b =? PACE_CHANGE_MARKER.

(** The pace-change markers among some instructions. *)
Definition markers (q : list Z) : nat := length (List.filter is_marker q).

(** The step instructions of a record, the markers left out. *)
Definition steps (log : list (Z * Z)) : list (Z * Z) :=
  List.filter (fun e => negb (is_marker (fst e))) log.

(** The steps that draining [q] executes, each with its pace, when the
    current pace is [pace] and the pending one [pending_pace]. *)
Fixpoint expect (pace pending_pace : Z) (q : list Z) : list (Z * Z) :=
  match q with
  | [] => []
  | b :: q' =>
      if is_marker b then expect pending_pace 0 q'
      else (b, pace) :: expect pace pending_pace q'
  end.

Definition upcoming (s : state) : list (Z * Z) :=
  expect (current_pace s) (next_pace s) (resident s).

(** The indices are in range and the buffer has its size. *)
Definition wf (s : state) : Prop :=
  length (step_buffer s) = Z.to_nat STEP_BUFFER_SIZE /\
  0 <= step_buffer_head s < STEP_BUFFER_SIZE /\
  0 <= step_buffer_tail s < STEP_BUFFER_SIZE.

Definition running (cfg : config) (s : state) : Prop :=
  stepper_mode s = STEPPER_MODE_RUNNING cfg.

(** Between calls: a marker is resident exactly when a pace is pending. *)
Definition settled (s : state) : Prop :=
  markers (resident s) = if next_pace s =? 0 then 0%nat else 1%nat.

(** At all times: at most one marker, and none without a pending pace. *)
Definition single_request (s : state) : Prop :=
  (markers (resident s) <= if (next_pace s =? 0)%Z then 0 else 1)%nat.

(** The arguments that mean what they say: a step instruction is a byte
    other than the marker, a pace is a positive 32-bit number. *)
Definition legal_call (c : call) : Prop :=
  match c with
  | Call_step b => 0 <= b < PACE_CHANGE_MARKER
  | Call_pace p => 0 < p < 2 ^ 32
  end.

(** ** Sample values *)

Definition sample_config : config :=
  {| F_CPU := 16000000; STEPPING_PORT := PORTC;
     X_STEP_BIT := 0; Y_STEP_BIT := 1; Z_STEP_BIT := 2;
     X_DIRECTION_BIT := 3; Y_DIRECTION_BIT := 4; Z_DIRECTION_BIT := 5;
     STEPPING_INVERT_MASK := 0; STEP_PULSE_MICROSECONDS := 5;
     X_LIMIT_BIT := 3; Y_LIMIT_BIT := 4; Z_LIMIT_BIT := 5;
     X_AXIS := 0; Y_AXIS := 1; Z_AXIS := 2;
     STEPPER_MODE_STOPPED := 0; STEPPER_MODE_RUNNING := 1 |}.

(** A running state: an empty buffer, the pace of 20000 microseconds that
    [st_init] starts with, no pace pending. *)
Definition sample_state : state :=
  {| step_buffer := replicate 100 0; step_buffer_head := 0; step_buffer_tail := 0;
     current_pace := 20000; next_pace := 0; stepper_mode := 1; io := fun _ => 0 |}.

Definition sample_machine (sched : list (list irq)) : machine :=
  {| mem := sample_state; pending := sched; executed := []; issued := [] |}.

(** ** Notions for the proofs *)

(** The bits set among the eight of a byte. *)
Definition bit_count (z : Z) : Z :=
  Z.b2z (Z.testbit z 0) + Z.b2z (Z.testbit z 1) + Z.b2z (Z.testbit z 2) +
  Z.b2z (Z.testbit z 3) + Z.b2z (Z.testbit z 4) + Z.b2z (Z.testbit z 5) +
  Z.b2z (Z.testbit z 6) + Z.b2z (Z.testbit z 7).

(** The two stores of [st_buffer_step]. *)
Definition write_slot (b : Z) (s : state) : state :=
  set_step_buffer (<[Z.to_nat (step_buffer_head s) := b]> (step_buffer s)) s.

Definition advance_head (s : state) : state :=
  set_step_buffer_head (Z.rem (step_buffer_head s + 1) STEP_BUFFER_SIZE) s.

Definition with_mem (s : state) (m : machine) : machine :=
  {| mem := s; pending := pending m; executed := executed m; issued := issued m |}.

(** The globals agree; the registers may differ. *)
Definition same_vars (s s' : state) : Prop :=
  step_buffer s' = step_buffer s /\
  step_buffer_head s' = step_buffer_head s /\
  step_buffer_tail s' = step_buffer_tail s /\
  current_pace s' = current_pace s /\
  next_pace s' = next_pace s /\
  stepper_mode s' = stepper_mode s.

(** What the foreground may rely on while interrupts are served: from the
    state [s0] with record [l0] they lead to [s] with record [l]. *)
Definition rely (s0 : state) (l0 : list (Z * Z)) (s : state) (l : list (Z * Z)) : Prop :=
  wf s /\
  step_buffer s = step_buffer s0 /\
  step_buffer_head s = step_buffer_head s0 /\
  stepper_mode s = stepper_mode s0 /\
  l0 `prefix_of` l /\
  map fst l ++ resident s = map fst l0 ++ resident s0 /\
  steps l ++ upcoming s = steps l0 ++ upcoming s0 /\
  (settled s0 -> settled s /\ producer_pace s = producer_pace s0) /\
  (markers (map fst l) = markers (map fst l0) ->
     current_pace s = current_pace s0 /\ next_pace s = next_pace s0).

Definition evolves (m m' : machine) : Prop :=
  rely (mem m) (executed m) (mem m') (executed m') /\ issued m' = issued m.

(** The steps executed, followed by those the buffer still holds: each with
    its pace. *)
Definition backlog (m : machine) : list (Z * Z) :=
  steps (executed m) ++ upcoming (mem m).

(** The bytes consumed, followed by those the buffer still holds. *)
Definition stream (m : machine) : list Z :=
  map fst (executed m) ++ resident (mem m).

(** From [m] to [m'] the bytes [enq] were enqueued, in this order, and what
    was executed was executed in the order of the stream. *)
Definition advances (m m' : machine) (enq : list Z) : Prop :=
  wf (mem m') /\
  stepper_mode (mem m') = stepper_mode (mem m) /\
  executed m `prefix_of` executed m' /\
  stream m' = stream m ++ enq /\
  (markers (map fst (executed m')) = markers (map fst (executed m)) ->
     current_pace (mem m') = current_pace (mem m)).

(** What holds of the machine at all times of a run of legal calls. *)
Definition orderly (cfg : config) (m : machine) : Prop :=
  wf (mem m) /\ running cfg (mem m) /\ single_request (mem m).

(** What holds between two calls. *)
Definition at_rest (cfg : config) (m : machine) : Prop :=
  wf (mem m) /\ running cfg (mem m) /\ settled (mem m).

(** From [m] to [m'] the caller's record and the backlog grew by the same
    steps. *)
Definition recorded (m m' : machine) : Prop :=
  exists new, issued m' = issued m ++ new /\ backlog m' = backlog m ++ new.

(** The setting [config_pace_timer] makes for [microseconds] is not faster
    than asked: its period is no shorter than the requested ticks. *)
Definition not_faster_than_requested (cfg : config) (microseconds : Z) : Prop :=
  microseconds * TICKS_PER_MICROSECOND cfg <= configured_ticks cfg microseconds.

(** The steps the specification asks [st_millimeters_to_steps] for: [r] is
    an [int32_t] and the integer nearest to the double [x], the further from
    zero of two that are as near. *)
Definition nearest_int32 (x : SpecFloat.spec_float) (r : Z) : Prop :=
  - 2 ^ 31 <= r < 2 ^ 31 /\
  match x with
  | SpecFloat.S754_zero _ => r = 0
  | SpecFloat.S754_finite sign m e =>
      (if sign then r <= 0 else 0 <= r) /\
      (0 <= e -> Z.abs r = Z.pos m * 2 ^ e) /\
      (e < 0 -> - 2 ^ (- e) < 2 * (Z.abs r * 2 ^ (- e) - Z.pos m) <= 2 ^ (- e))
  | SpecFloat.S754_infinity _ => False
  | SpecFloat.S754_nan => False
  end.

(** The byte [i] of a 32-bit value. *)
Definition byte_of (i : Z) (z : Z) : Z := Z.land (Z.shiftr z (8 * i)) 0xff.

(** The 8-bit processor compares [current_pace] with the argument of
    [st_buffer_pace] after four byte loads, with interrupts enabled; when a
    pace is pending, the handler that pops its marker may install it between
    two of the loads.  [torn_match c n p]: each byte of [p] is that byte of
    the current pace [c] or of the pending pace [n], so that such a
    comparison can take [p] for the current pace. *)
Definition torn_match (c n p : Z) : bool :=
  forallb (fun i => (byte_of i p =? byte_of i c) || (byte_of i p =? byte_of i n))
          [0; 1; 2; 3].

(** The comparison of [current_pace] with [p] sees the pace the state has:
    no pace is pending, or no mixture of the bytes of the current and of the
    pending pace is [p]. *)
Definition compare_is_sure (s : state) (p : Z) : Prop :=
  next_pace s = 0 \/ torn_match (current_pace s) (next_pace s) p = false.

(** A 32-bit [double] with 80 steps per millimetre for X and Y and 400 for
    Z, and the distances 2.5 mm and 10^10 mm. *)
Definition sample_double_config : double_config :=
  {| double_prec := 24; double_emax := 128;
     X_STEPS_PER_MM := SpecFloat.S754_finite false 10485760 (-17);
     Y_STEPS_PER_MM := SpecFloat.S754_finite false 10485760 (-17);
     Z_STEPS_PER_MM := SpecFloat.S754_finite false 13107200 (-15) |}.

Definition sample_distance : SpecFloat.spec_float :=
  SpecFloat.S754_finite false 10485760 (-22).

Definition huge_distance : SpecFloat.spec_float :=
  SpecFloat.S754_finite false 9765625 10.

(** 74218.8046875 mm, whose exact product with 80 is 5937504.375. *)
Definition inexact_distance : SpecFloat.spec_float :=
  SpecFloat.S754_finite false 9500007 (-7).

(** A producer that steps, changes pace twice and steps in between, and a
    schedule in which the cadence interrupt keeps arriving. *)
Definition sample_program : list call :=
  [Call_step 1; Call_pace 1000; Call_step 2; Call_pace 500; Call_step 3].

Definition sample_schedule : list (list irq) := replicate 40 [OC1A; OVF2].

(** The sample machine after a request for the pace 1000: the pace is
    pending and its marker resident. *)
Definition pending_pace_machine : machine :=
  final (st_buffer_pace sample_config 1000 (sample_machine sample_schedule)).

(** A producer that asks for a pace of zero. *)
Definition zero_pace_program : list call :=
  [Call_pace 0; Call_step 1; Call_pace 500; Call_step 2].

(** No interrupt while the calls are made, four cadence interrupts after the
    last. *)
Definition late_schedule : list (list irq) :=
  replicate 22 [] ++ [[OC1A; OC1A; OC1A; OC1A]].

(** A producer that passes the marker's byte as a step, and a schedule with
    two cadence interrupts after its last call. *)
Definition raw_marker_program : list call := [Call_step 255; Call_step 1].

Definition raw_marker_schedule : list (list irq) := replicate 8 [] ++ [[OC1A; OC1A]].

(** A producer that passes the marker's byte as a step and then asks for a
    pace, and a schedule with one cadence interrupt after its last call. *)
Definition raw_marker_pace_program : list call := [Call_step 255; Call_pace 500].

Definition raw_marker_pace_schedule : list (list irq) := replicate 11 [] ++ [[OC1A]].

(** A machine whose mode is Stopped. *)
Definition stopped_machine : machine :=
  {| mem := set_stepper_mode 0 sample_state; pending := [[OC1A]];
     executed := []; issued := [] |}.

(** ** Set-up and life cycle *)

(** The registers that only the foreground writes: the data-direction
    registers, the mode and interrupt-mask registers of the timers, and the
    status register with the global interrupt flag. *)
Inductive setup_reg :=
  DDRB | DDRC | DDRD | TCCR1A | TCCR2A | TCCR2B | TIMSK1 | TIMSK2 | SREG.

#[global] Instance setup_reg_eq_dec : EqDecision setup_reg.
Proof. solve_decision. Defined.

(** The contents of these registers.  No handler reads or writes them, so
    the functions below take them as an argument and return them. *)
Definition setup := setup_reg -> Z.

Definition wr_setup (r : setup_reg) (v : Z) (x : setup) : setup :=
  fun r' => if decide (r' = r) then v else x r'.

(** Bit numbers of avr/io.h. *)
Definition WGM10 : Z := 0.
Definition WGM11 : Z := 1.
Definition COM1B0 : Z := 4.
Definition COM1A0 : Z := 6.
Definition WGM12 : Z := 3.
Definition WGM13 : Z := 4.
Definition CS21 : Z := 1.
Definition OCIE1A : Z := 1.
Definition TOIE2 : Z := 0.
Definition SREG_I : Z := 7.

(** [cli()] and [sei()]. *)
Definition cli (x : setup) : setup :=
  wr_setup SREG (wrap8 (Z.land (x SREG) (Z.lnot (Z.shiftl 1 SREG_I)))) x.

Definition sei (x : setup) : setup :=
  wr_setup SREG (wrap8 (Z.lor (x SREG) (Z.shiftl 1 SREG_I))) x.

(** The constants of config.h that only the set-up and life-cycle functions
    use. *)
Record board_config := {
  STEPPING_DDR : setup_reg;
  LIMIT_DDR : setup_reg;
  LIMIT_MASK : Z;
  STEPPERS_ENABLE_DDR : setup_reg;
  STEPPERS_ENABLE_PORT : ioreg;
  STEPPERS_ENABLE_BIT : Z
}.

(** [config_pace_timer] as the foreground runs it, with interrupts enabled:
    its three statements with a preemption point between them.  (The
    handler's call of it runs with interrupts disabled, as one step.) *)
Definition config_pace_timer_foreground (cfg : config) (microseconds : Z) : M unit :=
  let ceiling := fst (pace_ceiling_prescaler cfg microseconds) in
  let prescaler := snd (pace_ceiling_prescaler cfg microseconds) in
  store (fun s => wr TCCR1B
                    (wrap8 (Z.lor (Z.land (rd TCCR1B s) (Z.lnot (Z.shiftl 0x07 CS10)))
                                  (Z.shiftl (prescaler + 1) CS10))) s);;
  preempt cfg;;
  store (wr OCR1A ceiling);;
  preempt cfg;;
  store (set_current_pace microseconds).

(** [void st_init()].  Interrupts are served between the statements, not
    within one: a statement that updates a register is one step. *)
Definition st_init (cfg : config) (bcfg : board_config) (x : setup) : M setup :=
  let x := wr_setup (STEPPING_DDR bcfg)
             (wrap8 (Z.lor (x (STEPPING_DDR bcfg)) (STEPPING_MASK cfg))) x in
  preempt cfg;;
  store (fun s => wr (STEPPING_PORT cfg)
                    (wrap8 (Z.land (rd (STEPPING_PORT cfg) s) (Z.lnot (STEPPING_MASK cfg)))) s);;
  preempt cfg;;
  let x := wr_setup (LIMIT_DDR bcfg)
             (wrap8 (Z.land (x (LIMIT_DDR bcfg)) (Z.lnot (LIMIT_MASK bcfg)))) x in
  preempt cfg;;
  let x := wr_setup (STEPPERS_ENABLE_DDR bcfg)
             (wrap8 (Z.lor (x (STEPPERS_ENABLE_DDR bcfg))
                           (Z.shiftl 1 (STEPPERS_ENABLE_BIT bcfg)))) x in
  preempt cfg;;
  store (fun s => wr TCCR1B (wrap8 (Z.land (rd TCCR1B s) (Z.lnot (Z.shiftl 1 WGM13)))) s);;
  preempt cfg;;
  store (fun s => wr TCCR1B (wrap8 (Z.lor (rd TCCR1B s) (Z.shiftl 1 WGM12))) s);;
  preempt cfg;;
  let x := wr_setup TCCR1A (wrap8 (Z.land (x TCCR1A) (Z.lnot (Z.shiftl 1 WGM11)))) x in
  preempt cfg;;
  let x := wr_setup TCCR1A (wrap8 (Z.land (x TCCR1A) (Z.lnot (Z.shiftl 1 WGM10)))) x in
  preempt cfg;;
  let x := wr_setup TCCR1A (wrap8 (Z.land (x TCCR1A) (Z.lnot (Z.shiftl 3 COM1A0)))) x in
  preempt cfg;;
  let x := wr_setup TCCR1A (wrap8 (Z.land (x TCCR1A) (Z.lnot (Z.shiftl 3 COM1B0)))) x in
  preempt cfg;;
  let x := wr_setup TCCR2A 0 x in
  preempt cfg;;
  let x := wr_setup TCCR2B (Z.shiftl 1 CS21) x in
  preempt cfg;;
  let x := wr_setup TIMSK2 0 x in
  preempt cfg;;
  let x := sei x in
  preempt cfg;;
  config_pace_timer_foreground cfg 20000;;
  mret x.

(** [void st_flush()].  Between [cli] and [sei] no handler runs: the store is
    one step. *)
Definition st_flush (x : setup) : M setup :=
  let x := cli x in
  store (fun s => set_step_buffer_tail (step_buffer_head s) s);;
  let x := sei x in
  mret x.

(** [void st_synchronize()] *)
Definition st_synchronize (cfg : config) (x : setup) : M setup :=
  mode ← load stepper_mode;
  if mode =? STEPPER_MODE_RUNNING cfg then
    preempt cfg;;
    while_asleep cfg (fun s => negb (step_buffer_tail s =? step_buffer_head s));;
    mret x
  else st_flush x.

(** [void st_start()] *)
Definition st_start (cfg : config) (bcfg : board_config) (x : setup) : M setup :=
  let x := wr_setup TIMSK1 (wrap8 (Z.lor (x TIMSK1) (Z.shiftl 1 OCIE1A))) x in
  preempt cfg;;
  let x := wr_setup TIMSK2 (wrap8 (Z.lor (x TIMSK2) (Z.shiftl 1 TOIE2))) x in
  preempt cfg;;
  store (fun s => wr (STEPPERS_ENABLE_PORT bcfg)
                    (wrap8 (Z.lor (rd (STEPPERS_ENABLE_PORT bcfg) s)
                                  (Z.shiftl 1 (STEPPERS_ENABLE_BIT bcfg)))) s);;
  preempt cfg;;
  store (set_stepper_mode (STEPPER_MODE_RUNNING cfg));;
  mret x.

(** [inline void st_stop()] *)
Definition st_stop (cfg : config) (bcfg : board_config) (x : setup) : M setup :=
  x ← st_synchronize cfg x;
  preempt cfg;;
  let x := wr_setup TIMSK1 (wrap8 (Z.land (x TIMSK1) (Z.lnot (Z.shiftl 1 OCIE1A)))) x in
  preempt cfg;;
  let x := wr_setup TIMSK2 (wrap8 (Z.land (x TIMSK2) (Z.lnot (Z.shiftl 1 TOIE2)))) x in
  preempt cfg;;
  store (fun s => wr (STEPPERS_ENABLE_PORT bcfg)
                    (wrap8 (Z.land (rd (STEPPERS_ENABLE_PORT bcfg) s)
                                   (Z.lnot (Z.shiftl 1 (STEPPERS_ENABLE_BIT bcfg))))) s);;
  preempt cfg;;
  store (set_stepper_mode (STEPPER_MODE_STOPPED cfg));;
  mret x.

(** [int check_limit_switches()], with [port1] and [port2] what the two
    reads of [LIMIT_PORT] return. *)
Definition check_limit_switches (bcfg : board_config) (port1 port2 : Z) : Z :=
  Z.lor (Z.land port1 (LIMIT_MASK bcfg)) (Z.land port2 (LIMIT_MASK bcfg)).

(** The globals as their declarations initialise them. *)
Definition initial_vars (cfg : config) (s : state) : Prop :=
  step_buffer s = replicate (Z.to_nat STEP_BUFFER_SIZE) 0 /\
  step_buffer_head s = 0 /\
  step_buffer_tail s = 0 /\
  current_pace s = 0 /\
  next_pace s = 0 /\
  stepper_mode s = STEPPER_MODE_STOPPED cfg.

(** The cadence interrupts among some bursts. *)
Definition cadence_ticks (sched : list (list irq)) : nat :=
  length (List.filter (fun i => match i with OC1A => true | OVF2 => false end)
            (concat sched)).

Definition has_cadence_tick (burst : list irq) : bool :=
  existsb (fun i => match i with OC1A => true | OVF2 => false end) burst.

Definition sample_board_config : board_config :=
  {| STEPPING_DDR := DDRC; LIMIT_DDR := DDRB; LIMIT_MASK := 56;
     STEPPERS_ENABLE_DDR := DDRD; STEPPERS_ENABLE_PORT := PORTD;
     STEPPERS_ENABLE_BIT := 2 |}.

Definition sample_setup : setup := fun _ => 0.

(** What a computation returned, if it did. *)
Definition value {A : Type} (o : outcome A) : option A :=
  match o with
  | Returned a _ => Some a
  | Asleep _ => None
  end.

(** What [st_stop] does once [st_synchronize] has returned. *)
Definition st_stop_tail (cfg : config) (bcfg : board_config) (x : setup) : M setup :=
  preempt cfg;;
  let x := wr_setup TIMSK1 (wrap8 (Z.land (x TIMSK1) (Z.lnot (Z.shiftl 1 OCIE1A)))) x in
  preempt cfg;;
  let x := wr_setup TIMSK2 (wrap8 (Z.land (x TIMSK2) (Z.lnot (Z.shiftl 1 TOIE2)))) x in
  preempt cfg;;
  store (fun s => wr (STEPPERS_ENABLE_PORT bcfg)
                    (wrap8 (Z.land (rd (STEPPERS_ENABLE_PORT bcfg) s)
                                   (Z.lnot (Z.shiftl 1 (STEPPERS_ENABLE_BIT bcfg))))) s);;
  preempt cfg;;
  store (set_stepper_mode (STEPPER_MODE_STOPPED cfg));;
  mret x.

(** The enable pin is a pin of its own: its port is none of the registers
    the handlers write but PORTD, and there it is not bit 3, which the
    cadence handler toggles. *)
Definition enable_pin_apart (cfg : config) (bcfg : board_config) : Prop :=
  STEPPERS_ENABLE_PORT bcfg <> STEPPING_PORT cfg /\
  STEPPERS_ENABLE_PORT bcfg <> TCNT2 /\
  STEPPERS_ENABLE_PORT bcfg <> TCCR1B /\
  STEPPERS_ENABLE_PORT bcfg <> OCR1A /\
  0 <= STEPPERS_ENABLE_BIT bcfg < 8 /\
  (STEPPERS_ENABLE_PORT bcfg = PORTD -> STEPPERS_ENABLE_BIT bcfg <> 3).

(** A property of the state that no handler disturbs. *)
Definition handler_stable (cfg : config) (P : state -> Prop) : Prop :=
  forall i s, P s -> P (handler cfg i s).

(** Set-up followed by start: what a program does before it buffers steps. *)
Definition power_up (cfg : config) (bcfg : board_config) (x : setup) : M setup :=
  x ← st_init cfg bcfg x;
  preempt cfg;;
  st_start cfg bcfg x.

(** The machine at power-on: the globals as declared, every register
    zero, interrupts to come. *)
Definition power_on_machine : machine :=
  {| mem := {| step_buffer := replicate 100 0; step_buffer_head := 0;
               step_buffer_tail := 0; current_pace := 0; next_pace := 0;
               stepper_mode := STEPPER_MODE_STOPPED sample_config; io := fun _ => 0 |};
     pending := [[OC1A; OVF2]; [OC1A]]; executed := []; issued := [] |}.

(** A machine in which a pace of 500 microseconds is pending, its marker
    resident, and the cadence interrupt arrives at the fifteenth preemption
    point: in [st_init], between the writes of TCCR1B and OCR1A. *)
Definition racing_machine : machine :=
  {| mem := {| step_buffer := <[0%nat := PACE_CHANGE_MARKER]> (replicate 100 0);
               step_buffer_head := 1; step_buffer_tail := 0;
               current_pace := 0; next_pace := 500;
               stepper_mode := STEPPER_MODE_STOPPED sample_config; io := fun _ => 0 |};
     pending := replicate 14 [] ++ [[OC1A]]; executed := []; issued := [] |}.

(** * Properties *)

(** ** Arithmetic and registers *)

Ltac zmod := Z.div_mod_to_equations; lia.

Lemma wrap8_land z : wrap8 z = Z.land z 255.
Proof. unfold wrap8. rewrite <- (Z.land_ones z 8) by lia. reflexivity. Qed.

Lemma clock_select_field old k :
  0 <= k < 8 -> Z.land (wrap8 (Z.lor (Z.land old (Z.lnot (Z.shiftl 0x07 CS10))) (Z.shiftl k CS10))) 7 = k.
Proof.
  intros Hk. unfold CS10. rewrite !Z.shiftl_0_r, wrap8_land.
  rewrite <- Z.land_assoc. change (Z.land 255 7) with 7.
  rewrite Z.land_lor_distr_l, <- Z.land_assoc.
  change (Z.land (Z.lnot 7) 7) with 0. rewrite Z.land_0_r, Z.lor_0_l.
  change 7 with (Z.ones 3). rewrite Z.land_ones by lia. apply Z.mod_small. lia.
Qed.

Lemma pace_ticks_small cfg us :
  0 <= us * TICKS_PER_MICROSECOND cfg < 2 ^ 32 ->
  pace_ticks cfg us = us * TICKS_PER_MICROSECOND cfg.
Proof. intros H. unfold pace_ticks, wrap32. apply Z.mod_small. exact H. Qed.

Lemma rd_wr_same r v s : rd r (wr r v s) = v.
Proof. unfold rd, wr; simpl. destruct (decide (r = r)); congruence. Qed.

Lemma rd_wr_other r r' v s : r' <> r -> rd r' (wr r v s) = rd r' s.
Proof. unfold rd, wr; simpl. intros H. destruct (decide (r' = r)); congruence. Qed.

Lemma config_pace_timer_regs cfg us s :
  rd OCR1A (config_pace_timer cfg us s) = fst (pace_ceiling_prescaler cfg us) /\
  rd TCCR1B (config_pace_timer cfg us s) =
    wrap8 (Z.lor (Z.land (rd TCCR1B s) (Z.lnot (Z.shiftl 0x07 CS10)))
                 (Z.shiftl (snd (pace_ceiling_prescaler cfg us) + 1) CS10)) /\
  current_pace (config_pace_timer cfg us s) = us.
Proof.
  unfold config_pace_timer. destruct (pace_ceiling_prescaler cfg us) as [c p]. simpl.
  split; [|split]; try reflexivity.
Qed.

Lemma pace_ceiling_prescaler_cases cfg us :
  let ticks := pace_ticks cfg us in
  let cp := pace_ceiling_prescaler cfg us in
  (ticks <= 0xffff /\ cp = (wrap16 ticks, 0)) \/
  (0xffff < ticks <= 0x7ffff /\ cp = (wrap16 (Z.shiftr ticks 3), 1)) \/
  (0x7ffff < ticks <= 0x3fffff /\ cp = (wrap16 (Z.shiftr ticks 6), 2)) \/
  (0x3fffff < ticks <= 0xffffff /\ cp = (wrap16 (Z.shiftr ticks 8), 3)) \/
  (0xffffff < ticks <= 0x3ffffff /\ cp = (wrap16 (Z.shiftr ticks 10), 4)) \/
  (0x3ffffff < ticks /\ cp = (0xffff, 4)).
Proof.
  intros ticks cp. subst cp. unfold pace_ceiling_prescaler. fold ticks.
  repeat match goal with |- context [?a <=? ?b] => destruct (Z.leb_spec a b) end;
    try lia; tauto.
Qed.

Lemma wrap8_testbit z i : 0 <= i < 8 -> Z.testbit (wrap8 z) i = Z.testbit z i.
Proof. intros Hi. unfold wrap8. apply Z.mod_pow2_bits_low. lia. Qed.

Lemma b2z_orb a b : Z.b2z (a || b) <= Z.b2z a + Z.b2z b.
Proof. destruct a, b; simpl; lia. Qed.

Lemma bit_count_lor a b : bit_count (Z.lor a b) <= bit_count a + bit_count b.
Proof.
  unfold bit_count. rewrite !Z.lor_spec.
  pose proof (b2z_orb (Z.testbit a 0) (Z.testbit b 0)).
  pose proof (b2z_orb (Z.testbit a 1) (Z.testbit b 1)).
  pose proof (b2z_orb (Z.testbit a 2) (Z.testbit b 2)).
  pose proof (b2z_orb (Z.testbit a 3) (Z.testbit b 3)).
  pose proof (b2z_orb (Z.testbit a 4) (Z.testbit b 4)).
  pose proof (b2z_orb (Z.testbit a 5) (Z.testbit b 5)).
  pose proof (b2z_orb (Z.testbit a 6) (Z.testbit b 6)).
  pose proof (b2z_orb (Z.testbit a 7) (Z.testbit b 7)).
  lia.
Qed.

Lemma testbit_one j : Z.testbit 1 j = (j =? 0).
Proof.
  destruct (Z.eqb_spec j 0) as [->|Hj]; [reflexivity|].
  destruct (Z.lt_ge_cases j 0) as [Hneg|Hpos].
  - apply Z.testbit_neg_r. exact Hneg.
  - change 1 with (2 ^ 0). apply Z.pow2_bits_false. lia.
Qed.

Lemma testbit_single k i : 0 <= i -> Z.testbit (Z.shiftl 1 k) i = (i =? k).
Proof.
  intros Hi. rewrite Z.shiftl_spec by lia. rewrite testbit_one.
  destruct (Z.eqb_spec (i - k) 0), (Z.eqb_spec i k); try reflexivity; lia.
Qed.

Lemma bit_count_single k : bit_count (Z.shiftl 1 k) <= 1.
Proof.
  unfold bit_count. rewrite !testbit_single by lia.
  repeat match goal with |- context [?a =? k] => destruct (Z.eqb_spec a k) end;
    simpl; lia.
Qed.

Lemma bit_count_axes x y z :
  bit_count (Z.lor (Z.lor (Z.shiftl 1 x) (Z.shiftl 1 y)) (Z.shiftl 1 z)) <= 3.
Proof.
  pose proof (bit_count_lor (Z.lor (Z.shiftl 1 x) (Z.shiftl 1 y)) (Z.shiftl 1 z)).
  pose proof (bit_count_lor (Z.shiftl 1 x) (Z.shiftl 1 y)).
  pose proof (bit_count_single x). pose proof (bit_count_single y).
  pose proof (bit_count_single z). lia.
Qed.

Lemma bit_count_stepping_mask cfg : bit_count (STEPPING_MASK cfg) <= 6.
Proof.
  unfold STEPPING_MASK.
  pose proof (bit_count_lor (STEP_MASK cfg) (DIRECTION_MASK cfg)).
  pose proof (bit_count_axes (X_STEP_BIT cfg) (Y_STEP_BIT cfg) (Z_STEP_BIT cfg)).
  pose proof (bit_count_axes (X_DIRECTION_BIT cfg) (Y_DIRECTION_BIT cfg) (Z_DIRECTION_BIT cfg)).
  unfold STEP_MASK, DIRECTION_MASK in *. lia.
Qed.

Section Ring.

Lemma ring_slice_length buf i n : length (ring_slice buf i n) = n.
Proof. revert i. induction n as [|n IH]; intros i; simpl; [reflexivity|]. rewrite IH. reflexivity. Qed.

Lemma ring_slice_insert_outside (buf : list Z) b j n i :
  0 <= i < STEP_BUFFER_SIZE -> 0 <= j < STEP_BUFFER_SIZE ->
  Z.of_nat n <= (j - i) mod STEP_BUFFER_SIZE ->
  ring_slice (<[Z.to_nat j := b]> buf) i n = ring_slice buf i n.
Proof.
  unfold STEP_BUFFER_SIZE. revert i.
  induction n as [|n IH]; intros i Hi Hj Hn; simpl; [reflexivity|].
  f_equal.
  - apply list_lookup_total_insert_ne. intros Heq.
    assert (j = i) by lia. subst j. rewrite Z.sub_diag in Hn. change (0 mod 100) with 0 in Hn. lia.
  - apply IH; unfold STEP_BUFFER_SIZE; [zmod|lia|zmod].
Qed.

Lemma ring_slice_snoc (buf : list Z) n i :
  0 <= i < STEP_BUFFER_SIZE ->
  ring_slice buf i (S n)
  = ring_slice buf i n ++ [buf !!! Z.to_nat ((i + Z.of_nat n) mod STEP_BUFFER_SIZE)].
Proof.
  unfold STEP_BUFFER_SIZE. revert i.
  induction n as [|n IH]; intros i Hi.
  - simpl. rewrite Z.add_0_r, Z.mod_small by lia. reflexivity.
  - change (ring_slice buf i (S (S n)))
      with ((buf !!! Z.to_nat i) :: ring_slice buf ((i + 1) mod STEP_BUFFER_SIZE) (S n)).
    unfold STEP_BUFFER_SIZE. rewrite IH by zmod. simpl. do 4 f_equal. zmod.
Qed.

Lemma resident_length s :
  wf s ->
  Z.of_nat (length (resident s))
  = (step_buffer_head s - step_buffer_tail s) mod STEP_BUFFER_SIZE.
Proof.
  intros (_ & Hh & Ht). unfold resident. rewrite ring_slice_length.
  unfold STEP_BUFFER_SIZE in *. rewrite Z2Nat.id by zmod. reflexivity.
Qed.

Lemma resident_pop s s' :
  wf s -> step_buffer_head s <> step_buffer_tail s ->
  step_buffer s' = step_buffer s -> step_buffer_head s' = step_buffer_head s ->
  step_buffer_tail s' = Z.rem (step_buffer_tail s + 1) STEP_BUFFER_SIZE ->
  resident s = (step_buffer s !!! Z.to_nat (step_buffer_tail s)) :: resident s'.
Proof.
  intros (_ & Hh & Ht) Hne Hb Hhd Htl. unfold resident. rewrite Hb, Hhd, Htl.
  unfold STEP_BUFFER_SIZE in *. rewrite Z.rem_mod_nonneg by lia.
  replace (Z.to_nat ((step_buffer_head s - step_buffer_tail s) mod 100))
    with (S (Z.to_nat ((step_buffer_head s - (step_buffer_tail s + 1) mod 100) mod 100)))
    by zmod.
  reflexivity.
Qed.

Lemma resident_write s s' b :
  wf s ->
  step_buffer s' = <[Z.to_nat (step_buffer_head s) := b]> (step_buffer s) ->
  step_buffer_head s' = step_buffer_head s ->
  step_buffer_tail s' = step_buffer_tail s ->
  resident s' = resident s.
Proof.
  intros (_ & Hh & Ht) Hb Hhd Htl. unfold resident. rewrite Hb, Hhd, Htl.
  apply ring_slice_insert_outside; try assumption.
  unfold STEP_BUFFER_SIZE in *. rewrite Z2Nat.id by zmod. lia.
Qed.

Lemma resident_push s s' :
  wf s -> ~ is_full s ->
  step_buffer s' = step_buffer s ->
  step_buffer_head s' = Z.rem (step_buffer_head s + 1) STEP_BUFFER_SIZE ->
  step_buffer_tail s' = step_buffer_tail s ->
  resident s' = resident s ++ [step_buffer s !!! Z.to_nat (step_buffer_head s)].
Proof.
  intros (_ & Hh & Ht) Hnf Hb Hhd Htl. unfold resident, is_full in *.
  rewrite Hb, Hhd, Htl.
  unfold STEP_BUFFER_SIZE in *. rewrite Z.rem_mod_nonneg by lia.
  replace (Z.to_nat (((step_buffer_head s + 1) mod 100 - step_buffer_tail s) mod 100))
    with (S (Z.to_nat ((step_buffer_head s - step_buffer_tail s) mod 100)))
    by zmod.
  pose proof (ring_slice_snoc (step_buffer s)
    (Z.to_nat ((step_buffer_head s - step_buffer_tail s) mod 100)) (step_buffer_tail s)) as Hs.
  unfold STEP_BUFFER_SIZE in Hs. rewrite Hs by lia. do 3 f_equal.
  rewrite Z2Nat.id by zmod. zmod.
Qed.

End Ring.

Section Handlers.

Context (cfg : config).

Lemma config_pace_timer_vars us s :
  step_buffer (config_pace_timer cfg us s) = step_buffer s /\
  step_buffer_head (config_pace_timer cfg us s) = step_buffer_head s /\
  step_buffer_tail (config_pace_timer cfg us s) = step_buffer_tail s /\
  current_pace (config_pace_timer cfg us s) = us /\
  next_pace (config_pace_timer cfg us s) = next_pace s /\
  stepper_mode (config_pace_timer cfg us s) = stepper_mode s.
Proof.
  unfold config_pace_timer. destruct (pace_ceiling_prescaler cfg us) as [c p].
  simpl. repeat split.
Qed.

(** The globals after the cadence handler. *)
Lemma SIG_OUTPUT_COMPARE1A_vars s :
  step_buffer (SIG_OUTPUT_COMPARE1A cfg s) = step_buffer s /\
  step_buffer_head (SIG_OUTPUT_COMPARE1A cfg s) = step_buffer_head s /\
  stepper_mode (SIG_OUTPUT_COMPARE1A cfg s) = stepper_mode s /\
  if step_buffer_head s =? step_buffer_tail s then
    step_buffer_tail (SIG_OUTPUT_COMPARE1A cfg s) = step_buffer_tail s /\
    current_pace (SIG_OUTPUT_COMPARE1A cfg s) = current_pace s /\
    next_pace (SIG_OUTPUT_COMPARE1A cfg s) = next_pace s
  else
    step_buffer_tail (SIG_OUTPUT_COMPARE1A cfg s)
      = Z.rem (step_buffer_tail s + 1) STEP_BUFFER_SIZE /\
    if is_marker (step_buffer s !!! Z.to_nat (step_buffer_tail s)) then
      current_pace (SIG_OUTPUT_COMPARE1A cfg s) = next_pace s /\
      next_pace (SIG_OUTPUT_COMPARE1A cfg s) = 0
    else
      current_pace (SIG_OUTPUT_COMPARE1A cfg s) = current_pace s /\
      next_pace (SIG_OUTPUT_COMPARE1A cfg s) = next_pace s.
Proof.
  unfold SIG_OUTPUT_COMPARE1A, is_marker.
  destruct (step_buffer_head s =? step_buffer_tail s); simpl negb; cbv iota.
  - simpl. repeat split.
  - cbv zeta. simpl step_buffer. simpl step_buffer_tail.
    destruct (step_buffer s !!! Z.to_nat (step_buffer_tail s) =? PACE_CHANGE_MARKER).
    + set (w := wr PORTD _ s).
      change (next_pace w) with (next_pace s).
      destruct (config_pace_timer_vars (next_pace s) w) as (Hb & Hh & Ht & Hc & Hn & Hm).
      simpl. rewrite Hb, Hh, Ht, Hc, Hm. subst w. simpl. repeat split.
    + simpl. repeat split.
Qed.

Lemma SIG_OVERFLOW2_vars s : same_vars s (SIG_OVERFLOW2 cfg s).
Proof. unfold SIG_OVERFLOW2, same_vars. simpl. repeat split. Qed.

End Handlers.

Section Records.

Lemma markers_app q1 q2 : markers (q1 ++ q2) = (markers q1 + markers q2)%nat.
Proof. unfold markers. rewrite List.filter_app, length_app. reflexivity. Qed.

Lemma markers_cons b q :
  markers (b :: q) = ((if is_marker b then 1 else 0) + markers q)%nat.
Proof. unfold markers. simpl. destruct (is_marker b); reflexivity. Qed.

Lemma steps_app l1 l2 : steps (l1 ++ l2) = steps l1 ++ steps l2.
Proof. unfold steps. apply List.filter_app. Qed.

Lemma markers_prefix (l1 l2 : list (Z * Z)) :
  l1 `prefix_of` l2 -> (markers (map fst l1) <= markers (map fst l2))%nat.
Proof. intros [k ->]. rewrite map_app, markers_app. lia. Qed.

Lemma same_vars_resident s s' : same_vars s s' -> resident s' = resident s.
Proof. intros (Hb & Hh & Ht & _). unfold resident. rewrite Hb, Hh, Ht. reflexivity. Qed.

Lemma same_vars_upcoming s s' : same_vars s s' -> upcoming s' = upcoming s.
Proof.
  intros Hv. unfold upcoming. rewrite (same_vars_resident s s' Hv).
  destruct Hv as (_ & _ & _ & Hc & Hn & _). rewrite Hc, Hn. reflexivity.
Qed.

Lemma same_vars_wf s s' : same_vars s s' -> wf s -> wf s'.
Proof. intros (Hb & Hh & Ht & _). unfold wf. rewrite Hb, Hh, Ht. tauto. Qed.

Lemma rely_same_vars s s' l : wf s -> same_vars s s' -> rely s l s' l.
Proof.
  intros Hwf Hv. pose proof (same_vars_resident s s' Hv) as Hr.
  pose proof (same_vars_upcoming s s' Hv) as Hu.
  pose proof (same_vars_wf s s' Hv Hwf) as Hwf'.
  destruct Hv as (Hb & Hh & Ht & Hc & Hn & Hm).
  unfold rely, settled, producer_pace. rewrite Hr, Hu, Hc, Hn.
  split; [exact Hwf'|]. repeat split; auto.
Qed.

Lemma rely_refl s l : wf s -> rely s l s l.
Proof. intros Hwf. apply rely_same_vars; [exact Hwf|]. unfold same_vars. tauto. Qed.

Lemma rely_trans s0 l0 s1 l1 s2 l2 :
  rely s0 l0 s1 l1 -> rely s1 l1 s2 l2 -> rely s0 l0 s2 l2.
Proof.
  intros (Hwf1 & Hb1 & Hh1 & Hm1 & Hp1 & Hq1 & Hu1 & Hs1 & Hk1)
         (Hwf2 & Hb2 & Hh2 & Hm2 & Hp2 & Hq2 & Hu2 & Hs2 & Hk2).
  unfold rely. split; [exact Hwf2|]. repeat split; try congruence.
  - etrans; eassumption.
  - apply Hs2, Hs1. assumption.
  - destruct (Hs1 H) as [Hs Hpp]. destruct (Hs2 Hs) as [_ Hpp']. congruence.
  - pose proof (markers_prefix _ _ Hp1). pose proof (markers_prefix _ _ Hp2).
    destruct Hk1 as [Hc _]; [lia|]. destruct Hk2 as [Hc' _]; [lia|]. congruence.
  - pose proof (markers_prefix _ _ Hp1). pose proof (markers_prefix _ _ Hp2).
    destruct Hk1 as [_ Hn]; [lia|]. destruct Hk2 as [_ Hn']; [lia|]. congruence.
Qed.

End Records.

Section Interrupts.

Context (cfg : config).

Lemma rely_pop s s' l :
  wf s -> step_buffer_head s <> step_buffer_tail s ->
  step_buffer s' = step_buffer s ->
  step_buffer_head s' = step_buffer_head s ->
  stepper_mode s' = stepper_mode s ->
  step_buffer_tail s' = Z.rem (step_buffer_tail s + 1) STEP_BUFFER_SIZE ->
  (if is_marker (step_buffer s !!! Z.to_nat (step_buffer_tail s)) then
     current_pace s' = next_pace s /\ next_pace s' = 0
   else current_pace s' = current_pace s /\ next_pace s' = next_pace s) ->
  rely s l s' (l ++ [(step_buffer s !!! Z.to_nat (step_buffer_tail s), current_pace s)]).
Proof.
  intros Hwf Hne Hb Hh Hm Ht Hpace.
  pose proof (resident_pop s s' Hwf Hne Hb Hh Ht) as Hres.
  set (p := step_buffer s !!! Z.to_nat (step_buffer_tail s)) in *.
  assert (Hwf' : wf s').
  { destruct Hwf as (Hlen & Hhd & Htl). unfold wf. rewrite Hb, Hh, Ht.
    unfold STEP_BUFFER_SIZE in *. rewrite Z.rem_mod_nonneg by lia.
    repeat split; try lia; zmod. }
  unfold rely. split; [exact Hwf'|]. split; [exact Hb|]. split; [exact Hh|].
  split; [exact Hm|]. split; [apply prefix_app_r; reflexivity|].
  split; [rewrite map_app, <- app_assoc, Hres; reflexivity|].
  unfold upcoming, settled, producer_pace.
  rewrite Hres, steps_app, map_app, !markers_app, markers_cons.
  change (steps [(p, current_pace s)])
    with (if negb (is_marker p) then [(p, current_pace s)] else []).
  change (markers (map fst [(p, current_pace s)]))
    with (markers [p]). rewrite (markers_cons p []).
  change (expect (current_pace s) (next_pace s) (p :: resident s'))
    with (if is_marker p then expect (next_pace s) 0 (resident s')
          else (p, current_pace s) :: expect (current_pace s) (next_pace s) (resident s')).
  destruct (is_marker p) eqn:Hp; destruct Hpace as [Hc Hn]; rewrite Hc, Hn; simpl negb; cbv iota.
  - rewrite app_nil_r. split; [reflexivity|]. split.
    + destruct (Z.eqb_spec (next_pace s) 0); [lia|]. intros Hs.
      split; [change (0 =? 0) with true; cbv iota; lia|reflexivity].
    + change (markers []) with 0%nat. lia.
  - rewrite <- app_assoc. split; [reflexivity|]. split; [|tauto].
    intros Hs. split; [exact Hs|reflexivity].
Qed.

Lemma rely_fire i s l : wf s -> rely s l (handler cfg i s) (l ++ observed i s).
Proof.
  intros Hwf. destruct i; simpl handler; simpl observed.
  - pose proof (SIG_OUTPUT_COMPARE1A_vars cfg s) as (Hb & Hh & Hm & Hrest).
    destruct (Z.eqb_spec (step_buffer_head s) (step_buffer_tail s)) as [Heq|Hne].
    + rewrite app_nil_r. apply rely_same_vars; [exact Hwf|].
      unfold same_vars. tauto.
    + destruct Hrest as [Ht Hpace]. apply rely_pop; assumption.
  - rewrite app_nil_r. apply rely_same_vars; [exact Hwf|]. apply SIG_OVERFLOW2_vars.
Qed.

Lemma rely_deliver burst s l :
  wf s ->
  rely s l (fst (deliver cfg burst (s, l))) (snd (deliver cfg burst (s, l))).
Proof.
  revert s l. induction burst as [|i burst IH]; intros s l Hwf.
  - simpl. apply rely_refl. exact Hwf.
  - simpl. pose proof (rely_fire i s l Hwf) as Hstep.
    eapply rely_trans; [exact Hstep|]. apply IH. apply Hstep.
Qed.

Lemma evolves_refl m : wf (mem m) -> evolves m m.
Proof. intros Hwf. split; [apply rely_refl; exact Hwf|reflexivity]. Qed.

Lemma evolves_trans m0 m1 m2 : evolves m0 m1 -> evolves m1 m2 -> evolves m0 m2.
Proof.
  intros [Hr1 Hi1] [Hr2 Hi2]. split; [eapply rely_trans; eassumption|congruence].
Qed.

Lemma evolves_wf m m' : evolves m m' -> wf (mem m').
Proof. intros [Hr _]. apply Hr. Qed.

Lemma evolves_interrupts burst rest m :
  wf (mem m) -> evolves m (interrupts cfg burst rest m).
Proof.
  intros Hwf. split; [|reflexivity]. unfold interrupts; simpl.
  apply rely_deliver. exact Hwf.
Qed.

Lemma preempt_spec m :
  wf (mem m) -> exists m', preempt cfg m = Returned tt m' /\ evolves m m'.
Proof.
  intros Hwf. unfold preempt. destruct (pending m) as [|burst rest].
  - exists m. split; [reflexivity|apply evolves_refl; exact Hwf].
  - eexists. split; [reflexivity|apply evolves_interrupts; exact Hwf].
Qed.

Lemma sleep_while_spec cond sched m :
  wf (mem m) ->
  match sleep_while cfg cond sched m with
  | Returned _ m' => evolves m m' /\ cond (mem m') = false
  | Asleep m' => evolves m m' /\ cond (mem m') = true
  end.
Proof.
  revert m. induction sched as [|burst rest IH]; intros m Hwf; simpl.
  - destruct (cond (mem m)) eqn:Hc;
      (split; [apply evolves_refl; exact Hwf|exact Hc]).
  - destruct (cond (mem m)) eqn:Hc.
    + pose proof (evolves_interrupts burst rest m Hwf) as Hev.
      specialize (IH (interrupts cfg burst rest m) (evolves_wf _ _ Hev)).
      destruct (sleep_while cfg cond rest (interrupts cfg burst rest m)) as [[] m'|m'];
        destruct IH as [Hev' Hc']; (split; [eapply evolves_trans; eassumption|exact Hc']).
    + split; [apply evolves_refl; exact Hwf|exact Hc].
Qed.

End Interrupts.

Section Foreground.

Context (cfg : config).

Lemma is_full_length s : wf s -> (is_full s <-> length (resident s) = 99%nat).
Proof.
  intros Hwf. pose proof (resident_length s Hwf) as Hlen.
  destruct Hwf as (_ & Hh & Ht). unfold is_full, STEP_BUFFER_SIZE in *.
  split; intros H; zmod.
Qed.

Lemma is_empty_length s : wf s -> (is_empty s <-> length (resident s) = 0%nat).
Proof.
  intros Hwf. pose proof (resident_length s Hwf) as Hlen.
  destruct Hwf as (_ & Hh & Ht). unfold is_empty, STEP_BUFFER_SIZE in *.
  split; intros H; zmod.
Qed.

Lemma rely_lengths s0 l0 s l :
  rely s0 l0 s l ->
  (length l + length (resident s) = length l0 + length (resident s0))%nat /\
  (length l0 <= length l)%nat.
Proof.
  intros (_ & _ & _ & _ & Hp & Hq & _). split.
  - apply (f_equal length) in Hq. rewrite !length_app, !length_map in Hq. exact Hq.
  - apply prefix_length. exact Hp.
Qed.

Lemma rely_not_full s0 l0 s l : wf s0 -> rely s0 l0 s l -> ~ is_full s0 -> ~ is_full s.
Proof.
  intros Hwf0 Hr Hnf. pose proof (rely_lengths _ _ _ _ Hr) as [Hlen Hle].
  assert (Hwf : wf s) by apply Hr.
  rewrite is_full_length in * by assumption.
  pose proof (resident_length s0 Hwf0) as H0. destruct Hwf0 as (_ & Hh & Ht).
  unfold STEP_BUFFER_SIZE in *.
  assert (length (resident s0) < 100)%nat by zmod. lia.
Qed.

Lemma wf_write_slot b s : wf s -> wf (write_slot b s).
Proof.
  intros (Hlen & Hh & Ht). unfold wf, write_slot. simpl.
  rewrite length_insert. tauto.
Qed.

Lemma wf_advance_head s : wf s -> wf (advance_head s).
Proof.
  intros (Hlen & Hh & Ht). unfold wf, advance_head. simpl.
  unfold STEP_BUFFER_SIZE in *. rewrite Z.rem_mod_nonneg by lia.
  repeat split; try lia; zmod.
Qed.

(** The course of [st_buffer_step] while running: it sleeps on a full
    buffer, or it finds room, writes the slot and then advances the head,
    with interrupts served in between. *)
Lemma st_buffer_step_running b m :
  wf (mem m) -> running cfg (mem m) ->
  match st_buffer_step cfg b m with
  | Asleep m' => evolves m m' /\ is_full (mem m')
  | Returned _ m' =>
      exists m1 m2,
        evolves m m1 /\ ~ is_full (mem m1) /\
        evolves (with_mem (write_slot b (mem m1)) m1) m2 /\
        m' = with_mem (advance_head (mem m2)) m2
  end.
Proof.
  intros Hwf Hrun. unfold running in Hrun.
  unfold st_buffer_step, mbind, M_bind, load, mret, M_ret.
  rewrite Hrun, Z.eqb_refl. change (negb true) with false. cbv beta iota zeta.
  destruct (preempt_spec cfg m Hwf) as (ma & -> & Hea).
  pose proof (evolves_wf _ _ Hea) as Hwfa.
  unfold while_asleep.
  pose proof (sleep_while_spec cfg
    (fun s => step_buffer_tail s =? Z.rem (step_buffer_head (mem m) + 1) STEP_BUFFER_SIZE)
    (pending ma) ma Hwfa) as Hloop.
  assert (Hhead : forall m', evolves m m' -> step_buffer_head (mem m') = step_buffer_head (mem m)).
  { intros m' [Hr _]. apply Hr. }
  assert (Hfull : forall m', evolves m m' ->
    ((step_buffer_tail (mem m') =? Z.rem (step_buffer_head (mem m) + 1) STEP_BUFFER_SIZE) = true
     <-> is_full (mem m'))).
  { intros m' Hev. pose proof (evolves_wf _ _ Hev) as (_ & Hh & _).
    rewrite <- (Hhead m' Hev). unfold is_full, STEP_BUFFER_SIZE in *.
    rewrite Z.rem_mod_nonneg by lia. rewrite Z.eqb_eq. split; intros; lia. }
  destruct (sleep_while cfg _ (pending ma) ma) as [[] mb|mb]; destruct Hloop as [Heb Hc].
  - pose proof (evolves_trans _ _ _ Hea Heb) as Hemb.
    pose proof (evolves_wf _ _ Hemb) as Hwfb.
    destruct (preempt_spec cfg mb Hwfb) as (m1 & -> & He1).
    pose proof (evolves_trans _ _ _ Hemb He1) as Hem1.
    pose proof (evolves_wf _ _ Hem1) as Hwf1.
    unfold store at 1.
    set (mw := {| mem := _; pending := pending m1 |}).
    assert (Hwfw : wf (mem mw)) by (apply wf_write_slot; exact Hwf1).
    destruct (preempt_spec cfg mw Hwfw) as (m2 & -> & He2).
    unfold store. exists m1, m2.
    split; [exact Hem1|]. split.
    + apply (rely_not_full (mem mb) (executed mb) _ (executed m1)); [exact Hwfb|apply He1|].
      intros Hf. apply (Hfull mb Hemb) in Hf. congruence.
    + split; [exact He2|]. unfold with_mem, advance_head.
      assert (Hh2 : step_buffer_head (mem m2) = step_buffer_head (mem m)).
      { destruct He2 as [Hr2 _]. destruct Hr2 as (_ & _ & Hh2 & _). rewrite Hh2.
        simpl. apply Hhead. exact Hem1. }
      rewrite Hh2. reflexivity.
  - split; [eapply evolves_trans; eassumption|].
    apply Hfull; [eapply evolves_trans; eassumption|exact Hc].
Qed.

End Foreground.

Section Push.

Lemma expect_snoc_step (pace pending_pace : Z) q b :
  markers q = (if pending_pace =? 0 then 0%nat else 1%nat) ->
  is_marker b = false ->
  expect pace pending_pace (q ++ [b])
  = expect pace pending_pace q ++ [(b, if pending_pace =? 0 then pace else pending_pace)].
Proof.
  intros Hq Hb. revert pace pending_pace Hq.
  induction q as [|x q IH]; intros pace pending_pace Hq.
  - simpl. rewrite Hb. change (markers []) with 0%nat in Hq.
    destruct (pending_pace =? 0); [reflexivity|discriminate].
  - rewrite markers_cons in Hq. simpl. destruct (is_marker x) eqn:Hx.
    + destruct (Z.eqb_spec pending_pace 0) as [|Hne]; [lia|].
      rewrite IH by (change (0 =? 0) with true; cbv iota; lia).
      reflexivity.
    + rewrite IH by exact Hq. reflexivity.
Qed.

Lemma expect_snoc_marker pace pending_pace q b :
  markers q = 0%nat -> is_marker b = true ->
  expect pace pending_pace (q ++ [b]) = expect pace pending_pace q.
Proof.
  intros Hq Hb. revert pace pending_pace.
  induction q as [|x q IH]; intros pace pending_pace.
  - simpl. rewrite Hb. reflexivity.
  - rewrite markers_cons in Hq. simpl. destruct (is_marker x) eqn:Hx; [lia|].
    rewrite IH by lia. reflexivity.
Qed.

Lemma rely_markers s0 l0 s l :
  rely s0 l0 s l ->
  (markers (map fst l) + markers (resident s)
   = markers (map fst l0) + markers (resident s0))%nat /\
  (markers (map fst l0) <= markers (map fst l))%nat.
Proof.
  intros (_ & _ & _ & _ & Hp & Hq & _). split.
  - apply (f_equal markers) in Hq. rewrite !markers_app in Hq. exact Hq.
  - apply markers_prefix. exact Hp.
Qed.

Lemma rely_no_marker s0 l0 s l :
  rely s0 l0 s l -> markers (resident s0) = 0%nat ->
  markers (resident s) = 0%nat /\
  current_pace s = current_pace s0 /\ next_pace s = next_pace s0.
Proof.
  intros Hr H0. pose proof (rely_markers _ _ _ _ Hr) as [Hsum Hle].
  destruct Hr as (_ & _ & _ & _ & _ & _ & _ & _ & Hk).
  split; [lia|]. apply Hk. lia.
Qed.

Lemma write_slot_vars b s :
  step_buffer (write_slot b s) = <[Z.to_nat (step_buffer_head s) := b]> (step_buffer s) /\
  step_buffer_head (write_slot b s) = step_buffer_head s /\
  step_buffer_tail (write_slot b s) = step_buffer_tail s /\
  current_pace (write_slot b s) = current_pace s /\
  next_pace (write_slot b s) = next_pace s /\
  stepper_mode (write_slot b s) = stepper_mode s.
Proof. unfold write_slot. simpl. repeat split. Qed.

Lemma resident_write_slot b s : wf s -> resident (write_slot b s) = resident s.
Proof.
  intros Hwf. destruct (write_slot_vars b s) as (Hb & Hh & Ht & _).
  apply (resident_write s _ b); assumption.
Qed.

Lemma resident_advance_head s b :
  wf s -> ~ is_full s -> step_buffer s !!! Z.to_nat (step_buffer_head s) = b ->
  resident (advance_head s) = resident s ++ [b].
Proof.
  intros Hwf Hnf Hb. rewrite <- Hb.
  apply resident_push; try assumption; reflexivity.
Qed.

(** The effect of a completed [st_buffer_step] on the records, from the
    state [s0] of the call to the state after the head has advanced. *)
Lemma push_summary s0 l0 s1 l1 s2 l2 b :
  wf s0 -> rely s0 l0 s1 l1 -> ~ is_full s1 ->
  rely (write_slot b s1) l1 s2 l2 ->
  wf (advance_head s2) /\
  stepper_mode (advance_head s2) = stepper_mode s0 /\
  l0 `prefix_of` l2 /\
  map fst l2 ++ resident (advance_head s2) = map fst l0 ++ resident s0 ++ [b] /\
  (markers (map fst l2) = markers (map fst l0) ->
     current_pace (advance_head s2) = current_pace s0 /\
     next_pace (advance_head s2) = next_pace s0) /\
  (settled s0 -> is_marker b = false ->
     settled (advance_head s2) /\
     producer_pace (advance_head s2) = producer_pace s0 /\
     steps l2 ++ upcoming (advance_head s2)
     = steps l0 ++ upcoming s0 ++ [(b, producer_pace s0)]) /\
  (markers (resident s0) = 0%nat -> is_marker b = true ->
     markers (resident (advance_head s2)) = 1%nat /\
     next_pace (advance_head s2) = next_pace s0 /\
     current_pace (advance_head s2) = current_pace s0 /\
     steps l2 ++ upcoming (advance_head s2) = steps l0 ++ upcoming s0) /\
  (is_full s0 -> (length l0 < length l2)%nat).
Proof.
  intros Hwf0 Hr1 Hnf1 Hr2.
  assert (Hwf1 : wf s1) by apply Hr1.
  assert (Hwf2 : wf s2) by apply Hr2.
  pose proof (wf_write_slot b s1 Hwf1) as Hwfw.
  pose proof (resident_write_slot b s1 Hwf1) as Hresw.
  pose proof (rely_not_full _ _ _ _ Hwfw Hr2) as Hnf2.
  assert (Hnfw : ~ is_full (write_slot b s1)).
  { rewrite is_full_length in * by assumption. rewrite Hresw. exact Hnf1. }
  specialize (Hnf2 Hnfw).
  destruct (write_slot_vars b s1) as (Hbw & Hhw & Htw & Hcw & Hnw & Hmw).
  assert (Hslot : step_buffer s2 !!! Z.to_nat (step_buffer_head s2) = b).
  { destruct Hr2 as (_ & Hb2 & Hh2 & _). rewrite Hb2, Hh2, Hbw, Hhw.
    apply list_lookup_total_insert_eq. destruct Hwf1 as (Hlen & Hh & _).
    rewrite Hlen. unfold STEP_BUFFER_SIZE in *. lia. }
  pose proof (resident_advance_head s2 b Hwf2 Hnf2 Hslot) as Hres.
  pose proof (rely_markers _ _ _ _ Hr1) as [Hmk1 Hle1].
  pose proof (rely_markers _ _ _ _ Hr2) as [Hmk2 Hle2].
  pose proof (rely_lengths _ _ _ _ Hr1) as [Hlen1 Hlle1].
  pose proof (rely_lengths _ _ _ _ Hr2) as [Hlen2 Hlle2].
  rewrite Hresw in Hmk2, Hlen2.
  destruct Hr1 as (_ & Hb1 & Hh1 & Hm1 & Hp1 & Hq1 & Hu1 & Hs1 & Hk1).
  destruct Hr2 as (_ & Hb2 & Hh2 & Hm2 & Hp2 & Hq2 & Hu2 & Hs2 & Hk2).
  rewrite Hresw in Hq2.
  assert (Huw : upcoming (write_slot b s1) = upcoming s1).
  { unfold upcoming. rewrite Hresw, Hcw, Hnw. reflexivity. }
  rewrite Huw in Hu2.
  assert (Hsw : settled (write_slot b s1) <-> settled s1).
  { unfold settled. rewrite Hresw, Hnw. reflexivity. }
  assert (Hpw : producer_pace (write_slot b s1) = producer_pace s1).
  { unfold producer_pace. rewrite Hcw, Hnw. reflexivity. }
  split; [apply wf_advance_head; exact Hwf2|].
  split; [simpl; congruence|].
  split; [etrans; eassumption|].
  split; [rewrite Hres, app_assoc, Hq2, Hq1, <- app_assoc; reflexivity|].
  split.
  { intros Hmk. simpl. destruct Hk1 as [Hc1 Hn1]; [lia|].
    destruct Hk2 as [Hc2 Hn2]; [lia|]. split; congruence. }
  split.
  { intros Hs0 Hb. destruct (Hs1 Hs0) as [Hst1 Hpp1].
    destruct Hs2 as [Hst2 Hpp2]; [apply Hsw; exact Hst1|].
    unfold settled, producer_pace, upcoming in *. simpl current_pace. simpl next_pace.
    rewrite Hres, markers_app, markers_cons, Hb.
    rewrite expect_snoc_step by assumption.
    change (markers []) with 0%nat.
    split; [lia|]. split; [congruence|].
    rewrite app_assoc, Hu2, Hu1, <- app_assoc. do 3 f_equal. congruence. }
  split.
  { intros H0 Hb.
    assert (markers (resident s1) = 0%nat) by lia.
    assert (markers (resident s2) = 0%nat) by lia.
    destruct Hk1 as [Hc1 Hn1]; [lia|]. destruct Hk2 as [Hc2 Hn2]; [lia|].
    unfold upcoming in *. simpl current_pace. simpl next_pace.
    rewrite Hres, markers_app, markers_cons, Hb.
    rewrite expect_snoc_marker by assumption.
    change (markers []) with 0%nat.
    split; [lia|]. split; [congruence|]. split; [congruence|].
    rewrite Hu2, Hu1. reflexivity. }
  intros Hfull0.
  rewrite is_full_length in Hfull0, Hnf1 by assumption. lia.
Qed.

End Push.

Section StepCall.

Context (cfg : config).

Lemma advances_evolves m m' : evolves m m' -> advances m m' [].
Proof.
  intros [(Hwf & _ & _ & Hm & Hp & Hq & _ & _ & Hk) _].
  unfold advances, stream. rewrite app_nil_r.
  split; [exact Hwf|]. split; [exact Hm|]. split; [exact Hp|]. split; [exact Hq|].
  intros H. apply Hk. exact H.
Qed.

Lemma advances_trans m0 m1 m2 e1 e2 :
  advances m0 m1 e1 -> advances m1 m2 e2 -> advances m0 m2 (e1 ++ e2).
Proof.
  intros (_ & Hm1 & Hp1 & Hq1 & Hk1) (Hwf2 & Hm2 & Hp2 & Hq2 & Hk2).
  unfold advances. split; [exact Hwf2|]. split; [congruence|].
  split; [etrans; eassumption|]. split; [rewrite Hq2, Hq1, app_assoc; reflexivity|].
  intros H. pose proof (markers_prefix _ _ Hp1). pose proof (markers_prefix _ _ Hp2).
  rewrite Hk2 by lia. apply Hk1. lia.
Qed.

Lemma backlog_evolves m m' : evolves m m' -> backlog m' = backlog m.
Proof. intros [Hr _]. unfold backlog. apply Hr. Qed.

Lemma st_buffer_step_spec b m :
  wf (mem m) -> running cfg (mem m) ->
  issued (final (st_buffer_step cfg b m)) = issued m /\
  advances m (final (st_buffer_step cfg b m))
    (if returned (st_buffer_step cfg b m) then [b] else []) /\
  (returned (st_buffer_step cfg b m) = false ->
     is_full (mem (final (st_buffer_step cfg b m))) /\
     step_buffer (mem (final (st_buffer_step cfg b m))) = step_buffer (mem m) /\
     step_buffer_head (mem (final (st_buffer_step cfg b m))) = step_buffer_head (mem m)) /\
  (is_full (mem m) -> returned (st_buffer_step cfg b m) = true ->
     (length (executed m) < length (executed (final (st_buffer_step cfg b m))))%nat) /\
  (settled (mem m) -> is_marker b = false ->
     settled (mem (final (st_buffer_step cfg b m))) /\
     producer_pace (mem (final (st_buffer_step cfg b m))) = producer_pace (mem m) /\
     backlog (final (st_buffer_step cfg b m))
     = backlog m ++ (if returned (st_buffer_step cfg b m)
                     then [(b, producer_pace (mem m))] else [])) /\
  (markers (resident (mem m)) = 0%nat -> is_marker b = true ->
     next_pace (mem (final (st_buffer_step cfg b m))) = next_pace (mem m) /\
     current_pace (mem (final (st_buffer_step cfg b m))) = current_pace (mem m) /\
     markers (resident (mem (final (st_buffer_step cfg b m))))
     = (if returned (st_buffer_step cfg b m) then 1 else 0)%nat /\
     backlog (final (st_buffer_step cfg b m)) = backlog m).
Proof.
  intros Hwf Hrun. pose proof (st_buffer_step_running cfg b m Hwf Hrun) as Hcourse.
  destruct (st_buffer_step cfg b m) as [[] m'|m']; simpl final; simpl returned.
  - destruct Hcourse as (m1 & m2 & [Hr1 Hi1] & Hnf & [Hr2 Hi2] & ->).
    simpl in Hr2, Hi2.
    destruct (push_summary _ _ _ _ _ _ b Hwf Hr1 Hnf Hr2)
      as (Hwf' & Hm' & Hp' & Hq' & Hk' & Hs' & Hq0' & Hfull').
    split; [simpl; congruence|].
    split.
    { unfold advances, stream. simpl. rewrite <- app_assoc.
      split; [exact Hwf'|]. split; [exact Hm'|]. split; [exact Hp'|].
      split; [exact Hq'|]. intros H. apply Hk'. exact H. }
    split; [discriminate|]. split; [intros Hf _; apply Hfull'; exact Hf|].
    split.
    { intros Hs Hb. destruct (Hs' Hs Hb) as (Hst & Hpp & Hu).
      split; [exact Hst|]. split; [exact Hpp|].
      unfold backlog. simpl. rewrite Hu, app_assoc. reflexivity. }
    intros H0 Hb. destruct (Hq0' H0 Hb) as (Hmk & Hn & Hc & Hu).
    split; [exact Hn|]. split; [exact Hc|]. split; [exact Hmk|].
    unfold backlog. simpl. exact Hu.
  - destruct Hcourse as [Hev Hfull].
    split; [apply Hev|]. split; [apply advances_evolves; exact Hev|].
    split.
    { intros _. split; [exact Hfull|]. destruct Hev as [Hr _]. split; apply Hr. }
    split; [discriminate|].
    split.
    { intros Hs Hb. destruct Hev as [Hr Hi].
      destruct Hr as (_ & _ & _ & _ & _ & _ & Hu & Hst & _).
      destruct (Hst Hs) as [Hs' Hpp]. split; [exact Hs'|]. split; [exact Hpp|].
      unfold backlog. rewrite app_nil_r. exact Hu. }
    intros H0 Hb. destruct Hev as [Hr Hi].
    destruct (rely_no_marker _ _ _ _ Hr H0) as (Hmk & Hc & Hn).
    split; [exact Hn|]. split; [exact Hc|]. split; [exact Hmk|].
    unfold backlog. apply Hr.
Qed.

End StepCall.

Section PaceCall.

Context (cfg : config).

Lemma expect_quiet pace n n' q :
  markers q = 0%nat -> expect pace n q = expect pace n' q.
Proof.
  revert pace. induction q as [|x q IH]; intros pace Hq; [reflexivity|].
  rewrite markers_cons in Hq. simpl. destruct (is_marker x); [lia|].
  rewrite (IH pace) by lia. reflexivity.
Qed.

Lemma settled_single_request s : settled s -> single_request s.
Proof. unfold settled, single_request. intros ->. lia. Qed.

Lemma evolves_settled m m' :
  evolves m m' -> settled (mem m) ->
  settled (mem m') /\ producer_pace (mem m') = producer_pace (mem m).
Proof. intros [Hr _] Hs. destruct Hr as (_ & _ & _ & _ & _ & _ & _ & Hst & _). auto. Qed.

Lemma evolves_quiet m m' :
  evolves m m' -> markers (resident (mem m)) = 0%nat ->
  markers (resident (mem m')) = 0%nat /\
  current_pace (mem m') = current_pace (mem m) /\
  next_pace (mem m') = next_pace (mem m).
Proof. intros [Hr _]. exact (rely_no_marker _ _ _ _ Hr). Qed.

Lemma evolves_running m m' : evolves m m' -> running cfg (mem m) -> running cfg (mem m').
Proof. intros [Hr _]. unfold running. destruct Hr as (_ & _ & _ & Hm & _). congruence. Qed.

(** Storing the pending pace while no marker is resident. *)
Lemma set_next_pace_quiet p m :
  wf (mem m) -> markers (resident (mem m)) = 0%nat ->
  advances m (with_mem (set_next_pace p (mem m)) m) [] /\
  backlog (with_mem (set_next_pace p (mem m)) m) = backlog m.
Proof.
  intros Hwf H0. unfold advances, backlog, stream, upcoming. simpl.
  change (resident (set_next_pace p (mem m))) with (resident (mem m)).
  rewrite app_nil_r. split.
  - split; [exact Hwf|]. split; [reflexivity|]. split; [reflexivity|].
    split; reflexivity.
  - f_equal. apply expect_quiet. exact H0.
Qed.

Lemma st_buffer_pace_unchanged p m :
  current_pace (mem m) = p \/ ~ running cfg (mem m) ->
  st_buffer_pace cfg p m = Returned tt m.
Proof.
  intros H. unfold st_buffer_pace, mbind, M_bind, load, mret, M_ret, running in *.
  destruct H as [->|H].
  - rewrite Z.eqb_refl. reflexivity.
  - destruct (Z.eqb_spec (stepper_mode (mem m)) (STEPPER_MODE_RUNNING cfg)); [tauto|].
    rewrite orb_true_r. reflexivity.
Qed.

(** The course of [st_buffer_pace] once it has decided to act: it sleeps
    while a pace is pending, or it stores the new pace and goes on to enqueue
    the marker. *)
Lemma st_buffer_pace_running p m :
  wf (mem m) -> running cfg (mem m) -> current_pace (mem m) <> p ->
  (exists mb,
     st_buffer_pace cfg p m = Asleep mb /\ evolves m mb /\ next_pace (mem mb) <> 0) \/
  (exists mb mc me,
     evolves m mb /\ next_pace (mem mb) = 0 /\ evolves mb mc /\
     evolves (with_mem (set_next_pace p (mem mc)) mc) me /\
     st_buffer_pace cfg p m = st_buffer_step cfg PACE_CHANGE_MARKER me).
Proof.
  intros Hwf Hrun Hcur.
  destruct (preempt_spec cfg m Hwf) as (ma & Hpa & Hea).
  pose proof (evolves_wf _ _ Hea) as Hwfa.
  pose proof (sleep_while_spec cfg (fun s => negb (next_pace s =? 0)) (pending ma) ma Hwfa)
    as Hloop.
  assert (Hunfold : st_buffer_pace cfg p m =
    match sleep_while cfg (fun s => negb (next_pace s =? 0)) (pending ma) ma with
    | Returned _ mb =>
        match preempt cfg mb with
        | Returned _ mc =>
            match preempt cfg (with_mem (set_next_pace p (mem mc)) mc) with
            | Returned _ me => st_buffer_step cfg PACE_CHANGE_MARKER me
            | Asleep me => Asleep me
            end
        | Asleep mc => Asleep mc
        end
    | Asleep mb => Asleep mb
    end).
  { unfold st_buffer_pace, mbind, M_bind, load, mret, M_ret.
    unfold running in Hrun. rewrite Hrun, Z.eqb_refl.
    destruct (Z.eqb_spec (current_pace (mem m)) p) as [|_]; [contradiction|].
    change (false || negb true) with false. cbv beta iota.
    rewrite Hpa. reflexivity. }
  rewrite Hunfold. clear Hunfold.
  destruct (sleep_while cfg _ (pending ma) ma) as [[] mb|mb]; destruct Hloop as [Heb Hc];
    pose proof (evolves_trans _ _ _ Hea Heb) as Hemb.
  - apply negb_false_iff, Z.eqb_eq in Hc.
    pose proof (evolves_wf _ _ Hemb) as Hwfb.
    destruct (preempt_spec cfg mb Hwfb) as (mc & -> & Hec).
    assert (Hwfd : wf (mem (with_mem (set_next_pace p (mem mc)) mc))).
    { exact (evolves_wf _ _ Hec). }
    destruct (preempt_spec cfg _ Hwfd) as (me & -> & Hee).
    right. exists mb, mc, me. tauto.
  - apply negb_true_iff, Z.eqb_neq in Hc.
    left. exists mb. tauto.
Qed.

Lemma st_buffer_pace_spec p m :
  wf (mem m) -> running cfg (mem m) -> settled (mem m) -> p <> 0 ->
  current_pace (mem m) <> p ->
  issued (final (st_buffer_pace cfg p m)) = issued m /\
  advances m (final (st_buffer_pace cfg p m))
    (if returned (st_buffer_pace cfg p m) then [PACE_CHANGE_MARKER] else []) /\
  backlog (final (st_buffer_pace cfg p m)) = backlog m /\
  single_request (mem (final (st_buffer_pace cfg p m))) /\
  (returned (st_buffer_pace cfg p m) = true ->
     settled (mem (final (st_buffer_pace cfg p m))) /\
     next_pace (mem (final (st_buffer_pace cfg p m))) = p /\
     (next_pace (mem m) <> 0 ->
        (markers (map fst (executed m))
         < markers (map fst (executed (final (st_buffer_pace cfg p m)))))%nat)) /\
  (returned (st_buffer_pace cfg p m) = false ->
     step_buffer (mem (final (st_buffer_pace cfg p m))) = step_buffer (mem m) /\
     step_buffer_head (mem (final (st_buffer_pace cfg p m))) = step_buffer_head (mem m)).
Proof.
  intros Hwf Hrun Hs Hp Hcur.
  destruct (st_buffer_pace_running p m Hwf Hrun Hcur)
    as [(mb & -> & Hemb & Hnb)|(mb & mc & me & Hemb & Hc & Hec & Hee & ->)].
  { destruct (evolves_settled _ _ Hemb Hs) as [Hsb Hppb].
    simpl final; simpl returned.
    split; [apply Hemb|]. split; [apply advances_evolves; exact Hemb|].
    split; [apply backlog_evolves; exact Hemb|].
    split; [apply settled_single_request; exact Hsb|].
    split; [discriminate|]. intros _. destruct Hemb as [Hr _]. split; apply Hr. }
  destruct (evolves_settled _ _ Hemb Hs) as [Hsb Hppb].
  assert (Hqb : markers (resident (mem mb)) = 0%nat).
  { unfold settled in Hsb. rewrite Hc in Hsb. exact Hsb. }
  pose proof (evolves_trans _ _ _ Hemb Hec) as Hemc.
  pose proof (evolves_wf _ _ Hemc) as Hwfc.
  destruct (evolves_quiet _ _ Hec Hqb) as (Hqc & Hcc & Hnc).
  set (md := with_mem (set_next_pace p (mem mc)) mc) in *.
  destruct (set_next_pace_quiet p mc Hwfc Hqc) as [Hadv_d Hback_d]. fold md in Hadv_d, Hback_d.
  assert (Hqd : markers (resident (mem md)) = 0%nat) by exact Hqc.
  pose proof (evolves_wf _ _ Hee) as Hwfe.
  destruct (evolves_quiet _ _ Hee Hqd) as (Hqe & Hce & Hne).
  assert (Hrune : running cfg (mem me)).
  { apply (evolves_running md); [exact Hee|]. exact (evolves_running m mc Hemc Hrun). }
  destruct (st_buffer_step_spec cfg PACE_CHANGE_MARKER me Hwfe Hrune)
    as (Hiss & Hadv & Hblocked & _ & _ & Hmark).
  destruct (Hmark Hqe eq_refl) as (Hnf & Hcf & Hmf & Hbf).
  set (o := st_buffer_step cfg PACE_CHANGE_MARKER me) in *.
  assert (Hnp : next_pace (mem (final o)) = p).
  { rewrite Hnf, Hne. reflexivity. }
  assert (Hchain : advances m (final o) (([] ++ [] ++ []) ++
                     (if returned o then [PACE_CHANGE_MARKER] else []))).
  { eapply advances_trans; [|exact Hadv].
    eapply advances_trans; [apply advances_evolves; exact Hemc|].
    eapply advances_trans; [exact Hadv_d|]. apply advances_evolves. exact Hee. }
  simpl app in Hchain.
  split.
  { rewrite Hiss. destruct Hee as [_ ->]. simpl. apply Hemc. }
  split; [exact Hchain|].
  split.
  { rewrite Hbf, (backlog_evolves _ _ Hee), Hback_d. apply backlog_evolves. exact Hemc. }
  split.
  { unfold single_request. rewrite Hmf, Hnp.
    destruct (Z.eqb_spec p 0); [contradiction|]. destruct (returned o); lia. }
  split.
  { intros Hret. rewrite Hret in Hmf. split.
    - unfold settled. rewrite Hmf, Hnp. destruct (Z.eqb_spec p 0); [contradiction|reflexivity].
    - split; [exact Hnp|]. intros Hpending.
      assert (Hq0 : markers (resident (mem m)) = 1%nat).
      { unfold settled in Hs. destruct (Z.eqb_spec (next_pace (mem m)) 0); [contradiction|].
        exact Hs. }
      destruct Hemb as [Hrb _]. pose proof (rely_markers _ _ _ _ Hrb) as [Hsum _].
      assert (Hpre : executed mb `prefix_of` executed (final o)).
      { destruct Hadv as (_ & _ & Hpe & _). destruct Hee as [Hre _].
        destruct Hec as [Hrc _].
        etrans; [apply Hrc|]. etrans; [|exact Hpe]. apply Hre. }
      pose proof (markers_prefix _ _ Hpre). lia. }
  intros Hret. destruct (Hblocked Hret) as (_ & Hbuf & Hhead).
  destruct Hee as [Hre _]. destruct Hemc as [Hrc _].
  destruct Hre as (_ & Hb1 & Hh1 & _). destruct Hrc as (_ & Hb2 & Hh2 & _).
  simpl in Hb1, Hh1. split; congruence.
Qed.

End PaceCall.

Section Runs.

Context (cfg : config).

Lemma advances_running m m' enq :
  advances m m' enq -> running cfg (mem m) -> running cfg (mem m').
Proof. intros (_ & Hm & _) Hrun. unfold running in *. congruence. Qed.

Lemma legal_step_not_marker b : 0 <= b < PACE_CHANGE_MARKER -> is_marker b = false.
Proof. intros Hb. unfold is_marker. apply Z.eqb_neq. lia. Qed.

Lemma recorded_same m m' : issued m' = issued m -> backlog m' = backlog m -> recorded m m'.
Proof. intros Hi Hb. exists []. rewrite !app_nil_r. tauto. Qed.

Lemma recorded_trans m0 m1 m2 : recorded m0 m1 -> recorded m1 m2 -> recorded m0 m2.
Proof.
  intros (n1 & Hi1 & Hb1) (n2 & Hi2 & Hb2). exists (n1 ++ n2).
  rewrite Hi2, Hi1, Hb2, Hb1, !app_assoc. tauto.
Qed.

Lemma st_buffer_step_unchanged b m :
  ~ running cfg (mem m) -> st_buffer_step cfg b m = Returned tt m.
Proof.
  intros H. unfold st_buffer_step, mbind, M_bind, load, mret, M_ret, running in *.
  destruct (Z.eqb_spec (stepper_mode (mem m)) (STEPPER_MODE_RUNNING cfg)); [tauto|].
  reflexivity.
Qed.


Lemma issue_legal c m :
  at_rest cfg m -> legal_call c ->
  (exists enq, advances m (final (issue cfg c m)) enq) /\
  recorded m (final (issue cfg c m)) /\
  orderly cfg (final (issue cfg c m)) /\
  (returned (issue cfg c m) = true -> at_rest cfg (final (issue cfg c m))).
Proof.
  intros (Hwf & Hrun & Hs) Hlegal.
  unfold issue, mbind, M_bind. destruct c as [b|p]; simpl do_call.
  - simpl in Hlegal. pose proof (legal_step_not_marker b Hlegal) as Hb.
    destruct (st_buffer_step_spec cfg b m Hwf Hrun) as (Hiss & Hadv & _ & _ & Hstep & _).
    destruct (Hstep Hs Hb) as (Hs' & Hpp & Hbl).
    pose proof (advances_running _ _ _ Hadv Hrun) as Hrun'.
    destruct (st_buffer_step cfg b m) as [[] m'|m']; simpl final in *; simpl returned in *.
    + unfold note. unfold running in Hrun'. rewrite Hrun', Z.eqb_refl. simpl.
      split; [eexists; exact Hadv|].
      split.
      { exists [(b, producer_pace (mem m))]. simpl. rewrite Hiss, Hpp.
        split; [reflexivity|exact Hbl]. }
      assert (Hwf' : wf (mem m')) by apply Hadv.
      split.
      { unfold orderly. simpl. split; [exact Hwf'|]. split; [exact Hrun'|].
        apply settled_single_request. exact Hs'. }
      intros _. unfold at_rest. simpl. tauto.
    + split; [eexists; exact Hadv|].
      split; [apply recorded_same; [exact Hiss|rewrite Hbl, app_nil_r; reflexivity]|].
      split; [|discriminate].
      unfold orderly. split; [apply Hadv|]. split; [exact Hrun'|].
      apply settled_single_request. exact Hs'.
  - simpl in Hlegal.
    destruct (Z.eq_dec (current_pace (mem m)) p) as [Heq|Hne].
    + rewrite (st_buffer_pace_unchanged cfg p m (or_introl Heq)). simpl.
      split; [exists []; apply advances_evolves, evolves_refl; exact Hwf|].
      split; [apply recorded_same; reflexivity|].
      split; [|intros _; unfold at_rest; tauto].
      unfold orderly. split; [exact Hwf|]. split; [exact Hrun|].
      apply settled_single_request. exact Hs.
    + destruct (st_buffer_pace_spec cfg p m Hwf Hrun Hs ltac:(lia) Hne)
        as (Hiss & Hadv & Hbl & Hsingle' & Hret & _).
      pose proof (advances_running _ _ _ Hadv Hrun) as Hrun'.
      assert (Hwf' : wf (mem (final (st_buffer_pace cfg p m)))) by apply Hadv.
      destruct (st_buffer_pace cfg p m) as [[] m'|m']; simpl final in *; simpl returned in *.
      * simpl. split; [eexists; exact Hadv|].
        split; [apply recorded_same; assumption|].
        split; [unfold orderly; tauto|].
        intros _. unfold at_rest. split; [exact Hwf'|]. split; [exact Hrun'|].
        apply Hret. reflexivity.
      * split; [eexists; exact Hadv|].
        split; [apply recorded_same; assumption|].
        split; [unfold orderly; tauto|discriminate].
Qed.

Lemma preempt_at_rest m :
  at_rest cfg m ->
  exists m', preempt cfg m = Returned tt m' /\ advances m m' [] /\
             recorded m m' /\ at_rest cfg m'.
Proof.
  intros (Hwf & Hrun & Hs).
  destruct (preempt_spec cfg m Hwf) as (m' & Hp & Hev).
  exists m'. split; [exact Hp|]. split; [apply advances_evolves; exact Hev|].
  destruct (evolves_settled _ _ Hev Hs) as [Hs' _].
  split; [apply recorded_same; [apply Hev|apply backlog_evolves; exact Hev]|].
  unfold at_rest.
  split; [exact (evolves_wf _ _ Hev)|]. split; [exact (evolves_running cfg _ _ Hev Hrun)|].
  exact Hs'.
Qed.

Lemma at_rest_orderly m : at_rest cfg m -> orderly cfg m.
Proof.
  intros (Hwf & Hrun & Hs). unfold orderly. split; [exact Hwf|]. split; [exact Hrun|].
  apply settled_single_request. exact Hs.
Qed.

Lemma run_legal prog m :
  at_rest cfg m -> Forall legal_call prog ->
  (exists enq, advances m (final (run cfg prog m)) enq) /\
  recorded m (final (run cfg prog m)) /\
  orderly cfg (final (run cfg prog m)) /\
  (returned (run cfg prog m) = true -> at_rest cfg (final (run cfg prog m))).
Proof.
  revert m. induction prog as [|c rest IH]; intros m Hrest Hlegal.
  - simpl run. destruct (preempt_at_rest m Hrest) as (m' & -> & Hadv & Hrec & Hrest').
    simpl. split; [eexists; exact Hadv|]. split; [exact Hrec|].
    split; [apply at_rest_orderly; exact Hrest'|]. intros _. exact Hrest'.
  - simpl run. unfold mbind, M_bind.
    destruct (preempt_at_rest m Hrest) as (ma & -> & Hadva & Hreca & Hresta).
    inversion Hlegal as [|? ? Hc Hrestlegal]; subst.
    destruct (issue_legal c ma Hresta Hc) as ([enq Hadv] & Hrec & Ho & Hret).
    destruct (issue cfg c ma) as [[] m1|m1]; simpl final in *; simpl returned in *.
    + destruct (IH m1 (Hret eq_refl) Hrestlegal) as ([enq' Hadv'] & Hrec' & Ho' & Hret').
      split.
      { eexists. eapply advances_trans; [exact Hadva|].
        eapply advances_trans; [exact Hadv|exact Hadv']. }
      split; [|split; assumption].
      eapply recorded_trans; [exact Hreca|]. eapply recorded_trans; eassumption.
    + split; [eexists; eapply advances_trans; [exact Hadva|exact Hadv]|].
      split; [eapply recorded_trans; eassumption|].
      split; [exact Ho|discriminate].
Qed.


End Runs.

(** * The claims of the specification *)

(** ** The pace timer *)

(** C2.  For every interval whose tick count
    [microseconds * TICKS_PER_MICROSECOND] is at most [65535 * 1024],
    [config_pace_timer] selects the smallest prescaler of 1, 8, 64, 256, 1024
    for which the tick count divided by the prescaler is at most 65535, and
    sets a ceiling that fits in 16 bits, with prescaler times ceiling within
    one prescaled tick of the tick count.  The ceiling goes to OCR1A and the
    prescaler's index plus one to the clock-select bits of TCCR1B. *)
Theorem config_pace_timer_smallest_prescaler cfg microseconds s :
  0 <= microseconds * TICKS_PER_MICROSECOND cfg <= 65535 * 1024 ->
  exists ceiling prescaler,
    pace_ceiling_prescaler cfg microseconds = (ceiling, prescaler) /\
    rd OCR1A (config_pace_timer cfg microseconds s) = ceiling /\
    Z.land (rd TCCR1B (config_pace_timer cfg microseconds s)) 7 = prescaler + 1 /\
    0 <= ceiling <= 65535 /\
    In (prescaler_divisor prescaler) prescalers /\
    microseconds * TICKS_PER_MICROSECOND cfg / prescaler_divisor prescaler <= 65535 /\
    (forall p, In p prescalers ->
       microseconds * TICKS_PER_MICROSECOND cfg / p <= 65535 ->
       prescaler_divisor prescaler <= p) /\
    prescaler_divisor prescaler * ceiling <= microseconds * TICKS_PER_MICROSECOND cfg
      < prescaler_divisor prescaler * ceiling + prescaler_divisor prescaler.
Proof.
  intros Hticks.
  destruct (config_pace_timer_regs cfg microseconds s) as (Hocr & Htccr & _).
  pose proof (pace_ceiling_prescaler_cases cfg microseconds) as Hcases. cbv zeta in Hcases.
  rewrite pace_ticks_small in Hcases by lia.
  set (ticks := microseconds * TICKS_PER_MICROSECOND cfg) in *.
  assert (Hin : forall q, In q prescalers -> q = 1 \/ q = 8 \/ q = 64 \/ q = 256 \/ q = 1024).
  { unfold prescalers. simpl. intros q Hq. intuition lia. }
  destruct Hcases as [[Hr E]|[[Hr E]|[[Hr E]|[[Hr E]|[[Hr E]|[Hr E]]]]]];
    rewrite E in *; simpl fst in *; simpl snd in *;
    eexists _, _; (split; [reflexivity|]); (split; [exact Hocr|]);
    (split; [rewrite Htccr; apply clock_select_field; lia|]);
    unfold wrap16; rewrite ?Z.shiftr_div_pow2 by lia;
    change (prescaler_divisor 0) with 1; change (prescaler_divisor 1) with 8;
    change (prescaler_divisor 2) with 64; change (prescaler_divisor 3) with 256;
    change (prescaler_divisor 4) with 1024;
    try lia;
    (split; [zmod|]); (split; [unfold prescalers; simpl; tauto|]); (split; [zmod|]);
    (split; [intros q Hq Hle; destruct (Hin q Hq) as [?|[?|[?|[?|?]]]]; subst q; zmod | zmod]).
Qed.

(** The hypothesis of C2 at the 20000 microseconds of [st_init] with a
    16 MHz clock: 320000 ticks, prescaler 8, ceiling 40000. *)
Lemma config_pace_timer_smallest_prescaler_witness :
  0 <= 20000 * TICKS_PER_MICROSECOND sample_config <= 65535 * 1024 /\
  exists ceiling prescaler,
    pace_ceiling_prescaler sample_config 20000 = (ceiling, prescaler) /\
    rd OCR1A (config_pace_timer sample_config 20000 sample_state) = ceiling /\
    Z.land (rd TCCR1B (config_pace_timer sample_config 20000 sample_state)) 7
      = prescaler + 1 /\
    0 <= ceiling <= 65535 /\
    In (prescaler_divisor prescaler) prescalers /\
    20000 * TICKS_PER_MICROSECOND sample_config / prescaler_divisor prescaler <= 65535 /\
    (forall p, In p prescalers ->
       20000 * TICKS_PER_MICROSECOND sample_config / p <= 65535 ->
       prescaler_divisor prescaler <= p) /\
    prescaler_divisor prescaler * ceiling <= 20000 * TICKS_PER_MICROSECOND sample_config
      < prescaler_divisor prescaler * ceiling + prescaler_divisor prescaler.
Proof.
  split.
  - vm_compute. split; discriminate.
  - apply (config_pace_timer_smallest_prescaler sample_config 20000 sample_state).
    vm_compute. split; discriminate.
Defined.

Lemma configured_ticks_bound cfg us : configured_ticks cfg us <= 1024 * 65535.
Proof.
  unfold configured_ticks.
  pose proof (pace_ceiling_prescaler_cases cfg us) as Hcases. cbv zeta in Hcases.
  destruct Hcases as [[_ E]|[[_ E]|[[_ E]|[[_ E]|[[_ E]|[_ E]]]]]]; rewrite E;
    unfold wrap16;
    change (prescaler_divisor 0) with 1; change (prescaler_divisor 1) with 8;
    change (prescaler_divisor 2) with 64; change (prescaler_divisor 3) with 256;
    change (prescaler_divisor 4) with 1024; zmod.
Qed.

(** C3, as amended.  For every requested interval whose tick count,
    [microseconds * TICKS_PER_MICROSECOND] computed in unsigned 32-bit
    arithmetic, is beyond the reach of the largest prescaler (above
    0x3ffffff), [config_pace_timer] clamps to the ceiling 65535 at the
    prescaler 1024: the slowest setting it ever makes.  It reports no error
    (it is a total function of its argument).  The period it configures is
    then shorter than the tick count asked for: the cadence is the slowest
    there is, and faster than the one requested. *)
Theorem config_pace_timer_clamps_to_slowest cfg microseconds s :
  0 <= microseconds -> 0 <= TICKS_PER_MICROSECOND cfg ->
  0x3ffffff < pace_ticks cfg microseconds ->
  pace_ticks cfg microseconds = (microseconds * TICKS_PER_MICROSECOND cfg) mod 2 ^ 32 /\
  pace_ceiling_prescaler cfg microseconds = (65535, 4) /\
  prescaler_divisor 4 = 1024 /\
  rd OCR1A (config_pace_timer cfg microseconds s) = 65535 /\
  Z.land (rd TCCR1B (config_pace_timer cfg microseconds s)) 7 = 5 /\
  configured_ticks cfg microseconds = 1024 * 65535 /\
  (forall other, configured_ticks cfg other <= configured_ticks cfg microseconds) /\
  configured_ticks cfg microseconds < pace_ticks cfg microseconds
    <= microseconds * TICKS_PER_MICROSECOND cfg.
Proof.
  intros Hus Htpm Hticks.
  destruct (config_pace_timer_regs cfg microseconds s) as (Hocr & Htccr & _).
  pose proof (pace_ceiling_prescaler_cases cfg microseconds) as Hcases. cbv zeta in Hcases.
  assert (E : pace_ceiling_prescaler cfg microseconds = (65535, 4)).
  { destruct Hcases as [[Hr E]|[[Hr E]|[[Hr E]|[[Hr E]|[[Hr E]|[Hr E]]]]]];
      try lia; exact E. }
  assert (Hconf : configured_ticks cfg microseconds = 1024 * 65535).
  { unfold configured_ticks. rewrite E. reflexivity. }
  rewrite E in Hocr, Htccr. simpl fst in Hocr. simpl snd in Htccr.
  split; [reflexivity|]. split; [exact E|]. split; [reflexivity|].
  split; [exact Hocr|].
  split; [rewrite Htccr; apply clock_select_field; lia|].
  split; [exact Hconf|].
  split; [intros other; rewrite Hconf; apply configured_ticks_bound|].
  rewrite Hconf. split; [lia|].
  unfold pace_ticks, wrap32. apply Z.mod_le; [nia|lia].
Qed.

(** The hypotheses of C3 at five seconds with a 16 MHz clock. *)
Lemma config_pace_timer_clamps_to_slowest_witness :
  0 <= 5000000 /\ 0 <= TICKS_PER_MICROSECOND sample_config /\
  0x3ffffff < pace_ticks sample_config 5000000 /\
  rd OCR1A (config_pace_timer sample_config 5000000 sample_state) = 65535.
Proof.
  assert (H1 : 0 <= 5000000) by lia.
  assert (H2 : 0 <= TICKS_PER_MICROSECOND sample_config) by (vm_compute; discriminate).
  assert (H3 : 0x3ffffff < pace_ticks sample_config 5000000) by reflexivity.
  split; [exact H1|]. split; [exact H2|]. split; [exact H3|].
  apply (config_pace_timer_clamps_to_slowest sample_config 5000000 sample_state H1 H2 H3).
Defined.

(** C3 as the specification states it fails: five seconds at 16 MHz are
    80000000 ticks, beyond the reach of the prescaler 1024; the clamped
    setting has a period of 1024 * 65535 = 67107840 ticks, about 4.19
    seconds: a faster cadence than the one requested, and so even when one
    more prescaled tick is granted to it. *)
Lemma clamped_pace_is_faster_than_requested :
  0x3ffffff < pace_ticks sample_config 5000000 /\
  pace_ceiling_prescaler sample_config 5000000 = (65535, 4) /\
  ~ not_faster_than_requested sample_config 5000000 /\
  configured_ticks sample_config 5000000 + 1024
    < 5000000 * TICKS_PER_MICROSECOND sample_config.
Proof.
  split; [reflexivity|]. split; [reflexivity|]. split; [|reflexivity].
  unfold not_faster_than_requested. vm_compute. intros H. apply H. reflexivity.
Qed.


(** ** The marker and the port *)

(** C6.  The marker 0xff is no legal step instruction: a byte whose set bits
    lie within the step and direction bits differs from
    [PACE_CHANGE_MARKER], and the marker test of the cadence handler is
    false for it. *)
Theorem marker_is_no_step_instruction cfg b :
  Z.land b (STEPPING_MASK cfg) = b ->
  b <> PACE_CHANGE_MARKER /\ is_marker b = false.
Proof.
  intros Hb.
  assert (Hne : b <> PACE_CHANGE_MARKER).
  { intros ->. pose proof (bit_count_stepping_mask cfg) as Hcount.
    assert (Hbits : forall i, 0 <= i < 8 -> Z.testbit (STEPPING_MASK cfg) i = true).
    { intros i Hi. assert (Ht : Z.testbit PACE_CHANGE_MARKER i = true).
      { unfold PACE_CHANGE_MARKER. change 255 with (Z.ones 8). apply Z.ones_spec_low. lia. }
      rewrite <- Hb, Z.land_spec in Ht. apply andb_prop in Ht. tauto. }
    unfold bit_count in Hcount. rewrite !Hbits in Hcount by lia. simpl in Hcount. lia. }
  split; [exact Hne|]. unfold is_marker. apply Z.eqb_neq. exact Hne.
Qed.

(** The hypothesis of C6 at the instruction that steps X and Y with the
    direction bit of Z set. *)
Lemma marker_is_no_step_instruction_witness :
  Z.land 35 (STEPPING_MASK sample_config) = 35 /\
  35 <> PACE_CHANGE_MARKER /\ is_marker 35 = false.
Proof.
  split; [reflexivity|].
  apply (marker_is_no_step_instruction sample_config 35). reflexivity.
Defined.

(** C7.  The pulse-reset handler returns each step bit of the stepping port
    to the level the invert mask gives it, and leaves every bit of the port
    outside [STEP_MASK] (the direction bits, none of which is a step bit in
    a sound configuration), every other register and every variable as it
    was. *)
Theorem SIG_OVERFLOW2_resets_step_bits_only cfg s i :
  0 <= i < 8 ->
  (Z.testbit (STEP_MASK cfg) i = true ->
     Z.testbit (rd (STEPPING_PORT cfg) (SIG_OVERFLOW2 cfg s)) i
     = Z.testbit (STEPPING_INVERT_MASK cfg) i) /\
  (Z.testbit (STEP_MASK cfg) i = false ->
     Z.testbit (rd (STEPPING_PORT cfg) (SIG_OVERFLOW2 cfg s)) i
     = Z.testbit (rd (STEPPING_PORT cfg) s) i) /\
  (forall r, r <> STEPPING_PORT cfg -> rd r (SIG_OVERFLOW2 cfg s) = rd r s) /\
  step_buffer (SIG_OVERFLOW2 cfg s) = step_buffer s /\
  step_buffer_head (SIG_OVERFLOW2 cfg s) = step_buffer_head s /\
  step_buffer_tail (SIG_OVERFLOW2 cfg s) = step_buffer_tail s /\
  current_pace (SIG_OVERFLOW2 cfg s) = current_pace s /\
  next_pace (SIG_OVERFLOW2 cfg s) = next_pace s /\
  stepper_mode (SIG_OVERFLOW2 cfg s) = stepper_mode s.
Proof.
  intros Hi. unfold SIG_OVERFLOW2.
  repeat split; try reflexivity.
  - intros Hbit. rewrite rd_wr_same, wrap8_testbit by lia.
    rewrite Z.lor_spec, !Z.land_spec, Z.lnot_spec, Hbit by lia.
    simpl. rewrite andb_false_r, andb_true_r. reflexivity.
  - intros Hbit. rewrite rd_wr_same, wrap8_testbit by lia.
    rewrite Z.lor_spec, !Z.land_spec, Z.lnot_spec, Hbit by lia.
    simpl. rewrite andb_true_r, andb_false_r, orb_false_r. reflexivity.
  - intros r Hr. apply rd_wr_other. exact Hr.
Qed.

(** The hypothesis of C7 at bit 1, the step bit of Y in the sample
    configuration. *)
Lemma SIG_OVERFLOW2_resets_step_bits_only_witness :
  0 <= 1 < 8 /\
  (Z.testbit (STEP_MASK sample_config) 1 = true ->
   Z.testbit (rd (STEPPING_PORT sample_config) (SIG_OVERFLOW2 sample_config sample_state)) 1
   = Z.testbit (STEPPING_INVERT_MASK sample_config) 1).
Proof.
  assert (H : 0 <= 1 < 8) by lia.
  split; [exact H|].
  apply (SIG_OVERFLOW2_resets_step_bits_only sample_config sample_state 1 H).
Defined.

(** ** Stopped mode and the helpers *)

(** C8.  While the mode is not Running, [st_buffer_step] and
    [st_buffer_pace] return at once and leave the whole machine as it was:
    buffer, head, tail, [next_pace] and [current_pace] are unchanged, nothing
    is enqueued and no interrupt is awaited. *)
Theorem stopped_calls_do_nothing cfg m motor_port_bits microseconds :
  stepper_mode (mem m) <> STEPPER_MODE_RUNNING cfg ->
  st_buffer_step cfg motor_port_bits m = Returned tt m /\
  st_buffer_pace cfg microseconds m = Returned tt m.
Proof.
  intros Hmode. split.
  - apply st_buffer_step_unchanged. exact Hmode.
  - apply st_buffer_pace_unchanged. right. exact Hmode.
Qed.

(** The hypothesis of C8 at the stopped sample machine. *)
Lemma stopped_calls_do_nothing_witness :
  stepper_mode (mem stopped_machine) <> STEPPER_MODE_RUNNING sample_config /\
  st_buffer_step sample_config 7 stopped_machine = Returned tt stopped_machine /\
  st_buffer_pace sample_config 1000 stopped_machine = Returned tt stopped_machine.
Proof.
  assert (H : stepper_mode (mem stopped_machine) <> STEPPER_MODE_RUNNING sample_config)
    by (simpl; lia).
  split; [exact H|].
  apply (stopped_calls_do_nothing sample_config stopped_machine 7 1000 H).
Defined.

(** The magnitude that [round] gives is the one integer within a half of
    [m * 2 ^ e], the upper one of two. *)
Lemma round_magnitude_nearest m e R :
  e < 0 ->
  (R = round_magnitude m e <->
   - 2 ^ (- e) < 2 * (R * 2 ^ (- e) - Z.pos m) <= 2 ^ (- e)).
Proof.
  intros He. unfold round_magnitude.
  destruct (Z.leb_spec 0 e) as [H|_]; [lia|].
  assert (HP : 0 < 2 ^ (- e)) by (apply Z.pow_pos_nonneg; lia).
  set (P := 2 ^ (- e)) in *. split.
  - intros ->.
    pose proof (Z.div_mod (2 * Z.pos m + P) (2 * P) ltac:(lia)) as Hdm.
    pose proof (Z.mod_pos_bound (2 * Z.pos m + P) (2 * P) ltac:(lia)) as Hb.
    nia.
  - intros [Hlo Hhi]. apply (Z.div_unique _ _ _ (2 * Z.pos m + P - 2 * P * R)); nia.
Qed.

Lemma round_magnitude_nonneg m e : 0 <= round_magnitude m e.
Proof.
  unfold round_magnitude. destruct (Z.leb_spec 0 e).
  - apply Z.mul_nonneg_nonneg; [lia|]. apply Z.pow_nonneg. lia.
  - apply Z.div_pos; [|apply Z.mul_pos_pos; [lia|apply Z.pow_pos_nonneg; lia]].
    assert (0 <= 2 ^ (- e)) by (apply Z.pow_nonneg; lia). lia.
Qed.

(** [round_to_int32] gives a result exactly to the doubles that have a
    nearest [int32_t], and gives that. *)
Lemma round_to_int32_nearest x r : round_to_int32 x = Some r <-> nearest_int32 x r.
Proof.
  unfold round_to_int32, nearest_int32. destruct x as [sg|sg| |sg m e].
  - split; [intros [= <-]; lia|intros [_ ->]; reflexivity].
  - split; [discriminate|tauto].
  - split; [discriminate|tauto].
  - pose proof (round_magnitude_nonneg m e) as HR.
    pose proof (round_magnitude_nearest m e) as Hnear.
    assert (Hexact : 0 <= e -> round_magnitude m e = Z.pos m * 2 ^ e).
    { intros H. unfold round_magnitude. destruct (Z.leb_spec 0 e); [reflexivity|lia]. }
    set (R := round_magnitude m e) in *. cbv zeta.
    assert (Habs : forall v, (if sg then v <= 0 else 0 <= v) ->
              (Z.abs v = R <-> v = (if sg then - R else R))).
    { intros v Hv. destruct sg; lia. }
    split.
    + destruct (Z.leb_spec (- 2 ^ 31) (if sg then - R else R)) as [H1|_];
        [|discriminate].
      destruct (Z.ltb_spec (if sg then - R else R) (2 ^ 31)) as [H2|_];
        [|discriminate].
      * intros [= <-].
        split; [lia|].
        assert (Hsign : if sg then (if sg then - R else R) <= 0
                        else 0 <= (if sg then - R else R)) by (destruct sg; lia).
        split; [exact Hsign|].
        assert (HabsR : Z.abs (if sg then - R else R) = R) by (destruct sg; lia).
        rewrite HabsR. split; [exact Hexact|].
        intros He. apply (Hnear R He). reflexivity.
    + intros (Hrange & Hsign & Hpos & Hneg).
      assert (HR' : Z.abs r = R).
      { destruct (Z.lt_ge_cases e 0) as [He|He].
        - apply (Hnear (Z.abs r) He). apply Hneg. exact He.
        - rewrite Hexact by lia. apply Hpos. lia. }
      apply (Habs r Hsign) in HR'. rewrite <- HR'.
      destruct (Z.leb_spec (- 2 ^ 31) r); [|lia].
      destruct (Z.ltb_spec r (2 ^ 31)); [reflexivity|lia].
Qed.

Lemma round_to_int32_none x : round_to_int32 x = None <-> forall r, ~ nearest_int32 x r.
Proof.
  split.
  - intros Hnone r Hr. apply round_to_int32_nearest in Hr. congruence.
  - intros Hno. destruct (round_to_int32 x) as [r|] eqn:E; [|reflexivity].
    exfalso. apply (Hno r). apply round_to_int32_nearest. exact E.
Qed.

(** C9, as amended.  For an axis that is none of X, Y, Z the helpers return
    zero: [st_millimeters_to_steps] for every distance, [check_limit_switch]
    whatever the port reads, and [st_bit_for_stepper].  For X, Y and Z,
    [st_millimeters_to_steps] returns [r] exactly when [r] is an [int32_t]
    and the integer nearest to the product, as doubles, of the distance and
    that axis's steps per millimetre (the further from zero of two integers
    that are as near); when no [int32_t] is, because the product is out of
    range, infinite or a NaN, C defines no result.  (The case labels of a C
    [switch] are distinct.) *)
Theorem axis_helpers cfg fp millimeters axis port1 port2 :
  X_AXIS cfg <> Y_AXIS cfg -> X_AXIS cfg <> Z_AXIS cfg -> Y_AXIS cfg <> Z_AXIS cfg ->
  (axis <> X_AXIS cfg -> axis <> Y_AXIS cfg -> axis <> Z_AXIS cfg ->
     st_millimeters_to_steps cfg fp millimeters axis = Some 0 /\
     check_limit_switch cfg axis port1 port2 = 0 /\
     st_bit_for_stepper cfg axis = 0) /\
  (forall r,
     st_millimeters_to_steps cfg fp millimeters (X_AXIS cfg) = Some r <->
     nearest_int32 (double_mul fp millimeters (X_STEPS_PER_MM fp)) r) /\
  (forall r,
     st_millimeters_to_steps cfg fp millimeters (Y_AXIS cfg) = Some r <->
     nearest_int32 (double_mul fp millimeters (Y_STEPS_PER_MM fp)) r) /\
  (forall r,
     st_millimeters_to_steps cfg fp millimeters (Z_AXIS cfg) = Some r <->
     nearest_int32 (double_mul fp millimeters (Z_STEPS_PER_MM fp)) r) /\
  (st_millimeters_to_steps cfg fp millimeters (X_AXIS cfg) = None <->
   forall r, ~ nearest_int32 (double_mul fp millimeters (X_STEPS_PER_MM fp)) r) /\
  (st_millimeters_to_steps cfg fp millimeters (Y_AXIS cfg) = None <->
   forall r, ~ nearest_int32 (double_mul fp millimeters (Y_STEPS_PER_MM fp)) r) /\
  (st_millimeters_to_steps cfg fp millimeters (Z_AXIS cfg) = None <->
   forall r, ~ nearest_int32 (double_mul fp millimeters (Z_STEPS_PER_MM fp)) r).
Proof.
  intros Hxy Hxz Hyz.
  unfold st_millimeters_to_steps, check_limit_switch, st_bit_for_stepper.
  split; [intros Hx Hy Hz|].
  - destruct (Z.eqb_spec axis (X_AXIS cfg)); [contradiction|].
    destruct (Z.eqb_spec axis (Y_AXIS cfg)); [contradiction|].
    destruct (Z.eqb_spec axis (Z_AXIS cfg)); [contradiction|].
    rewrite !Z.land_0_r. simpl. tauto.
  - rewrite !Z.eqb_refl.
    destruct (Z.eqb_spec (Y_AXIS cfg) (X_AXIS cfg)); [congruence|].
    destruct (Z.eqb_spec (Z_AXIS cfg) (X_AXIS cfg)); [congruence|].
    destruct (Z.eqb_spec (Z_AXIS cfg) (Y_AXIS cfg)); [congruence|].
    split; [intros r; apply round_to_int32_nearest|].
    split; [intros r; apply round_to_int32_nearest|].
    split; [intros r; apply round_to_int32_nearest|].
    split; [apply round_to_int32_none|]. split; apply round_to_int32_none.
Qed.

(** The hypotheses of C9 at the sample configuration: 2.5 mm along X, at 80
    steps per millimetre, are 200 steps; the axis 7 does not exist. *)
Lemma axis_helpers_witness :
  X_AXIS sample_config <> Y_AXIS sample_config /\
  X_AXIS sample_config <> Z_AXIS sample_config /\
  Y_AXIS sample_config <> Z_AXIS sample_config /\
  7 <> X_AXIS sample_config /\ 7 <> Y_AXIS sample_config /\ 7 <> Z_AXIS sample_config /\
  (st_millimeters_to_steps sample_config sample_double_config sample_distance 7 = Some 0 /\
   check_limit_switch sample_config 7 255 255 = 0 /\
   st_bit_for_stepper sample_config 7 = 0) /\
  nearest_int32 (double_mul sample_double_config sample_distance
                   (X_STEPS_PER_MM sample_double_config)) 200.
Proof.
  assert (Hxy : X_AXIS sample_config <> Y_AXIS sample_config) by (simpl; lia).
  assert (Hxz : X_AXIS sample_config <> Z_AXIS sample_config) by (simpl; lia).
  assert (Hyz : Y_AXIS sample_config <> Z_AXIS sample_config) by (simpl; lia).
  assert (Hx : 7 <> X_AXIS sample_config) by (simpl; lia).
  assert (Hy : 7 <> Y_AXIS sample_config) by (simpl; lia).
  assert (Hz : 7 <> Z_AXIS sample_config) by (simpl; lia).
  repeat (split; [assumption|]).
  split.
  - apply (proj1 (axis_helpers sample_config sample_double_config sample_distance 7 255 255
                    Hxy Hxz Hyz) Hx Hy Hz).
  - apply (proj1 (proj2 (axis_helpers sample_config sample_double_config sample_distance 7
                           255 255 Hxy Hxz Hyz)) 200).
    reflexivity.
Defined.

(** C9 as the specification states it fails for distances whose steps are
    no [int32_t].  10^10 mm along X at 80 steps per millimetre: the product
    is the double 8 * 10^11 (exactly: 0xBA43B7 * 2^16 = 799999983616 with
    the 24 bits of a 32-bit double), which [round] leaves as it is and which
    is beyond 2^31 - 1, so that no [int32_t] is the rounded product and the
    conversion that [return] makes is undefined.  Likewise for a distance
    that is a NaN.  Within the range the function rounds the product as the
    doubles give it, not the exact one: 74218.8046875 mm at 80 steps per
    millimetre are 5937504.375 steps, to which 5937504 is nearest; the
    product as a 32-bit double is 5937504.5 and the function returns
    5937505. *)
Lemma step_count_is_not_the_rounded_product :
  double_mul sample_double_config huge_distance (X_STEPS_PER_MM sample_double_config)
  = SpecFloat.S754_finite false 12207031 16 /\
  round_magnitude 12207031 16 = 799999983616 /\
  2 ^ 31 - 1 < 799999983616 /\
  st_millimeters_to_steps sample_config sample_double_config huge_distance
    (X_AXIS sample_config) = None /\
  (forall r, ~ nearest_int32 (double_mul sample_double_config huge_distance
                                (X_STEPS_PER_MM sample_double_config)) r) /\
  st_millimeters_to_steps sample_config sample_double_config SpecFloat.S754_nan
    (X_AXIS sample_config) = None /\
  2 * Z.abs (5937504 * 2 ^ 24 - 9500007 * 10485760) < 2 ^ 24 /\
  double_mul sample_double_config inexact_distance (X_STEPS_PER_MM sample_double_config)
  = SpecFloat.S754_finite false 11875009 (-1) /\
  st_millimeters_to_steps sample_config sample_double_config inexact_distance
    (X_AXIS sample_config) = Some 5937505.
Proof.
  split; [vm_compute; reflexivity|]. split; [vm_compute; reflexivity|].
  split; [reflexivity|]. split; [vm_compute; reflexivity|].
  split.
  { intros r Hr. apply round_to_int32_nearest in Hr. vm_compute in Hr. discriminate. }
  split; [vm_compute; reflexivity|]. split; [reflexivity|].
  split; vm_compute; reflexivity.
Qed.

(** ** The ring buffer and the pace protocol *)

Lemma sample_machine_at_rest sched : at_rest sample_config (sample_machine sched).
Proof.
  unfold at_rest, wf, running, settled. simpl.
  split; [|split; reflexivity].
  split; [reflexivity|]. unfold STEP_BUFFER_SIZE. lia.
Qed.

Lemma upcoming_empty s : wf s -> is_empty s -> upcoming s = [].
Proof.
  intros Hwf He. apply is_empty_length in He; [|exact Hwf].
  unfold upcoming. destruct (resident s); [reflexivity|discriminate].
Qed.



(** C1 as the specification states it fails for a pace of zero, which
    [next_pace] cannot tell from no request.  From the sample state (pace
    20000) the producer asks for pace 0, enqueues step 1, asks for pace 500
    and enqueues step 2, then four cadence interrupts arrive.  The second
    request did not wait for the first marker, so the first marker installs
    the pace 500 and the second the pace 0: step 1, enqueued after the
    marker for pace 0 and before the request for 500, is executed under
    500, and step 2, enqueued after the marker for 500, under 0.  Likewise a
    byte 0xff passed to [st_buffer_step] is taken for a marker: with no
    request made at all, the step enqueued after it is executed under the
    pace 0 and not under 20000. *)
Lemma zero_pace_breaks_pace_order :
  executed (final (run sample_config zero_pace_program (sample_machine late_schedule)))
  = [(PACE_CHANGE_MARKER, 20000); (1, 500); (PACE_CHANGE_MARKER, 500); (2, 0)] /\
  issued (final (run sample_config zero_pace_program (sample_machine late_schedule)))
  = [(1, 20000); (2, 500)] /\
  backlog (final (run sample_config zero_pace_program (sample_machine late_schedule)))
  <> issued (final (run sample_config zero_pace_program (sample_machine late_schedule))) /\
  executed (final (run sample_config raw_marker_program (sample_machine raw_marker_schedule)))
  = [(PACE_CHANGE_MARKER, 20000); (1, 0)].
Proof.
  split; [vm_compute; reflexivity|]. split; [vm_compute; reflexivity|].
  split; [vm_compute; discriminate|]. vm_compute. reflexivity.
Qed.

(** C1, as amended.  For every sequence of calls of [st_buffer_step] with
    step instructions (bytes other than the marker) and of [st_buffer_pace]
    with non-zero paces, made while Running from a state at rest, and under
    any interrupts: the caller's record grows by exactly the steps by which
    the backlog (the steps executed so far followed by those resident, each
    with its pace) grows, so the cadence handler executes the steps in the
    order of their enqueueing and each under the pace that was in force for
    the producer when it was enqueued; the stream of consumed and resident
    bytes only grows at its end; [current_pace] changes only when the
    handler has popped a marker; and a pace request that is taken makes its
    pace the one in force for the steps enqueued after it.  The processor
    compares [current_pace] with the request byte by byte, with interrupts
    enabled: what a request does is stated for the requests whose comparison
    no pending pace can tear. *)
Theorem steps_execute_in_order_under_their_pace cfg prog m p :
  wf (mem m) -> running cfg (mem m) -> settled (mem m) ->
  Forall legal_call prog -> 0 < p < 2 ^ 32 ->
  (exists new,
     issued (final (run cfg prog m)) = issued m ++ new /\
     steps (executed (final (run cfg prog m))) ++ upcoming (mem (final (run cfg prog m)))
     = (steps (executed m) ++ upcoming (mem m)) ++ new) /\
  (steps (executed m) ++ upcoming (mem m) = issued m ->
     steps (executed (final (run cfg prog m))) ++ upcoming (mem (final (run cfg prog m)))
     = issued (final (run cfg prog m)) /\
     steps (executed (final (run cfg prog m))) `prefix_of` issued (final (run cfg prog m)) /\
     (is_empty (mem (final (run cfg prog m))) ->
        steps (executed (final (run cfg prog m))) = issued (final (run cfg prog m)))) /\
  executed m `prefix_of` executed (final (run cfg prog m)) /\
  (exists enq,
     map fst (executed (final (run cfg prog m))) ++ resident (mem (final (run cfg prog m)))
     = (map fst (executed m) ++ resident (mem m)) ++ enq) /\
  (markers (map fst (executed (final (run cfg prog m)))) = markers (map fst (executed m)) ->
     current_pace (mem (final (run cfg prog m))) = current_pace (mem m)) /\
  (current_pace (mem m) <> p -> compare_is_sure (mem m) p ->
     returned (st_buffer_pace cfg p m) = true ->
     producer_pace (mem (final (st_buffer_pace cfg p m))) = p) /\
  (current_pace (mem m) = p -> next_pace (mem m) = 0 ->
     st_buffer_pace cfg p m = Returned tt m).
Proof.
  intros Hwf Hrun Hs Hlegal Hp.
  destruct (run_legal cfg prog m (conj Hwf (conj Hrun Hs)) Hlegal)
    as ([enq Hadv] & (new & Hiss & Hback) & Ho & _).
  set (m' := final (run cfg prog m)) in *. unfold backlog in Hback.
  split; [exists new; split; assumption|].
  split.
  { intros Hrec. rewrite Hrec in Hback.
    assert (Heq : steps (executed m') ++ upcoming (mem m') = issued m') by congruence.
    split; [exact Heq|]. split; [rewrite <- Heq; apply prefix_app_r; reflexivity|].
    intros He. rewrite (upcoming_empty (mem m')) in Heq by (try apply Ho; exact He).
    rewrite app_nil_r in Heq. exact Heq. }
  destruct Hadv as (_ & _ & Hpre & Hq & Hk).
  split; [exact Hpre|]. split; [exists enq; exact Hq|]. split; [exact Hk|].
  split.
  - intros Hne _ Hret.
    destruct (st_buffer_pace_spec cfg p m Hwf Hrun Hs ltac:(lia) Hne)
      as (_ & _ & _ & _ & Hr & _).
    destruct (Hr Hret) as (_ & Hn & _). unfold producer_pace. rewrite Hn.
    destruct (Z.eqb_spec p 0); [lia|reflexivity].
  - intros Heq _. apply st_buffer_pace_unchanged. left. exact Heq.
Qed.

(** The hypotheses of C1 at the sample machine and program: once the buffer
    has drained, the steps 1, 2 and 3 were executed under the paces 20000,
    1000 and 500. *)
Lemma steps_execute_in_order_under_their_pace_witness :
  wf (mem (sample_machine sample_schedule)) /\
  running sample_config (mem (sample_machine sample_schedule)) /\
  settled (mem (sample_machine sample_schedule)) /\
  Forall legal_call sample_program /\ 0 < 1000 < 2 ^ 32 /\
  steps (executed (final (run sample_config sample_program (sample_machine sample_schedule))))
  = issued (final (run sample_config sample_program (sample_machine sample_schedule))) /\
  issued (final (run sample_config sample_program (sample_machine sample_schedule)))
  = [(1, 20000); (2, 1000); (3, 500)] /\
  compare_is_sure (mem (sample_machine sample_schedule)) 1000 /\
  producer_pace (mem (final (st_buffer_pace sample_config 1000
                               (sample_machine sample_schedule)))) = 1000.
Proof.
  destruct (sample_machine_at_rest sample_schedule) as (Hwf & Hrun & Hs).
  assert (Hlegal : Forall legal_call sample_program).
  { unfold sample_program. repeat constructor; simpl; unfold PACE_CHANGE_MARKER; lia. }
  assert (Hp : 0 < 1000 < 2 ^ 32) by lia.
  split; [exact Hwf|]. split; [exact Hrun|]. split; [exact Hs|].
  assert (Hsure : compare_is_sure (mem (sample_machine sample_schedule)) 1000)
    by (left; reflexivity).
  split; [exact Hlegal|]. split; [exact Hp|].
  destruct (steps_execute_in_order_under_their_pace sample_config sample_program
              (sample_machine sample_schedule) 1000 Hwf Hrun Hs Hlegal Hp)
    as (_ & Hrec & _ & _ & _ & Hreq & _).
  split; [apply Hrec; reflexivity|].
  split; [vm_compute; reflexivity|]. split; [exact Hsure|].
  apply Hreq; [simpl; lia|exact Hsure|reflexivity].
Defined.

(** C5 as the specification states it fails for a pace of zero.  From the
    sample state a request for pace 0 enqueues a marker and leaves
    [next_pace] at 0: a request is outstanding and [next_pace] is zero.  A
    second request, for pace 500, then finds [next_pace] zero and does not
    wait: two markers are resident for one pending pace.  Likewise, when a
    byte 0xff was passed to [st_buffer_step] before a request for pace 500,
    the handler takes that byte for the marker and clears [next_pace] while
    the marker of the request is still resident. *)
Lemma zero_pace_leaves_marker_without_pending_pace :
  returned (st_buffer_pace sample_config 0 (sample_machine [])) = true /\
  resident (mem (final (st_buffer_pace sample_config 0 (sample_machine []))))
  = [PACE_CHANGE_MARKER] /\
  next_pace (mem (final (st_buffer_pace sample_config 0 (sample_machine [])))) = 0 /\
  ~ single_request (mem (final (st_buffer_pace sample_config 0 (sample_machine [])))) /\
  returned (st_buffer_pace sample_config 500
              (final (st_buffer_pace sample_config 0 (sample_machine [])))) = true /\
  resident (mem (final (st_buffer_pace sample_config 500
              (final (st_buffer_pace sample_config 0 (sample_machine []))))))
  = [PACE_CHANGE_MARKER; PACE_CHANGE_MARKER] /\
  resident (mem (final (run sample_config raw_marker_pace_program
                          (sample_machine raw_marker_pace_schedule))))
  = [PACE_CHANGE_MARKER] /\
  next_pace (mem (final (run sample_config raw_marker_pace_program
                           (sample_machine raw_marker_pace_schedule)))) = 0.
Proof.
  split; [vm_compute; reflexivity|]. split; [vm_compute; reflexivity|].
  split; [vm_compute; reflexivity|].
  split; [|repeat split; vm_compute; reflexivity].
  unfold single_request. vm_compute. lia.
Qed.

(** C5, as amended.  For calls of [st_buffer_step] with step instructions and
    of [st_buffer_pace] with non-zero paces, while Running and under any
    interrupts: at all times at most one marker is resident, and none unless
    [next_pace] is non-zero.  A call of [st_buffer_pace] with a pace other
    than [current_pace] that returns leaves at most one marker resident,
    and if a pace was pending when it was called, the handler has executed
    a marker in the meantime.  The processor compares [current_pace] with
    the request byte by byte, with interrupts enabled; when no pending pace
    can tear that comparison, the call that returns has stored its pace in
    [next_pace] and enqueued exactly one marker, the only one resident.  A
    call that does not return has enqueued nothing.  The cadence handler
    that pops a marker makes [next_pace] the current pace and clears it. *)
Theorem single_pending_pace cfg prog m p s :
  wf (mem m) -> running cfg (mem m) -> settled (mem m) ->
  Forall legal_call prog -> 0 < p < 2 ^ 32 -> current_pace (mem m) <> p ->
  wf s -> step_buffer_head s <> step_buffer_tail s ->
  step_buffer s !!! Z.to_nat (step_buffer_tail s) = PACE_CHANGE_MARKER ->
  ((markers (resident (mem (final (run cfg prog m)))) <= 1)%nat /\
   (next_pace (mem (final (run cfg prog m))) = 0 ->
    markers (resident (mem (final (run cfg prog m)))) = 0%nat)) /\
  (returned (st_buffer_pace cfg p m) = true ->
     (markers (resident (mem (final (st_buffer_pace cfg p m)))) <= 1)%nat /\
     (next_pace (mem m) <> 0 ->
        (markers (map fst (executed m))
         < markers (map fst (executed (final (st_buffer_pace cfg p m)))))%nat) /\
     (compare_is_sure (mem m) p ->
        next_pace (mem (final (st_buffer_pace cfg p m))) = p /\
        markers (resident (mem (final (st_buffer_pace cfg p m)))) = 1%nat /\
        map fst (executed (final (st_buffer_pace cfg p m)))
          ++ resident (mem (final (st_buffer_pace cfg p m)))
        = (map fst (executed m) ++ resident (mem m)) ++ [PACE_CHANGE_MARKER])) /\
  (returned (st_buffer_pace cfg p m) = false ->
     map fst (executed (final (st_buffer_pace cfg p m)))
       ++ resident (mem (final (st_buffer_pace cfg p m)))
     = map fst (executed m) ++ resident (mem m) /\
     (markers (resident (mem (final (st_buffer_pace cfg p m)))) <= 1)%nat) /\
  (next_pace (SIG_OUTPUT_COMPARE1A cfg s) = 0 /\
   current_pace (SIG_OUTPUT_COMPARE1A cfg s) = next_pace s /\
   resident s = PACE_CHANGE_MARKER :: resident (SIG_OUTPUT_COMPARE1A cfg s)).
Proof.
  intros Hwf Hrun Hs Hlegal Hp Hne Hwfs Hnonempty Hmarker.
  split.
  { destruct (run_legal cfg prog m (conj Hwf (conj Hrun Hs)) Hlegal)
      as (_ & _ & (_ & _ & Hsingle) & _).
    unfold single_request in Hsingle.
    destruct (Z.eqb_spec (next_pace (mem (final (run cfg prog m)))) 0); split; lia. }
  destruct (st_buffer_pace_spec cfg p m Hwf Hrun Hs ltac:(lia) Hne)
    as (_ & Hadv & _ & Hsingle & Hret & _).
  destruct Hadv as (_ & _ & _ & Hq & _). unfold stream in Hq.
  split.
  { intros Hr. rewrite Hr in Hq. destruct (Hret Hr) as (Hst & Hn & Hwait).
    assert (Hone : markers (resident (mem (final (st_buffer_pace cfg p m)))) = 1%nat).
    { unfold settled in Hst. rewrite Hn in Hst.
      destruct (Z.eqb_spec p 0); [lia|exact Hst]. }
    split; [lia|]. split; [exact Hwait|].
    intros _. split; [exact Hn|]. split; [exact Hone|exact Hq]. }
  split.
  { intros Hr. rewrite Hr, app_nil_r in Hq. split; [exact Hq|].
    unfold single_request in Hsingle.
    destruct (next_pace (mem (final (st_buffer_pace cfg p m))) =? 0); lia. }
  pose proof (SIG_OUTPUT_COMPARE1A_vars cfg s) as (Hb & Hh & _ & Hrest).
  destruct (Z.eqb_spec (step_buffer_head s) (step_buffer_tail s)); [contradiction|].
  destruct Hrest as [Ht Hpace]. unfold is_marker in Hpace.
  rewrite Hmarker, Z.eqb_refl in Hpace. destruct Hpace as [Hc Hn].
  split; [exact Hn|]. split; [exact Hc|].
  rewrite <- Hmarker at 1. apply resident_pop; assumption.
Qed.

(** The hypotheses of C5 at the sample program and at the machine in which
    the pace 1000 is pending, for a request of the pace 500, which no
    mixture of the bytes of 20000 and 1000 equals: the request waits for the
    handler to pop the marker of 1000, stores 500 and leaves one marker
    resident.  The state of that machine has the marker at its tail. *)
Lemma single_pending_pace_witness :
  wf (mem pending_pace_machine) /\
  running sample_config (mem pending_pace_machine) /\
  settled (mem pending_pace_machine) /\
  Forall legal_call sample_program /\ 0 < 500 < 2 ^ 32 /\
  current_pace (mem pending_pace_machine) <> 500 /\
  next_pace (mem pending_pace_machine) = 1000 /\
  compare_is_sure (mem pending_pace_machine) 500 /\
  returned (st_buffer_pace sample_config 500 pending_pace_machine) = true /\
  next_pace (mem (final (st_buffer_pace sample_config 500 pending_pace_machine))) = 500 /\
  markers (resident (mem (final (st_buffer_pace sample_config 500 pending_pace_machine))))
  = 1%nat /\
  (markers (map fst (executed pending_pace_machine))
   < markers (map fst (executed (final (st_buffer_pace sample_config 500
                                           pending_pace_machine)))))%nat.
Proof.
  assert (Hwf : wf (mem pending_pace_machine)).
  { unfold wf. vm_compute. repeat split; try reflexivity; discriminate. }
  assert (Hrun : running sample_config (mem pending_pace_machine)) by reflexivity.
  assert (Hs : settled (mem pending_pace_machine)) by reflexivity.
  assert (Hlegal : Forall legal_call sample_program).
  { unfold sample_program. repeat constructor; simpl; unfold PACE_CHANGE_MARKER; lia. }
  assert (Hp : 0 < 500 < 2 ^ 32) by lia.
  assert (Hne : current_pace (mem pending_pace_machine) <> 500) by (vm_compute; discriminate).
  assert (Hnext : next_pace (mem pending_pace_machine) = 1000) by reflexivity.
  assert (Hsure : compare_is_sure (mem pending_pace_machine) 500) by (right; reflexivity).
  assert (Hret : returned (st_buffer_pace sample_config 500 pending_pace_machine) = true)
    by reflexivity.
  assert (Hnonempty : step_buffer_head (mem pending_pace_machine)
                      <> step_buffer_tail (mem pending_pace_machine))
    by (vm_compute; discriminate).
  assert (Hmarker : step_buffer (mem pending_pace_machine)
                      !!! Z.to_nat (step_buffer_tail (mem pending_pace_machine))
                    = PACE_CHANGE_MARKER) by reflexivity.
  assert (Hpending : next_pace (mem pending_pace_machine) <> 0) by (rewrite Hnext; lia).
  split; [exact Hwf|]. split; [exact Hrun|]. split; [exact Hs|].
  split; [exact Hlegal|]. split; [exact Hp|]. split; [exact Hne|].
  split; [exact Hnext|]. split; [exact Hsure|]. split; [exact Hret|].
  destruct (single_pending_pace sample_config sample_program pending_pace_machine 500
              (mem pending_pace_machine)
              Hwf Hrun Hs Hlegal Hp Hne Hwf Hnonempty Hmarker)
    as (_ & Hcall & _).
  destruct (Hcall Hret) as (_ & Hwaited & Hstored).
  destruct (Hstored Hsure) as (Hn & Hone & _).
  split; [exact Hn|]. split; [exact Hone|]. exact (Hwaited Hpending).
Defined.

(** * Further properties of the driver *)

(** ** The pace timer on every input *)

Lemma pace_ticks_range cfg us : 0 <= pace_ticks cfg us < 2 ^ 32.
Proof. unfold pace_ticks, wrap32. apply Z.mod_pos_bound. lia. Qed.

Lemma prescaler_divisor_values :
  prescaler_divisor 0 = 1 /\ prescaler_divisor 1 = 8 /\ prescaler_divisor 2 = 64 /\
  prescaler_divisor 3 = 256 /\ prescaler_divisor 4 = 1024.
Proof. repeat split. Qed.

(** X1.  Whatever the request, [config_pace_timer] sets a ceiling of 16
    bits and a prescaler index from 0 to 4, and the period it configures is
    never longer than the tick count computed from the request: it rounds
    down, by less than one prescaled tick unless it clamps. *)
Theorem config_pace_timer_rounds_down cfg microseconds s :
  0 <= rd OCR1A (config_pace_timer cfg microseconds s) <= 65535 /\
  rd OCR1A (config_pace_timer cfg microseconds s)
    = fst (pace_ceiling_prescaler cfg microseconds) /\
  0 <= snd (pace_ceiling_prescaler cfg microseconds) <= 4 /\
  configured_ticks cfg microseconds <= pace_ticks cfg microseconds /\
  (pace_ticks cfg microseconds <= 0x3ffffff ->
     pace_ticks cfg microseconds
     < configured_ticks cfg microseconds
       + prescaler_divisor (snd (pace_ceiling_prescaler cfg microseconds))).
Proof.
  destruct (config_pace_timer_regs cfg microseconds s) as (Hocr & _ & _).
  pose proof (pace_ticks_range cfg microseconds) as Hrange.
  pose proof (pace_ceiling_prescaler_cases cfg microseconds) as Hcases. cbv zeta in Hcases.
  rewrite Hocr. unfold configured_ticks.
  set (ticks := pace_ticks cfg microseconds) in *.
  destruct Hcases as [[Hr E]|[[Hr E]|[[Hr E]|[[Hr E]|[[Hr E]|[Hr E]]]]]];
    rewrite E; simpl fst; simpl snd;
    unfold wrap16; rewrite ?Z.shiftr_div_pow2 by lia;
    change (prescaler_divisor 0) with 1; change (prescaler_divisor 1) with 8;
    change (prescaler_divisor 2) with 64; change (prescaler_divisor 3) with 256;
    change (prescaler_divisor 4) with 1024;
    (split; [zmod|]); (split; [reflexivity|]); (split; [lia|]); (split; [zmod|]);
    intros Hle; zmod.
Qed.

Lemma wrap8_range z : 0 <= wrap8 z < 256.
Proof. unfold wrap8. apply Z.mod_pos_bound. lia. Qed.

Lemma clock_select_keeps_mode_bits old k i :
  0 <= k < 8 -> 3 <= i < 8 ->
  Z.testbit (wrap8 (Z.lor (Z.land old (Z.lnot (Z.shiftl 0x07 CS10))) (Z.shiftl k CS10))) i
  = Z.testbit old i.
Proof.
  intros Hk Hi. unfold CS10. rewrite !Z.shiftl_0_r, wrap8_testbit by lia.
  rewrite Z.lor_spec, Z.land_spec, Z.lnot_spec by lia.
  assert (H7 : Z.testbit 7 i = false).
  { change 7 with (Z.ones 3). apply Z.ones_spec_high. lia. }
  assert (Hkb : Z.testbit k i = false).
  { apply Z.bits_above_log2; [lia|].
    destruct (Z.eq_dec k 0) as [->|Hk0]; [simpl; lia|].
    apply Z.log2_lt_pow2; [lia|].
    assert (2 ^ 3 <= 2 ^ i) by (apply Z.pow_le_mono_r; lia). lia. }
  rewrite H7, Hkb. simpl. rewrite andb_true_r, orb_false_r. reflexivity.
Qed.

(** X2.  [config_pace_timer] only ever selects one of the five internal
    clocks: the clock-select field of TCCR1B ends between 1 and 5, never 0
    (timer stopped) and never 6 or 7 (external clock).  It leaves the other
    bits of TCCR1B, every register but TCCR1B and OCR1A, and every variable
    but [current_pace] as they were. *)
Theorem config_pace_timer_frame cfg microseconds s :
  1 <= Z.land (rd TCCR1B (config_pace_timer cfg microseconds s)) 7 <= 5 /\
  (forall i, 3 <= i < 8 ->
     Z.testbit (rd TCCR1B (config_pace_timer cfg microseconds s)) i
     = Z.testbit (rd TCCR1B s) i) /\
  (forall r, r <> TCCR1B -> r <> OCR1A ->
     rd r (config_pace_timer cfg microseconds s) = rd r s) /\
  step_buffer (config_pace_timer cfg microseconds s) = step_buffer s /\
  step_buffer_head (config_pace_timer cfg microseconds s) = step_buffer_head s /\
  step_buffer_tail (config_pace_timer cfg microseconds s) = step_buffer_tail s /\
  next_pace (config_pace_timer cfg microseconds s) = next_pace s /\
  stepper_mode (config_pace_timer cfg microseconds s) = stepper_mode s.
Proof.
  destruct (config_pace_timer_regs cfg microseconds s) as (_ & Htccr & _).
  destruct (config_pace_timer_vars cfg microseconds s) as (Hb & Hh & Ht & _ & Hn & Hm).
  assert (Hp : 0 <= snd (pace_ceiling_prescaler cfg microseconds) <= 4).
  { pose proof (pace_ceiling_prescaler_cases cfg microseconds) as Hcases. cbv zeta in Hcases.
    destruct Hcases as [[_ E]|[[_ E]|[[_ E]|[[_ E]|[[_ E]|[_ E]]]]]]; rewrite E; simpl; lia. }
  split.
  { rewrite Htccr, clock_select_field by lia. lia. }
  split.
  { intros i Hi. rewrite Htccr. apply clock_select_keeps_mode_bits; lia. }
  split.
  { intros r H1 H2. unfold config_pace_timer.
    destruct (pace_ceiling_prescaler cfg microseconds) as [c p].
    unfold rd, wr, set_current_pace. simpl.
    destruct (decide (r = OCR1A)); [contradiction|].
    destruct (decide (r = TCCR1B)); [contradiction|]. reflexivity. }
  tauto.
Qed.

(** X3.  The staircase is monotone: as long as the tick count does not
    wrap, a longer requested interval never gets a shorter configured
    period. *)
Theorem configured_ticks_monotone cfg a b :
  0 <= TICKS_PER_MICROSECOND cfg -> 0 <= a <= b ->
  b * TICKS_PER_MICROSECOND cfg < 2 ^ 32 ->
  configured_ticks cfg a <= configured_ticks cfg b.
Proof.
  intros Htpm Hab Hb.
  assert (Ha' : 0 <= a * TICKS_PER_MICROSECOND cfg <= b * TICKS_PER_MICROSECOND cfg) by nia.
  pose proof (pace_ceiling_prescaler_cases cfg a) as Ca.
  pose proof (pace_ceiling_prescaler_cases cfg b) as Cb. cbv zeta in Ca, Cb.
  rewrite pace_ticks_small in Ca, Cb by lia.
  unfold configured_ticks.
  set (ta := a * TICKS_PER_MICROSECOND cfg) in *.
  set (tb := b * TICKS_PER_MICROSECOND cfg) in *.
  destruct Ca as [[Ha Ea]|[[Ha Ea]|[[Ha Ea]|[[Ha Ea]|[[Ha Ea]|[Ha Ea]]]]]];
    destruct Cb as [[Hb' Eb]|[[Hb' Eb]|[[Hb' Eb]|[[Hb' Eb]|[[Hb' Eb]|[Hb' Eb]]]]]];
    try lia; rewrite Ea, Eb;
    unfold wrap16; rewrite ?Z.shiftr_div_pow2 by lia;
    change (prescaler_divisor 0) with 1; change (prescaler_divisor 1) with 8;
    change (prescaler_divisor 2) with 64; change (prescaler_divisor 3) with 256;
    change (prescaler_divisor 4) with 1024; zmod.
Qed.

Lemma configured_ticks_monotone_witness :
  0 <= TICKS_PER_MICROSECOND sample_config /\ 0 <= 20000 <= 30000 /\
  30000 * TICKS_PER_MICROSECOND sample_config < 2 ^ 32 /\
  configured_ticks sample_config 20000 <= configured_ticks sample_config 30000.
Proof.
  assert (H1 : 0 <= TICKS_PER_MICROSECOND sample_config) by (vm_compute; discriminate).
  assert (H2 : 0 <= 20000 <= 30000) by lia.
  assert (H3 : 30000 * TICKS_PER_MICROSECOND sample_config < 2 ^ 32) by reflexivity.
  split; [exact H1|]. split; [exact H2|]. split; [exact H3|].
  apply (configured_ticks_monotone sample_config 20000 30000 H1 H2 H3).
Defined.

(** X4.  The tick count is computed modulo 2^32, so the timer setting is
    periodic in the request: two intervals whose difference times
    [TICKS_PER_MICROSECOND] is a multiple of 2^32 get the same ceiling and
    prescaler (at 16 MHz, intervals 2^28 microseconds apart), while
    [current_pace] records each request as it was made. *)
Theorem config_pace_timer_wraps cfg microseconds d s :
  (d * TICKS_PER_MICROSECOND cfg) mod 2 ^ 32 = 0 ->
  pace_ceiling_prescaler cfg (microseconds + d) = pace_ceiling_prescaler cfg microseconds /\
  rd OCR1A (config_pace_timer cfg (microseconds + d) s)
    = rd OCR1A (config_pace_timer cfg microseconds s) /\
  rd TCCR1B (config_pace_timer cfg (microseconds + d) s)
    = rd TCCR1B (config_pace_timer cfg microseconds s) /\
  current_pace (config_pace_timer cfg (microseconds + d) s) = microseconds + d.
Proof.
  intros Hd.
  assert (Hticks : pace_ticks cfg (microseconds + d) = pace_ticks cfg microseconds).
  { unfold pace_ticks, wrap32. rewrite Z.mul_add_distr_r, Z.add_mod by lia.
    rewrite Hd, Z.add_0_r, Z.mod_mod by lia. reflexivity. }
  assert (Hcp : pace_ceiling_prescaler cfg (microseconds + d)
                = pace_ceiling_prescaler cfg microseconds).
  { unfold pace_ceiling_prescaler. rewrite Hticks. reflexivity. }
  destruct (config_pace_timer_regs cfg (microseconds + d) s) as (Ho1 & Ht1 & Hc1).
  destruct (config_pace_timer_regs cfg microseconds s) as (Ho2 & Ht2 & _).
  split; [exact Hcp|]. split; [rewrite Ho1, Ho2, Hcp; reflexivity|].
  split; [rewrite Ht1, Ht2, Hcp; reflexivity|exact Hc1].
Qed.

Lemma config_pace_timer_wraps_witness :
  (2 ^ 28 * TICKS_PER_MICROSECOND sample_config) mod 2 ^ 32 = 0 /\
  pace_ceiling_prescaler sample_config (20000 + 2 ^ 28)
  = pace_ceiling_prescaler sample_config 20000.
Proof.
  assert (H : (2 ^ 28 * TICKS_PER_MICROSECOND sample_config) mod 2 ^ 32 = 0) by reflexivity.
  split; [exact H|].
  apply (config_pace_timer_wraps sample_config 20000 (2 ^ 28) sample_state H).
Defined.

Lemma config_pace_timer_rounds_down_witness :
  pace_ticks sample_config 20000 <= 0x3ffffff /\
  pace_ticks sample_config 20000
  < configured_ticks sample_config 20000
    + prescaler_divisor (snd (pace_ceiling_prescaler sample_config 20000)).
Proof.
  assert (H : pace_ticks sample_config 20000 <= 0x3ffffff) by (vm_compute; discriminate).
  split; [exact H|].
  exact (proj2 (proj2 (proj2 (proj2
           (config_pace_timer_rounds_down sample_config 20000 sample_state)))) H).
Defined.

Lemma config_pace_timer_frame_witness :
  3 <= 3 < 8 /\
  Z.testbit (rd TCCR1B (config_pace_timer sample_config 20000 sample_state)) 3
  = Z.testbit (rd TCCR1B sample_state) 3.
Proof.
  assert (H : 3 <= 3 < 8) by lia.
  split; [exact H|].
  exact (proj1 (proj2 (config_pace_timer_frame sample_config 20000 sample_state)) 3 H).
Defined.

(** ** The cadence handler *)

(** X5.  On an empty buffer the cadence handler changes no variable and no
    register but PORTD, where it raises bit 3 and leaves the other bits. *)
Theorem cadence_handler_idle cfg s i :
  step_buffer_head s = step_buffer_tail s -> 0 <= i < 8 ->
  same_vars s (SIG_OUTPUT_COMPARE1A cfg s) /\
  (forall r, r <> PORTD -> rd r (SIG_OUTPUT_COMPARE1A cfg s) = rd r s) /\
  Z.testbit (rd PORTD (SIG_OUTPUT_COMPARE1A cfg s)) 3 = true /\
  (i <> 3 ->
   Z.testbit (rd PORTD (SIG_OUTPUT_COMPARE1A cfg s)) i = Z.testbit (rd PORTD s) i).
Proof.
  intros Hempty Hi. unfold SIG_OUTPUT_COMPARE1A.
  rewrite Hempty, Z.eqb_refl. simpl negb. cbv iota.
  split; [unfold same_vars; simpl; tauto|].
  split; [intros r Hr; apply rd_wr_other; exact Hr|].
  rewrite rd_wr_same.
  split.
  - rewrite wrap8_testbit by lia. rewrite Z.lor_spec, testbit_single by lia.
    apply orb_true_r.
  - intros Hne. rewrite wrap8_testbit by lia. rewrite Z.lor_spec, testbit_single by lia.
    destruct (Z.eqb_spec i 3); [contradiction|]. apply orb_false_r.
Qed.

Lemma cadence_handler_idle_witness :
  step_buffer_head sample_state = step_buffer_tail sample_state /\ 0 <= 5 < 8 /\
  Z.testbit (rd PORTD (SIG_OUTPUT_COMPARE1A sample_config sample_state)) 3 = true.
Proof.
  assert (H1 : step_buffer_head sample_state = step_buffer_tail sample_state) by reflexivity.
  assert (H2 : 0 <= 5 < 8) by lia.
  split; [exact H1|]. split; [exact H2|].
  apply (cadence_handler_idle sample_config sample_state 5 H1 H2).
Defined.

Lemma SIG_OUTPUT_COMPARE1A_step cfg s :
  step_buffer_head s <> step_buffer_tail s ->
  is_marker (step_buffer s !!! Z.to_nat (step_buffer_tail s)) = false ->
  SIG_OUTPUT_COMPARE1A cfg s =
  let s0 := wr PORTD (wrap8 (Z.land (rd PORTD s) (Z.lnot (Z.shiftl 1 3)))) s in
  let popped := wrap8 (Z.lxor (step_buffer s !!! Z.to_nat (step_buffer_tail s))
                              (STEPPING_INVERT_MASK cfg)) in
  let s1 := wr (STEPPING_PORT cfg)
              (wrap8 (Z.lor (Z.land (rd (STEPPING_PORT cfg) s0) (Z.lnot (DIRECTION_MASK cfg)))
                            (Z.land popped (DIRECTION_MASK cfg)))) s0 in
  let s2 := wr (STEPPING_PORT cfg)
              (wrap8 (Z.lor (Z.land (rd (STEPPING_PORT cfg) s1) (Z.lnot (STEP_MASK cfg)))
                            popped)) s1 in
  let s3 := wr TCNT2
              (wrap8 (- (((STEP_PULSE_MICROSECONDS cfg - 4) * TICKS_PER_MICROSECOND cfg) ÷ 8)))
              s2 in
  set_step_buffer_tail (Z.rem (step_buffer_tail s + 1) STEP_BUFFER_SIZE) s3.
Proof.
  intros Hne Hm. unfold SIG_OUTPUT_COMPARE1A, is_marker in *.
  destruct (Z.eqb_spec (step_buffer_head s) (step_buffer_tail s)); [contradiction|].
  simpl negb. cbv iota zeta. simpl step_buffer. simpl step_buffer_tail.
  rewrite Hm. reflexivity.
Qed.

(** X6.  On a step instruction the cadence handler writes the instruction,
    XORed with the invert mask, to the stepping port: every step and
    direction bit takes the instruction's bit; a bit outside
    [STEPPING_MASK] keeps its level unless the XORed instruction has it set,
    in which case it is raised.  It reloads TCNT2 for the pulse width and
    leaves the registers other than PORTD, the stepping port and TCNT2 as
    they were. *)
Theorem cadence_handler_step_output cfg s i :
  step_buffer_head s <> step_buffer_tail s ->
  is_marker (step_buffer s !!! Z.to_nat (step_buffer_tail s)) = false ->
  STEPPING_PORT cfg <> TCNT2 -> 0 <= i < 8 ->
  (Z.testbit (STEPPING_MASK cfg) i = true ->
     Z.testbit (rd (STEPPING_PORT cfg) (SIG_OUTPUT_COMPARE1A cfg s)) i
     = xorb (Z.testbit (step_buffer s !!! Z.to_nat (step_buffer_tail s)) i)
            (Z.testbit (STEPPING_INVERT_MASK cfg) i)) /\
  (Z.testbit (STEPPING_MASK cfg) i = false ->
     Z.testbit (rd (STEPPING_PORT cfg) (SIG_OUTPUT_COMPARE1A cfg s)) i
     = Z.testbit (rd (STEPPING_PORT cfg)
                     (wr PORTD (wrap8 (Z.land (rd PORTD s) (Z.lnot (Z.shiftl 1 3)))) s)) i
       || xorb (Z.testbit (step_buffer s !!! Z.to_nat (step_buffer_tail s)) i)
               (Z.testbit (STEPPING_INVERT_MASK cfg) i)) /\
  rd TCNT2 (SIG_OUTPUT_COMPARE1A cfg s)
  = wrap8 (- (((STEP_PULSE_MICROSECONDS cfg - 4) * TICKS_PER_MICROSECOND cfg) ÷ 8)) /\
  (forall r, r <> PORTD -> r <> STEPPING_PORT cfg -> r <> TCNT2 ->
     rd r (SIG_OUTPUT_COMPARE1A cfg s) = rd r s).
Proof.
  intros Hne Hm Hport Hi. rewrite (SIG_OUTPUT_COMPARE1A_step cfg s Hne Hm). cbv zeta.
  set (s0 := wr PORTD _ s).
  set (popped := step_buffer s !!! Z.to_nat (step_buffer_tail s)).
  assert (Hvalue : forall v1 v2 v3 r,
    rd r (set_step_buffer_tail v3 (wr TCNT2 v2 (wr (STEPPING_PORT cfg) v1
           (wr (STEPPING_PORT cfg) (wrap8 (Z.lor (Z.land (rd (STEPPING_PORT cfg) s0)
              (Z.lnot (DIRECTION_MASK cfg)))
              (Z.land (wrap8 (Z.lxor popped (STEPPING_INVERT_MASK cfg))) (DIRECTION_MASK cfg))))
              s0))))
    = if decide (r = TCNT2) then v2
      else if decide (r = STEPPING_PORT cfg) then v1 else rd r s0).
  { intros v1 v2 v3 r. unfold rd, wr, set_step_buffer_tail. simpl.
    destruct (decide (r = TCNT2)); [reflexivity|].
    destruct (decide (r = STEPPING_PORT cfg)); reflexivity. }
  rewrite !Hvalue.
  destruct (decide (STEPPING_PORT cfg = TCNT2)); [contradiction|].
  destruct (decide (STEPPING_PORT cfg = STEPPING_PORT cfg)); [|contradiction].
  destruct (decide (TCNT2 = TCNT2)); [|contradiction].
  rewrite rd_wr_same.
  assert (Hbit : Z.testbit (wrap8 (Z.lor (Z.land (wrap8 (Z.lor
            (Z.land (rd (STEPPING_PORT cfg) s0) (Z.lnot (DIRECTION_MASK cfg)))
            (Z.land (wrap8 (Z.lxor popped (STEPPING_INVERT_MASK cfg))) (DIRECTION_MASK cfg))))
            (Z.lnot (STEP_MASK cfg)))
            (wrap8 (Z.lxor popped (STEPPING_INVERT_MASK cfg))))) i
          = (if Z.testbit (STEP_MASK cfg) i || Z.testbit (DIRECTION_MASK cfg) i
             then xorb (Z.testbit popped i) (Z.testbit (STEPPING_INVERT_MASK cfg) i)
             else Z.testbit (rd (STEPPING_PORT cfg) s0) i
                  || xorb (Z.testbit popped i) (Z.testbit (STEPPING_INVERT_MASK cfg) i))).
  { repeat (progress (rewrite ?wrap8_testbit, ?Z.lor_spec, ?Z.land_spec, ?Z.lnot_spec,
                        ?Z.lxor_spec by lia)).
    destruct (Z.testbit (STEP_MASK cfg) i), (Z.testbit (DIRECTION_MASK cfg) i),
      (Z.testbit (rd (STEPPING_PORT cfg) s0) i), (Z.testbit popped i),
      (Z.testbit (STEPPING_INVERT_MASK cfg) i); reflexivity. }
  assert (Hmask : Z.testbit (STEPPING_MASK cfg) i
                  = Z.testbit (STEP_MASK cfg) i || Z.testbit (DIRECTION_MASK cfg) i).
  { unfold STEPPING_MASK. apply Z.lor_spec. }
  split; [intros Hin; rewrite Hbit, <- Hmask, Hin; reflexivity|].
  split; [intros Hout; rewrite Hbit, <- Hmask, Hout; reflexivity|].
  split; [reflexivity|].
  intros r H1 H2 H3. rewrite Hvalue.
  destruct (decide (r = TCNT2)); [contradiction|].
  destruct (decide (r = STEPPING_PORT cfg)); [contradiction|].
  subst s0. apply rd_wr_other. exact H1.
Qed.

Lemma cadence_handler_step_output_witness :
  step_buffer_head (write_slot 35 (advance_head sample_state))
    <> step_buffer_tail (write_slot 35 (advance_head sample_state)) /\
  STEPPING_PORT sample_config <> TCNT2 /\ 0 <= 5 < 8 /\
  (Z.testbit (STEPPING_MASK sample_config) 5 = true ->
   Z.testbit (rd (STEPPING_PORT sample_config)
                (SIG_OUTPUT_COMPARE1A sample_config
                   (write_slot 35 (advance_head sample_state)))) 5
   = xorb (Z.testbit (step_buffer (write_slot 35 (advance_head sample_state))
                       !!! Z.to_nat (step_buffer_tail
                                       (write_slot 35 (advance_head sample_state)))) 5)
          (Z.testbit (STEPPING_INVERT_MASK sample_config) 5)).
Proof.
  assert (H1 : step_buffer_head (write_slot 35 (advance_head sample_state))
               <> step_buffer_tail (write_slot 35 (advance_head sample_state)))
    by (vm_compute; discriminate).
  assert (H2 : is_marker (step_buffer (write_slot 35 (advance_head sample_state))
                 !!! Z.to_nat (step_buffer_tail (write_slot 35 (advance_head sample_state))))
               = false) by reflexivity.
  assert (H3 : STEPPING_PORT sample_config <> TCNT2) by discriminate.
  assert (H4 : 0 <= 5 < 8) by lia.
  split; [exact H1|]. split; [exact H3|]. split; [exact H4|].
  apply (cadence_handler_step_output sample_config
           (write_slot 35 (advance_head sample_state)) 5 H1 H2 H3 H4).
Defined.

(** X7.  On a buffer that is not empty the cadence handler consumes exactly
    the oldest resident instruction and keeps the indices in range; it never
    writes the buffer, the head or the mode, and it touches the paces only
    for a marker. *)
Theorem cadence_handler_consumes_oldest cfg s :
  wf s -> step_buffer_head s <> step_buffer_tail s ->
  resident s
  = (step_buffer s !!! Z.to_nat (step_buffer_tail s))
      :: resident (SIG_OUTPUT_COMPARE1A cfg s) /\
  wf (SIG_OUTPUT_COMPARE1A cfg s) /\
  step_buffer (SIG_OUTPUT_COMPARE1A cfg s) = step_buffer s /\
  step_buffer_head (SIG_OUTPUT_COMPARE1A cfg s) = step_buffer_head s /\
  stepper_mode (SIG_OUTPUT_COMPARE1A cfg s) = stepper_mode s /\
  (is_marker (step_buffer s !!! Z.to_nat (step_buffer_tail s)) = false ->
     current_pace (SIG_OUTPUT_COMPARE1A cfg s) = current_pace s /\
     next_pace (SIG_OUTPUT_COMPARE1A cfg s) = next_pace s).
Proof.
  intros Hwf Hne.
  pose proof (SIG_OUTPUT_COMPARE1A_vars cfg s) as (Hb & Hh & Hm & Hrest).
  destruct (Z.eqb_spec (step_buffer_head s) (step_buffer_tail s)); [contradiction|].
  destruct Hrest as [Ht Hpace].
  pose proof (rely_pop s (SIG_OUTPUT_COMPARE1A cfg s) [] Hwf Hne Hb Hh Hm Ht Hpace) as Hr.
  split; [apply resident_pop; assumption|].
  split; [apply Hr|]. split; [exact Hb|]. split; [exact Hh|]. split; [exact Hm|].
  intros Hnm. rewrite Hnm in Hpace. exact Hpace.
Qed.

Lemma cadence_handler_consumes_oldest_witness :
  wf (write_slot 35 (advance_head sample_state)) /\
  step_buffer_head (write_slot 35 (advance_head sample_state))
    <> step_buffer_tail (write_slot 35 (advance_head sample_state)) /\
  wf (SIG_OUTPUT_COMPARE1A sample_config (write_slot 35 (advance_head sample_state))).
Proof.
  assert (H1 : wf (write_slot 35 (advance_head sample_state))).
  { unfold wf. vm_compute. repeat split; try reflexivity; discriminate. }
  assert (H2 : step_buffer_head (write_slot 35 (advance_head sample_state))
               <> step_buffer_tail (write_slot 35 (advance_head sample_state)))
    by (vm_compute; discriminate).
  split; [exact H1|]. split; [exact H2|].
  apply (cadence_handler_consumes_oldest sample_config
           (write_slot 35 (advance_head sample_state)) H1 H2).
Defined.

(** ** Waiting and waking *)

Section Waking.

Context (cfg : config).

Lemma cadence_ticks_cons burst sched :
  cadence_ticks (burst :: sched) = (cadence_ticks [burst] + cadence_ticks sched)%nat.
Proof.
  unfold cadence_ticks. simpl. rewrite app_nil_r, List.filter_app, length_app. reflexivity.
Qed.

Lemma handler_resident_length i s :
  wf s ->
  length (resident (handler cfg i s))
  = (length (resident s) - match i with OC1A => 1 | OVF2 => 0 end)%nat.
Proof.
  intros Hwf. destruct i; simpl handler.
  - pose proof (SIG_OUTPUT_COMPARE1A_vars cfg s) as (Hb & Hh & Hm & Hrest).
    destruct (Z.eqb_spec (step_buffer_head s) (step_buffer_tail s)) as [Heq|Hne].
    + assert (Hv : same_vars s (SIG_OUTPUT_COMPARE1A cfg s)) by (unfold same_vars; tauto).
      rewrite (same_vars_resident _ _ Hv).
      apply (is_empty_length s Hwf) in Heq. rewrite Heq. reflexivity.
    + destruct Hrest as [Ht _].
      rewrite (resident_pop s (SIG_OUTPUT_COMPARE1A cfg s) Hwf Hne Hb Hh Ht).
      simpl. lia.
  - rewrite (same_vars_resident _ _ (SIG_OVERFLOW2_vars cfg s)). lia.
Qed.

Lemma deliver_resident_length burst s l :
  wf s ->
  length (resident (fst (deliver cfg burst (s, l))))
  = (length (resident s) - cadence_ticks [burst])%nat.
Proof.
  revert s l. induction burst as [|i burst IH]; intros s l Hwf.
  - simpl. unfold cadence_ticks. simpl. lia.
  - simpl deliver. unfold fire at 1. simpl fst. simpl snd.
    rewrite IH by (apply (rely_fire cfg i s l Hwf)).
    rewrite handler_resident_length by exact Hwf.
    unfold cadence_ticks. simpl. rewrite !app_nil_r. destruct i; simpl; lia.
Qed.

Lemma interrupts_resident_length burst rest m :
  wf (mem m) ->
  length (resident (mem (interrupts cfg burst rest m)))
  = (length (resident (mem m)) - cadence_ticks [burst])%nat.
Proof. intros Hwf. unfold interrupts. simpl. apply deliver_resident_length. exact Hwf. Qed.

Lemma interrupts_head burst rest m :
  wf (mem m) ->
  step_buffer_head (mem (interrupts cfg burst rest m)) = step_buffer_head (mem m).
Proof. intros Hwf. destruct (evolves_interrupts cfg burst rest m Hwf) as [Hr _]. apply Hr. Qed.

(** Of [sleep_while] as it is defined, waking at every burst: a loop that
    sleeps while more than [n] instructions are resident returns exactly
    when enough cadence interrupts are to come.  The theorems use the
    direction that holds of the program whatever wake-up it loses: a return
    needs that many interrupts. *)
Lemma sleep_while_returns cond n h sched m :
  (forall s, wf s -> step_buffer_head s = h ->
     (cond s = true <-> (n < length (resident s))%nat)) ->
  wf (mem m) -> step_buffer_head (mem m) = h ->
  (returned (sleep_while cfg cond sched m) = true <->
   (length (resident (mem m)) <= n + cadence_ticks sched)%nat).
Proof.
  intros Hcond. revert m. induction sched as [|burst rest IH]; intros m Hwf Hh; simpl.
  - change (cadence_ticks []) with 0%nat.
    destruct (cond (mem m)) eqn:Hc; simpl.
    + apply (Hcond _ Hwf Hh) in Hc. split; [discriminate|lia].
    + split; [|reflexivity]. intros _.
      destruct (Nat.le_gt_cases (length (resident (mem m))) n) as [Hle|Hgt]; [lia|].
      apply (Hcond _ Hwf Hh) in Hgt. congruence.
  - rewrite cadence_ticks_cons.
    destruct (cond (mem m)) eqn:Hc.
    + apply (Hcond _ Hwf Hh) in Hc.
      rewrite IH.
      * rewrite interrupts_resident_length by exact Hwf. lia.
      * exact (evolves_wf _ _ (evolves_interrupts cfg burst rest m Hwf)).
      * rewrite interrupts_head by exact Hwf. exact Hh.
    + simpl. split; [|reflexivity]. intros _.
      destruct (Nat.le_gt_cases (length (resident (mem m))) n) as [Hle|Hgt]; [lia|].
      apply (Hcond _ Hwf Hh) in Hgt. congruence.
Qed.

Lemma preempt_returns m : exists m', preempt cfg m = Returned tt m'.
Proof. unfold preempt. destruct (pending m); eexists; reflexivity. Qed.

Lemma preempt_while_returns cond n h m :
  (forall s, wf s -> step_buffer_head s = h ->
     (cond s = true <-> (n < length (resident s))%nat)) ->
  wf (mem m) -> step_buffer_head (mem m) = h ->
  (returned ((preempt cfg;; while_asleep cfg cond) m) = true <->
   (length (resident (mem m)) <= n + cadence_ticks (pending m))%nat).
Proof.
  intros Hcond Hwf Hh. unfold mbind, M_bind, preempt, while_asleep.
  destruct (pending m) as [|burst rest] eqn:Hp.
  - rewrite Hp. apply sleep_while_returns with (h := h); assumption.
  - simpl pending. rewrite cadence_ticks_cons.
    rewrite (sleep_while_returns cond n h rest (interrupts cfg burst rest m) Hcond).
    + rewrite interrupts_resident_length by exact Hwf. lia.
    + exact (evolves_wf _ _ (evolves_interrupts cfg burst rest m Hwf)).
    + rewrite interrupts_head by exact Hwf. exact Hh.
Qed.

Lemma st_buffer_step_returned b m :
  running cfg (mem m) ->
  returned (st_buffer_step cfg b m)
  = returned ((preempt cfg;;
               while_asleep cfg (fun s => step_buffer_tail s =?
                 Z.rem (step_buffer_head (mem m) + 1) STEP_BUFFER_SIZE)) m).
Proof.
  intros Hrun. unfold running in Hrun.
  unfold st_buffer_step, mbind, M_bind, load, mret, M_ret.
  rewrite Hrun, Z.eqb_refl. change (negb true) with false. cbv beta iota zeta.
  destruct (preempt_returns m) as (ma & ->).
  destruct (while_asleep cfg _ ma) as [[] mb|mb]; [|reflexivity].
  destruct (preempt_returns mb) as (mc & ->). unfold store at 1.
  match goal with |- context [preempt cfg ?m] => destruct (preempt_returns m) as (md & ->) end.
  reflexivity.
Qed.

Lemma full_condition h s :
  wf s -> step_buffer_head s = h ->
  ((step_buffer_tail s =? Z.rem (h + 1) STEP_BUFFER_SIZE) = true
   <-> (98 < length (resident s))%nat).
Proof.
  intros Hwf <-. pose proof (is_full_length s Hwf) as Hfull.
  pose proof (resident_length s Hwf) as Hlen. destruct Hwf as (_ & Hh & Ht).
  unfold is_full, STEP_BUFFER_SIZE in *. rewrite Z.rem_mod_nonneg by lia.
  rewrite Z.eqb_eq. split.
  - intros H. assert (length (resident s) = 99%nat) by (apply Hfull; lia). lia.
  - intros H. assert (Hl : length (resident s) = 99%nat) by zmod.
    apply Hfull in Hl. lia.
Qed.

Lemma empty_condition h s :
  wf s -> step_buffer_head s = h ->
  (negb (step_buffer_tail s =? step_buffer_head s) = true
   <-> (0 < length (resident s))%nat).
Proof.
  intros Hwf _. pose proof (is_empty_length s Hwf) as He. unfold is_empty in He.
  rewrite negb_true_iff, Z.eqb_neq. split.
  - intros H. destruct (length (resident s)); [|lia]. exfalso. apply H. symmetry. tauto.
  - intros H Heq. symmetry in Heq. apply He in Heq. lia.
Qed.

End Waking.

(** X8.  While Running, [st_buffer_step] on a full buffer depends on the
    cadence handler: it returns only if a cadence interrupt is still to
    come, and when none is it sleeps for ever with the buffer full, nothing
    written and nothing executed.  With room in the buffer it returns. *)
Theorem st_buffer_step_waits_for_cadence cfg b m :
  wf (mem m) -> running cfg (mem m) ->
  (returned (st_buffer_step cfg b m) = true ->
   ~ is_full (mem m) \/ (0 < cadence_ticks (pending m))%nat) /\
  (~ is_full (mem m) -> returned (st_buffer_step cfg b m) = true) /\
  (is_full (mem m) -> cadence_ticks (pending m) = 0%nat ->
     returned (st_buffer_step cfg b m) = false /\
     is_full (mem (final (st_buffer_step cfg b m))) /\
     step_buffer (mem (final (st_buffer_step cfg b m))) = step_buffer (mem m) /\
     step_buffer_head (mem (final (st_buffer_step cfg b m))) = step_buffer_head (mem m) /\
     executed (final (st_buffer_step cfg b m)) = executed m).
Proof.
  intros Hwf Hrun.
  assert (Hiff : returned (st_buffer_step cfg b m) = true <->
                 ~ is_full (mem m) \/ (0 < cadence_ticks (pending m))%nat).
  { rewrite (st_buffer_step_returned cfg b m Hrun).
    rewrite (preempt_while_returns cfg _ 98%nat (step_buffer_head (mem m)) m
               (full_condition (step_buffer_head (mem m))) Hwf eq_refl).
    rewrite (is_full_length (mem m) Hwf).
    pose proof (resident_length (mem m) Hwf) as Hlen. destruct Hwf as (_ & Hh & Ht).
    unfold STEP_BUFFER_SIZE in *.
    assert (length (resident (mem m)) < 100)%nat by zmod. lia. }
  split; [apply Hiff|]. split; [intros Hnf; apply Hiff; left; exact Hnf|].
  intros Hfull Hticks.
  assert (Hret : returned (st_buffer_step cfg b m) = false).
  { destruct (returned (st_buffer_step cfg b m)); [|reflexivity].
    destruct (proj1 Hiff eq_refl) as [Hnf|Hpos]; [contradiction|lia]. }
  destruct (st_buffer_step_spec cfg b m Hwf Hrun) as (_ & Hadv & Hblocked & _).
  destruct (Hblocked Hret) as (Hf' & Hb' & Hh').
  rewrite Hret in Hadv. destruct Hadv as (Hwf' & _ & [k Hk] & Hq & _).
  split; [exact Hret|]. split; [exact Hf'|]. split; [exact Hb'|]. split; [exact Hh'|].
  unfold stream in Hq. rewrite app_nil_r in Hq.
  apply (is_full_length _ Hwf) in Hfull. apply (is_full_length _ Hwf') in Hf'.
  apply (f_equal (@length Z)) in Hq. rewrite !length_app, !length_map, Hk, length_app in Hq.
  destruct k; [rewrite Hk, app_nil_r; reflexivity|simpl in Hq; lia].
Qed.

Lemma st_buffer_step_waits_for_cadence_witness :
  wf (mem (sample_machine sample_schedule)) /\
  running sample_config (mem (sample_machine sample_schedule)) /\
  returned (st_buffer_step sample_config 7 (sample_machine sample_schedule)) = true.
Proof.
  destruct (sample_machine_at_rest sample_schedule) as (Hwf & Hrun & _).
  split; [exact Hwf|]. split; [exact Hrun|].
  apply (st_buffer_step_waits_for_cadence sample_config 7 (sample_machine sample_schedule)
           Hwf Hrun).
  unfold is_full. simpl. unfold STEP_BUFFER_SIZE. intros H. discriminate H.
Defined.

(** ** Flushing and synchronizing *)

Lemma sei_sets_flag x : Z.testbit (sei x SREG) SREG_I = true.
Proof.
  unfold sei, wr_setup, SREG_I. destruct (decide (SREG = SREG)); [|contradiction].
  rewrite wrap8_testbit by lia. rewrite Z.lor_spec, testbit_single by lia.
  apply orb_true_r.
Qed.

Lemma resident_flushed s :
  resident (set_step_buffer_tail (step_buffer_head s) s) = [].
Proof. unfold resident. simpl. rewrite Z.sub_diag. reflexivity. Qed.

Lemma st_flush_spec x m :
  wf (mem m) ->
  returned (st_flush x m) = true /\
  resident (mem (final (st_flush x m))) = [] /\
  is_empty (mem (final (st_flush x m))) /\
  wf (mem (final (st_flush x m))) /\
  executed (final (st_flush x m)) = executed m /\
  pending (final (st_flush x m)) = pending m /\
  step_buffer (mem (final (st_flush x m))) = step_buffer (mem m) /\
  step_buffer_head (mem (final (st_flush x m))) = step_buffer_head (mem m) /\
  current_pace (mem (final (st_flush x m))) = current_pace (mem m) /\
  next_pace (mem (final (st_flush x m))) = next_pace (mem m) /\
  stepper_mode (mem (final (st_flush x m))) = stepper_mode (mem m) /\
  (forall r, rd r (mem (final (st_flush x m))) = rd r (mem m)) /\
  (exists x', value (st_flush x m) = Some x' /\ Z.testbit (x' SREG) SREG_I = true).
Proof.
  intros (Hlen & Hh & Ht).
  unfold st_flush, mbind, M_bind, store, mret, M_ret. simpl.
  split; [reflexivity|]. split; [apply resident_flushed|].
  split; [reflexivity|]. split; [unfold wf; simpl; tauto|].
  repeat (split; [reflexivity|]).
  eexists. split; [reflexivity|]. apply sei_sets_flag.
Qed.

(** X9.  [st_flush] returns at once, whatever the mode: it makes the tail
    equal to the head, so nothing is resident any more, and what was
    resident is never executed; it serves no interrupt and touches neither
    the head, the buffer, the paces (a pending pace stays pending), the mode
    nor the registers; and it leaves the global interrupt flag set, also when
    it was clear before. *)
Theorem st_flush_discards x m :
  wf (mem m) ->
  returned (st_flush x m) = true /\
  resident (mem (final (st_flush x m))) = [] /\
  is_empty (mem (final (st_flush x m))) /\
  wf (mem (final (st_flush x m))) /\
  executed (final (st_flush x m)) = executed m /\
  pending (final (st_flush x m)) = pending m /\
  step_buffer (mem (final (st_flush x m))) = step_buffer (mem m) /\
  step_buffer_head (mem (final (st_flush x m))) = step_buffer_head (mem m) /\
  current_pace (mem (final (st_flush x m))) = current_pace (mem m) /\
  next_pace (mem (final (st_flush x m))) = next_pace (mem m) /\
  stepper_mode (mem (final (st_flush x m))) = stepper_mode (mem m) /\
  (forall r, rd r (mem (final (st_flush x m))) = rd r (mem m)) /\
  (exists x', value (st_flush x m) = Some x' /\ Z.testbit (x' SREG) SREG_I = true).
Proof.
  intros (Hlen & Hh & Ht).
  unfold st_flush, mbind, M_bind, store, mret, M_ret. simpl.
  split; [reflexivity|]. split; [apply resident_flushed|].
  split; [reflexivity|]. split; [unfold wf; simpl; tauto|].
  repeat (split; [reflexivity|]).
  eexists. split; [reflexivity|]. apply sei_sets_flag.
Qed.

Lemma st_flush_discards_witness :
  wf (mem (sample_machine [])) /\
  resident (mem (final (st_flush sample_setup (sample_machine [])))) = [].
Proof.
  destruct (sample_machine_at_rest []) as (Hwf & _).
  split; [exact Hwf|].
  apply (st_flush_discards sample_setup (sample_machine []) Hwf).
Defined.

Section Deadlock.

Context (cfg : config).

Lemma sleep_while_pending_pace sched m :
  wf (mem m) -> markers (resident (mem m)) = 0%nat -> next_pace (mem m) <> 0 ->
  returned (sleep_while cfg (fun s => negb (next_pace s =? 0)) sched m) = false.
Proof.
  revert m. induction sched as [|burst rest IH]; intros m Hwf Hq Hn; simpl.
  - destruct (Z.eqb_spec (next_pace (mem m)) 0); [contradiction|]. reflexivity.
  - destruct (Z.eqb_spec (next_pace (mem m)) 0); [contradiction|]. simpl negb. cbv iota.
    pose proof (evolves_interrupts cfg burst rest m Hwf) as Hev.
    destruct (evolves_quiet _ _ Hev Hq) as (Hq' & _ & Hn').
    apply IH; [exact (evolves_wf _ _ Hev)|exact Hq'|congruence].
Qed.

Lemma st_buffer_pace_stuck p m :
  wf (mem m) -> running cfg (mem m) -> current_pace (mem m) <> p ->
  markers (resident (mem m)) = 0%nat -> next_pace (mem m) <> 0 ->
  returned (st_buffer_pace cfg p m) = false.
Proof.
  intros Hwf Hrun Hcur Hq Hn.
  unfold st_buffer_pace, mbind, M_bind, load, mret, M_ret.
  unfold running in Hrun. rewrite Hrun, Z.eqb_refl.
  destruct (Z.eqb_spec (current_pace (mem m)) p) as [|_]; [contradiction|].
  change (false || negb true) with false. cbv beta iota.
  destruct (preempt_spec cfg m Hwf) as (ma & -> & Hea).
  destruct (evolves_quiet _ _ Hea Hq) as (Hqa & _ & Hna).
  unfold while_asleep.
  pose proof (sleep_while_pending_pace (pending ma) ma (evolves_wf _ _ Hea) Hqa
                ltac:(congruence)) as Hstuck.
  destruct (sleep_while cfg _ (pending ma) ma) as [[] mb|mb]; [discriminate|reflexivity].
Qed.

End Deadlock.

(** X10.  A flush does not cancel a pending pace change: when [st_flush] is
    called while a pace is pending, it discards the marker and leaves
    [next_pace] set, and from then on every [st_buffer_pace] with a pace
    other than the current one sleeps for ever, whatever interrupts come. *)
Theorem st_flush_strands_pending_pace cfg x m p :
  wf (mem m) -> running cfg (mem m) -> next_pace (mem m) <> 0 ->
  current_pace (mem m) <> p ->
  next_pace (mem (final (st_flush x m))) = next_pace (mem m) /\
  returned (st_buffer_pace cfg p (final (st_flush x m))) = false.
Proof.
  intros Hwf Hrun Hn Hcur.
  destruct (st_flush_spec x m Hwf)
    as (_ & Hres & _ & Hwf' & _ & _ & _ & _ & Hc & Hn' & Hm & _).
  split; [exact Hn'|].
  apply st_buffer_pace_stuck.
  - exact Hwf'.
  - unfold running in *. congruence.
  - congruence.
  - rewrite Hres. reflexivity.
  - congruence.
Qed.

Lemma st_flush_strands_pending_pace_witness :
  wf (mem (final (st_buffer_pace sample_config 1000 (sample_machine [])))) /\
  running sample_config
    (mem (final (st_buffer_pace sample_config 1000 (sample_machine [])))) /\
  next_pace (mem (final (st_buffer_pace sample_config 1000 (sample_machine [])))) <> 0 /\
  current_pace (mem (final (st_buffer_pace sample_config 1000 (sample_machine [])))) <> 500 /\
  returned (st_buffer_pace sample_config 500
              (final (st_flush sample_setup
                 (final (st_buffer_pace sample_config 1000 (sample_machine []))))))
  = false.
Proof.
  assert (H1 : wf (mem (final (st_buffer_pace sample_config 1000 (sample_machine []))))).
  { unfold wf. vm_compute. repeat split; try reflexivity; discriminate. }
  assert (H2 : running sample_config
                 (mem (final (st_buffer_pace sample_config 1000 (sample_machine [])))))
    by reflexivity.
  assert (H3 : next_pace (mem (final (st_buffer_pace sample_config 1000
                                        (sample_machine [])))) <> 0)
    by (vm_compute; discriminate).
  assert (H4 : current_pace (mem (final (st_buffer_pace sample_config 1000
                                           (sample_machine [])))) <> 500)
    by (vm_compute; discriminate).
  split; [exact H1|]. split; [exact H2|]. split; [exact H3|]. split; [exact H4|].
  apply (st_flush_strands_pending_pace sample_config sample_setup
           (final (st_buffer_pace sample_config 1000 (sample_machine []))) 500
           H1 H2 H3 H4).
Defined.

Section Synchronize.

Context (cfg : config).

Lemma st_synchronize_running x m :
  running cfg (mem m) ->
  st_synchronize cfg x m
  = match (preempt cfg;;
           while_asleep cfg (fun s => negb (step_buffer_tail s =? step_buffer_head s))) m with
    | Returned _ m' => Returned x m'
    | Asleep m' => Asleep m'
    end.
Proof.
  intros Hrun. unfold running in Hrun.
  unfold st_synchronize, mbind, M_bind, load, mret, M_ret.
  rewrite Hrun, Z.eqb_refl. destruct (preempt cfg m) as [[] ma|ma]; [|reflexivity].
  destruct (while_asleep cfg _ ma) as [[] mb|mb]; reflexivity.
Qed.

Lemma st_synchronize_not_running x m :
  ~ running cfg (mem m) -> st_synchronize cfg x m = st_flush x m.
Proof.
  intros Hrun. unfold running in Hrun.
  unfold st_synchronize, mbind, M_bind, load, mret, M_ret.
  destruct (Z.eqb_spec (stepper_mode (mem m)) (STEPPER_MODE_RUNNING cfg)); [contradiction|].
  reflexivity.
Qed.

Lemma preempt_while_spec cond m :
  wf (mem m) ->
  match (preempt cfg;; while_asleep cfg cond) m with
  | Returned _ m' => evolves m m' /\ cond (mem m') = false
  | Asleep m' => evolves m m' /\ cond (mem m') = true
  end.
Proof.
  intros Hwf. unfold mbind, M_bind.
  destruct (preempt_spec cfg m Hwf) as (ma & -> & Hea).
  unfold while_asleep.
  pose proof (sleep_while_spec cfg cond (pending ma) ma (evolves_wf _ _ Hea)) as Hloop.
  destruct (sleep_while cfg cond (pending ma) ma) as [[] mb|mb];
    destruct Hloop as [Heb Hc]; (split; [eapply evolves_trans; eassumption|exact Hc]).
Qed.

(** From an empty buffer the interrupts change no variable and execute
    nothing. *)
Lemma evolves_empty m m' :
  wf (mem m) -> evolves m m' -> is_empty (mem m) ->
  executed m' = executed m /\ same_vars (mem m) (mem m') /\ is_empty (mem m').
Proof.
  intros Hwf [Hr Hi] He. pose proof (rely_lengths _ _ _ _ Hr) as [Hlen Hle].
  apply (is_empty_length _ Hwf) in He.
  assert (Hwf' : wf (mem m')) by apply Hr.
  assert (Hres' : length (resident (mem m')) = 0%nat) by lia.
  assert (Hlog : executed m' = executed m).
  { destruct Hr as (_ & _ & _ & _ & [k Hk] & _).
    rewrite Hk in Hlen. rewrite length_app in Hlen.
    destruct k; [rewrite Hk, app_nil_r; reflexivity|simpl in Hlen; lia]. }
  split; [exact Hlog|].
  assert (Hempty' : is_empty (mem m')) by (apply is_empty_length; assumption).
  split; [|exact Hempty'].
  destruct Hr as (_ & Hb & Hh & Hm & _ & _ & _ & _ & Hk).
  destruct Hk as [Hc Hn]; [rewrite Hlog; reflexivity|].
  unfold same_vars. unfold is_empty in *.
  apply (is_empty_length _ Hwf) in He. unfold is_empty in He.
  repeat split; try assumption. congruence.
Qed.

End Synchronize.


(** X11.  While Running, [st_synchronize] returns only if at least as many
    cadence interrupts were to come as instructions are resident; on an
    empty buffer it returns.  When it returns the buffer is empty and every
    instruction that was resident has been executed, in order and each step
    under its pace; when it sleeps for ever nothing has been lost. *)
Theorem st_synchronize_drains cfg x m :
  wf (mem m) -> running cfg (mem m) ->
  (returned (st_synchronize cfg x m) = true ->
   (length (resident (mem m)) <= cadence_ticks (pending m))%nat) /\
  (is_empty (mem m) -> returned (st_synchronize cfg x m) = true) /\
  (returned (st_synchronize cfg x m) = true ->
     value (st_synchronize cfg x m) = Some x /\
     is_empty (mem (final (st_synchronize cfg x m))) /\
     map fst (executed (final (st_synchronize cfg x m)))
     = map fst (executed m) ++ resident (mem m) /\
     steps (executed (final (st_synchronize cfg x m)))
     = steps (executed m) ++ upcoming (mem m)) /\
  (returned (st_synchronize cfg x m) = false ->
     map fst (executed (final (st_synchronize cfg x m)))
       ++ resident (mem (final (st_synchronize cfg x m)))
     = map fst (executed m) ++ resident (mem m)) /\
  step_buffer (mem (final (st_synchronize cfg x m))) = step_buffer (mem m) /\
  step_buffer_head (mem (final (st_synchronize cfg x m))) = step_buffer_head (mem m).
Proof.
  intros Hwf Hrun. rewrite (st_synchronize_running cfg x m Hrun).
  pose proof (preempt_while_returns cfg _ 0%nat (step_buffer_head (mem m)) m
                (empty_condition (step_buffer_head (mem m))) Hwf eq_refl) as Hiff.
  pose proof (preempt_while_spec cfg
                (fun s => negb (step_buffer_tail s =? step_buffer_head s)) m Hwf) as Hspec.
  assert (Hempty : is_empty (mem m) ->
            (length (resident (mem m)) <= 0 + cadence_ticks (pending m))%nat).
  { intros He0. apply (is_empty_length _ Hwf) in He0. lia. }
  destruct ((preempt cfg;; while_asleep cfg _) m) as [[] m'|m'];
    simpl in *; destruct Hspec as [[Hr Hi] Hc].
  - split; [apply Hiff|]. split; [reflexivity|].
    assert (Hwf' : wf (mem m')) by apply Hr.
    assert (He : is_empty (mem m')).
    { apply negb_false_iff, Z.eqb_eq in Hc. unfold is_empty. congruence. }
    pose proof (upcoming_empty _ Hwf' He) as Hup.
    apply (is_empty_length _ Hwf') in He.
    assert (Hres : resident (mem m') = []) by (destruct (resident (mem m')); [reflexivity|discriminate]).
    destruct Hr as (_ & Hb & Hh & _ & _ & Hq & Hu & _).
    rewrite Hres, app_nil_r in Hq. rewrite Hup, app_nil_r in Hu.
    split.
    + intros _. split; [reflexivity|]. split; [apply is_empty_length; assumption|].
      split; assumption.
    + split; [discriminate|]. split; assumption.
  - split; [apply Hiff|]. split; [intros He0; apply Hiff, Hempty, He0|].
    split; [discriminate|].
    destruct Hr as (_ & Hb & Hh & _ & _ & Hq & _).
    split; [intros _; exact Hq|]. split; assumption.
Qed.

Lemma st_synchronize_drains_witness :
  wf (mem (final (run sample_config sample_program (sample_machine [])))) /\
  running sample_config (mem (final (run sample_config sample_program (sample_machine [])))) /\
  (returned (st_synchronize sample_config sample_setup
               (final (run sample_config sample_program (sample_machine [])))) = true ->
   (length (resident (mem (final (run sample_config sample_program (sample_machine [])))))
    <= cadence_ticks (pending (final (run sample_config sample_program
                                        (sample_machine [])))))%nat).
Proof.
  assert (H1 : wf (mem (final (run sample_config sample_program (sample_machine []))))).
  { unfold wf. vm_compute. repeat split; try reflexivity; discriminate. }
  assert (H2 : running sample_config
                 (mem (final (run sample_config sample_program (sample_machine [])))))
    by reflexivity.
  split; [exact H1|]. split; [exact H2|].
  apply (st_synchronize_drains sample_config sample_setup
           (final (run sample_config sample_program (sample_machine []))) H1 H2).
Defined.

(** X12.  While not Running, [st_synchronize] does not wait: it returns at
    once having flushed, so that what was resident is discarded, not
    executed. *)
Theorem st_synchronize_stopped_flushes cfg x m :
  wf (mem m) -> stepper_mode (mem m) <> STEPPER_MODE_RUNNING cfg ->
  returned (st_synchronize cfg x m) = true /\
  is_empty (mem (final (st_synchronize cfg x m))) /\
  resident (mem (final (st_synchronize cfg x m))) = [] /\
  executed (final (st_synchronize cfg x m)) = executed m /\
  pending (final (st_synchronize cfg x m)) = pending m /\
  step_buffer_head (mem (final (st_synchronize cfg x m))) = step_buffer_head (mem m).
Proof.
  intros Hwf Hmode. rewrite (st_synchronize_not_running cfg x m Hmode).
  destruct (st_flush_spec x m Hwf) as (H1 & H2 & H3 & _ & H4 & H5 & _ & H6 & _).
  tauto.
Qed.

Lemma st_synchronize_stopped_flushes_witness :
  wf (mem stopped_machine) /\
  stepper_mode (mem stopped_machine) <> STEPPER_MODE_RUNNING sample_config /\
  returned (st_synchronize sample_config sample_setup stopped_machine) = true.
Proof.
  assert (H1 : wf (mem stopped_machine)).
  { unfold wf. vm_compute. repeat split; try reflexivity; discriminate. }
  assert (H2 : stepper_mode (mem stopped_machine) <> STEPPER_MODE_RUNNING sample_config)
    by (simpl; lia).
  split; [exact H1|]. split; [exact H2|].
  apply (st_synchronize_stopped_flushes sample_config sample_setup stopped_machine H1 H2).
Defined.

(** ** Set-up and life cycle *)

Section Stability.

Context (cfg : config).

Lemma deliver_stable P burst s l :
  handler_stable cfg P -> P s -> P (fst (deliver cfg burst (s, l))).
Proof.
  intros Hst. revert s l. induction burst as [|i burst IH]; intros s l HP; [exact HP|].
  simpl deliver. unfold fire at 1. simpl fst. apply IH. apply Hst. exact HP.
Qed.

Lemma preempt_stable P m m' :
  handler_stable cfg P -> P (mem m) -> preempt cfg m = Returned tt m' -> P (mem m').
Proof.
  intros Hst HP. unfold preempt. destruct (pending m) as [|burst rest]; intros Heq;
    inversion Heq; subst; [exact HP|].
  unfold interrupts. simpl. apply deliver_stable; assumption.
Qed.

Lemma evolves_store f m :
  wf (mem m) -> same_vars (mem m) (f (mem m)) -> evolves m (with_mem (f (mem m)) m).
Proof.
  intros Hwf Hv. split; [|reflexivity]. simpl. apply rely_same_vars; assumption.
Qed.

(** Stepping through a foreground function: a preemption point, then a
    store. *)
Lemma preempt_bind {A : Type} (k : M A) (Q : outcome A -> Prop) P m m0 :
  handler_stable cfg P -> evolves m0 m -> P (mem m) ->
  (forall m', evolves m0 m' -> P (mem m') -> Q (k m')) ->
  Q ((preempt cfg;; k) m).
Proof.
  intros Hst Hev HP Hk. unfold mbind, M_bind.
  destruct (preempt_spec cfg m (evolves_wf _ _ Hev)) as (m' & Hp & Hev').
  rewrite Hp. apply Hk.
  - eapply evolves_trans; eassumption.
  - exact (preempt_stable P m m' Hst HP Hp).
Qed.

Lemma store_bind {A : Type} f (k : M A) (Q : outcome A -> Prop) m :
  Q (k (with_mem (f (mem m)) m)) -> Q ((store f;; k) m).
Proof. intros H. exact H. Qed.

Lemma wr_same_vars r v s : same_vars s (wr r v s).
Proof. unfold same_vars, wr. simpl. tauto. Qed.

(** What a handler leaves of a register. *)
Lemma handler_register i s r :
  r <> STEPPING_PORT cfg -> r <> TCNT2 -> r <> TCCR1B -> r <> OCR1A ->
  (r <> PORTD -> rd r (handler cfg i s) = rd r s) /\
  (forall k, 0 <= k < 8 -> k <> 3 ->
     Z.testbit (rd r (handler cfg i s)) k = Z.testbit (rd r s) k).
Proof.
  intros H1 H2 H3 H4.
  assert (Hpd : forall v, (r <> PORTD -> rd r (wr PORTD v s) = rd r s)).
  { intros v Hr. apply rd_wr_other. exact Hr. }
  assert (Hcases : rd r (handler cfg i s) = rd r s \/
                   (r = PORTD /\
                    (rd r (handler cfg i s) = wrap8 (Z.land (rd PORTD s) (Z.lnot (Z.shiftl 1 3)))
                     \/ rd r (handler cfg i s) = wrap8 (Z.lor (rd PORTD s) (Z.shiftl 1 3))))).
  { destruct i; simpl handler.
    - unfold SIG_OUTPUT_COMPARE1A.
      destruct (step_buffer_head s =? step_buffer_tail s); simpl negb; cbv iota.
      + destruct (decide (r = PORTD)) as [->|Hr]; [|left; apply rd_wr_other; exact Hr].
        right. split; [reflexivity|]. right. apply rd_wr_same.
      + cbv zeta. simpl step_buffer. simpl step_buffer_tail.
        destruct (step_buffer s !!! Z.to_nat (step_buffer_tail s) =? PACE_CHANGE_MARKER).
        * unfold config_pace_timer.
          destruct (pace_ceiling_prescaler cfg _) as [c p].
          unfold rd, wr, set_step_buffer_tail, set_next_pace, set_current_pace. simpl.
          destruct (decide (r = OCR1A)); [contradiction|].
          destruct (decide (r = TCCR1B)); [contradiction|].
          destruct (decide (r = PORTD)) as [->|Hr]; [|left; reflexivity].
          right. split; [reflexivity|]. left. reflexivity.
        * unfold rd, wr, set_step_buffer_tail. simpl.
          destruct (decide (r = TCNT2)); [contradiction|].
          destruct (decide (r = STEPPING_PORT cfg)); [contradiction|].
          destruct (decide (r = PORTD)) as [->|Hr]; [|left; reflexivity].
          right. split; [reflexivity|]. left. reflexivity.
    - left. unfold SIG_OVERFLOW2. apply rd_wr_other. exact H1. }
  split.
  - intros Hr. destruct Hcases as [Hc|[Hc _]]; [exact Hc|contradiction].
  - intros k Hk Hk3. destruct Hcases as [->|[-> [->| ->]]]; [reflexivity| |].
    + rewrite wrap8_testbit by lia. rewrite Z.land_spec, Z.lnot_spec, testbit_single by lia.
      destruct (Z.eqb_spec k 3); [contradiction|]. apply andb_true_r.
    + rewrite wrap8_testbit by lia. rewrite Z.lor_spec, testbit_single by lia.
      destruct (Z.eqb_spec k 3); [contradiction|]. apply orb_false_r.
Qed.

Lemma enable_pin_stable bcfg level :
  enable_pin_apart cfg bcfg ->
  handler_stable cfg (fun s =>
    Z.testbit (rd (STEPPERS_ENABLE_PORT bcfg) s) (STEPPERS_ENABLE_BIT bcfg) = level).
Proof.
  intros (H1 & H2 & H3 & H4 & Hbit & H5) i s HP.
  destruct (handler_register i s (STEPPERS_ENABLE_PORT bcfg) H1 H2 H3 H4) as [Hr Hk].
  destruct (decide (STEPPERS_ENABLE_PORT bcfg = PORTD)) as [Hd|Hd].
  - rewrite Hk by (try apply H5; assumption). exact HP.
  - rewrite Hr by exact Hd. exact HP.
Qed.

(** The mode bits of timer 1 (bits 3 to 7 of TCCR1B). *)
Lemma timer_mode_stable k level :
  STEPPING_PORT cfg <> TCCR1B -> 3 <= k < 8 ->
  handler_stable cfg (fun s => Z.testbit (rd TCCR1B s) k = level).
Proof.
  intros Hport Hk i s HP. rewrite <- HP. clear HP.
  destruct i; simpl handler.
  - unfold SIG_OUTPUT_COMPARE1A.
    destruct (step_buffer_head s =? step_buffer_tail s); simpl negb; cbv iota.
    + rewrite rd_wr_other by discriminate. reflexivity.
    + cbv zeta. simpl step_buffer. simpl step_buffer_tail.
      destruct (step_buffer s !!! Z.to_nat (step_buffer_tail s) =? PACE_CHANGE_MARKER).
      * set (w := wr PORTD _ s).
        change (rd TCCR1B (set_step_buffer_tail _ (set_next_pace 0
                  (config_pace_timer cfg (next_pace w) w))))
          with (rd TCCR1B (config_pace_timer cfg (next_pace w) w)).
        destruct (config_pace_timer_regs cfg (next_pace w) w) as (_ & -> & _).
        assert (Hp : 0 <= snd (pace_ceiling_prescaler cfg (next_pace w)) <= 4).
        { pose proof (pace_ceiling_prescaler_cases cfg (next_pace w)) as Hcases.
          cbv zeta in Hcases.
          destruct Hcases as [[_ E]|[[_ E]|[[_ E]|[[_ E]|[[_ E]|[_ E]]]]]];
            rewrite E; simpl; lia. }
        rewrite clock_select_keeps_mode_bits by lia.
        subst w. rewrite rd_wr_other by discriminate. reflexivity.
      * unfold rd, wr, set_step_buffer_tail. simpl.
        destruct (decide (TCCR1B = STEPPING_PORT cfg)); [congruence|]. reflexivity.
  - unfold SIG_OVERFLOW2. rewrite rd_wr_other by congruence. reflexivity.
Qed.

(** While no marker is resident the handlers leave the registers of
    timer 1 as they are. *)
Lemma quiet_timer_stable v c :
  STEPPING_PORT cfg <> TCCR1B -> STEPPING_PORT cfg <> OCR1A ->
  handler_stable cfg (fun s =>
    wf s /\ markers (resident s) = 0%nat /\ rd TCCR1B s = v /\ rd OCR1A s = c).
Proof.
  intros Hp1 Hp2 i s (Hwf & Hq & Hv & Hc).
  pose proof (rely_fire cfg i s [] Hwf) as Hrel.
  destruct (rely_no_marker _ _ _ _ Hrel Hq) as (Hq' & _).
  split; [apply Hrel|]. split; [exact Hq'|].
  rewrite <- Hv, <- Hc. clear Hrel Hq' Hv Hc.
  destruct i; simpl handler.
  - destruct (Z.eq_dec (step_buffer_head s) (step_buffer_tail s)) as [Heq|Hne].
    + unfold SIG_OUTPUT_COMPARE1A. rewrite Heq, Z.eqb_refl. simpl negb. cbv iota.
      rewrite !rd_wr_other by discriminate. split; reflexivity.
    + pose proof (SIG_OUTPUT_COMPARE1A_vars cfg s) as (Hb & Hh & _ & Hrest).
      destruct (Z.eqb_spec (step_buffer_head s) (step_buffer_tail s)); [contradiction|].
      destruct Hrest as [Ht _].
      pose proof (resident_pop s _ Hwf Hne Hb Hh Ht) as Hres.
      rewrite Hres, markers_cons in Hq.
      destruct (is_marker (step_buffer s !!! Z.to_nat (step_buffer_tail s))) eqn:Hm; [lia|].
      rewrite (SIG_OUTPUT_COMPARE1A_step cfg s Hne Hm). cbv zeta.
      unfold rd, wr, set_step_buffer_tail. simpl.
      destruct (decide (TCCR1B = STEPPING_PORT cfg)); [congruence|].
      destruct (decide (OCR1A = STEPPING_PORT cfg)); [congruence|].
      split; reflexivity.
  - unfold SIG_OVERFLOW2. rewrite !rd_wr_other by congruence. split; reflexivity.
Qed.

(** The course of [config_pace_timer] in the foreground: what the handlers
    keep after the write of TCCR1B, and then after that of OCR1A, holds
    when [current_pace] is stored. *)
Lemma config_pace_timer_foreground_course microseconds m (P1 P2 : state -> Prop) :
  wf (mem m) -> handler_stable cfg P1 -> handler_stable cfg P2 ->
  P1 (wr TCCR1B
        (wrap8 (Z.lor (Z.land (rd TCCR1B (mem m)) (Z.lnot (Z.shiftl 0x07 CS10)))
                      (Z.shiftl (snd (pace_ceiling_prescaler cfg microseconds) + 1) CS10)))
        (mem m)) ->
  (forall s, P1 s -> P2 (wr OCR1A (fst (pace_ceiling_prescaler cfg microseconds)) s)) ->
  exists m3,
    evolves m m3 /\ P2 (mem m3) /\
    config_pace_timer_foreground cfg microseconds m
    = Returned tt (with_mem (set_current_pace microseconds (mem m3)) m3).
Proof.
  intros Hwf Hs1 Hs2 H1 H12.
  unfold config_pace_timer_foreground. cbv zeta.
  unfold mbind, M_bind. unfold store at 1.
  match goal with |- context [preempt cfg ?ma] => set (m1 := ma) end.
  assert (He1 : evolves m m1).
  { apply (evolves_store _ m Hwf). apply wr_same_vars. }
  destruct (preempt_spec cfg m1 (evolves_wf _ _ He1)) as (m2 & Hp2 & He2).
  pose proof (preempt_stable P1 m1 m2 Hs1 H1 Hp2) as HP2.
  rewrite Hp2. unfold store at 1.
  match goal with |- context [preempt cfg ?ma] => set (m2' := ma) end.
  assert (He2' : evolves m2 m2').
  { apply (evolves_store _ m2 (evolves_wf _ _ He2)). apply wr_same_vars. }
  destruct (preempt_spec cfg m2' (evolves_wf _ _ He2')) as (m3 & Hp3 & He3).
  pose proof (preempt_stable P2 m2' m3 Hs2 (H12 _ HP2) Hp3) as HP3.
  rewrite Hp3. exists m3.
  split; [|split; [exact HP3|reflexivity]].
  eapply evolves_trans; [exact He1|]. eapply evolves_trans; [exact He2|].
  eapply evolves_trans; [exact He2'|exact He3].
Qed.

(** Without interrupts the foreground's [config_pace_timer] is the
    handler's. *)
Lemma config_pace_timer_foreground_quiet microseconds m :
  pending m = [] ->
  config_pace_timer_foreground cfg microseconds m
  = Returned tt (with_mem (config_pace_timer cfg microseconds (mem m)) m).
Proof.
  intros Hp. unfold config_pace_timer_foreground, config_pace_timer.
  destruct (pace_ceiling_prescaler cfg microseconds) as [c p]. cbv zeta.
  unfold mbind, M_bind, store, preempt, with_mem. simpl. rewrite Hp. simpl. reflexivity.
Qed.

Lemma handler_stable_true : handler_stable cfg (fun _ => True).
Proof. intros i s _. exact I. Qed.

Lemma handler_stable_and P Q :
  handler_stable cfg P -> handler_stable cfg Q -> handler_stable cfg (fun s => P s /\ Q s).
Proof. intros HP HQ i s [H1 H2]. split; [apply HP|apply HQ]; assumption. Qed.

End Stability.

Section LifeCycle.

Context (cfg : config) (bcfg : board_config).

Lemma set_bit_testbit v k : 0 <= k < 8 -> Z.testbit (wrap8 (Z.lor v (Z.shiftl 1 k))) k = true.
Proof.
  intros Hk. rewrite wrap8_testbit by lia. rewrite Z.lor_spec, testbit_single by lia.
  rewrite Z.eqb_refl. apply orb_true_r.
Qed.

Lemma clear_bit_testbit v k :
  0 <= k < 8 -> Z.testbit (wrap8 (Z.land v (Z.lnot (Z.shiftl 1 k)))) k = false.
Proof.
  intros Hk. rewrite wrap8_testbit by lia.
  rewrite Z.land_spec, Z.lnot_spec, testbit_single by lia.
  rewrite Z.eqb_refl. apply andb_false_r.
Qed.

Lemma clear_bit_other v k j :
  0 <= j < 8 -> j <> k ->
  Z.testbit (wrap8 (Z.land v (Z.lnot (Z.shiftl 1 k)))) j = Z.testbit v j.
Proof.
  intros Hj Hne. rewrite wrap8_testbit by lia.
  rewrite Z.land_spec, Z.lnot_spec, testbit_single by lia.
  destruct (Z.eqb_spec j k); [contradiction|]. apply andb_true_r.
Qed.

Lemma set_bit_other v k j :
  0 <= j < 8 -> j <> k ->
  Z.testbit (wrap8 (Z.lor v (Z.shiftl 1 k))) j = Z.testbit v j.
Proof.
  intros Hj Hne. rewrite wrap8_testbit by lia.
  rewrite Z.lor_spec, testbit_single by lia.
  destruct (Z.eqb_spec j k); [contradiction|]. apply orb_false_r.
Qed.

(** The course of [st_start]: interrupts, the enable pin raised, interrupts,
    and the mode set last. *)
Lemma st_start_course x m :
  wf (mem m) ->
  exists m1,
    evolves m m1 /\
    (enable_pin_apart cfg bcfg ->
     Z.testbit (rd (STEPPERS_ENABLE_PORT bcfg) (mem m1)) (STEPPERS_ENABLE_BIT bcfg) = true) /\
    st_start cfg bcfg x m
    = Returned
        (wr_setup TIMSK2
           (wrap8 (Z.lor (wr_setup TIMSK1 (wrap8 (Z.lor (x TIMSK1) (Z.shiftl 1 OCIE1A))) x TIMSK2)
                         (Z.shiftl 1 TOIE2)))
           (wr_setup TIMSK1 (wrap8 (Z.lor (x TIMSK1) (Z.shiftl 1 OCIE1A))) x))
        (with_mem (set_stepper_mode (STEPPER_MODE_RUNNING cfg) (mem m1)) m1).
Proof.
  intros Hwf.
  set (pin := fun s => enable_pin_apart cfg bcfg ->
    Z.testbit (rd (STEPPERS_ENABLE_PORT bcfg) s) (STEPPERS_ENABLE_BIT bcfg) = true).
  assert (Hpin : handler_stable cfg pin).
  { intros i s HP Hap. apply (enable_pin_stable cfg bcfg true Hap). apply HP. exact Hap. }
  set (Q := fun o : outcome setup => exists m1, evolves m m1 /\ pin (mem m1) /\
               o = Returned
                 (wr_setup TIMSK2
                    (wrap8 (Z.lor (wr_setup TIMSK1
                       (wrap8 (Z.lor (x TIMSK1) (Z.shiftl 1 OCIE1A))) x TIMSK2)
                       (Z.shiftl 1 TOIE2)))
                    (wr_setup TIMSK1 (wrap8 (Z.lor (x TIMSK1) (Z.shiftl 1 OCIE1A))) x))
                 (with_mem (set_stepper_mode (STEPPER_MODE_RUNNING cfg) (mem m1)) m1)).
  change (Q (st_start cfg bcfg x m)).
  unfold st_start. cbv zeta.
  apply (preempt_bind cfg _ Q (fun _ => True) m m (handler_stable_true cfg)
           (evolves_refl m Hwf) I).
  intros m1 He1 _.
  apply (preempt_bind cfg _ Q (fun _ => True) m1 m (handler_stable_true cfg) He1 I).
  intros m2 He2 _.
  apply (store_bind _ _ Q).
  match goal with |- context [with_mem ?s m2] => set (s3 := s) end.
  assert (He3 : evolves m (with_mem s3 m2)).
  { eapply evolves_trans; [exact He2|].
    apply evolves_store; [exact (evolves_wf _ _ He2)|apply wr_same_vars]. }
  assert (Hp3 : pin (mem (with_mem s3 m2))).
  { intros (_ & _ & _ & _ & Hbit & _). change (mem (with_mem s3 m2)) with s3.
    subst s3. rewrite rd_wr_same.
    apply set_bit_testbit. exact Hbit. }
  apply (preempt_bind cfg _ Q pin (with_mem s3 m2) m Hpin He3 Hp3).
  intros m4 He4 Hp4.
  subst Q. exists m4. split; [exact He4|]. split; [exact Hp4|]. reflexivity.
Qed.

Lemma st_stop_tail_course x m :
  wf (mem m) ->
  exists m1,
    evolves m m1 /\
    (enable_pin_apart cfg bcfg ->
     Z.testbit (rd (STEPPERS_ENABLE_PORT bcfg) (mem m1)) (STEPPERS_ENABLE_BIT bcfg) = false) /\
    st_stop_tail cfg bcfg x m
    = Returned
        (wr_setup TIMSK2
           (wrap8 (Z.land (wr_setup TIMSK1
                     (wrap8 (Z.land (x TIMSK1) (Z.lnot (Z.shiftl 1 OCIE1A)))) x TIMSK2)
                          (Z.lnot (Z.shiftl 1 TOIE2))))
           (wr_setup TIMSK1 (wrap8 (Z.land (x TIMSK1) (Z.lnot (Z.shiftl 1 OCIE1A)))) x))
        (with_mem (set_stepper_mode (STEPPER_MODE_STOPPED cfg) (mem m1)) m1).
Proof.
  intros Hwf.
  set (pin := fun s => enable_pin_apart cfg bcfg ->
    Z.testbit (rd (STEPPERS_ENABLE_PORT bcfg) s) (STEPPERS_ENABLE_BIT bcfg) = false).
  assert (Hpin : handler_stable cfg pin).
  { intros i s HP Hap. apply (enable_pin_stable cfg bcfg false Hap). apply HP. exact Hap. }
  set (Q := fun o : outcome setup => exists m1, evolves m m1 /\ pin (mem m1) /\
               o = Returned
                 (wr_setup TIMSK2
                    (wrap8 (Z.land (wr_setup TIMSK1
                       (wrap8 (Z.land (x TIMSK1) (Z.lnot (Z.shiftl 1 OCIE1A)))) x TIMSK2)
                       (Z.lnot (Z.shiftl 1 TOIE2))))
                    (wr_setup TIMSK1
                       (wrap8 (Z.land (x TIMSK1) (Z.lnot (Z.shiftl 1 OCIE1A)))) x))
                 (with_mem (set_stepper_mode (STEPPER_MODE_STOPPED cfg) (mem m1)) m1)).
  change (Q (st_stop_tail cfg bcfg x m)).
  unfold st_stop_tail. cbv zeta.
  apply (preempt_bind cfg _ Q (fun _ => True) m m (handler_stable_true cfg)
           (evolves_refl m Hwf) I).
  intros m1 He1 _.
  apply (preempt_bind cfg _ Q (fun _ => True) m1 m (handler_stable_true cfg) He1 I).
  intros m2 He2 _.
  apply (preempt_bind cfg _ Q (fun _ => True) m2 m (handler_stable_true cfg) He2 I).
  intros m3 He3 _.
  apply (store_bind _ _ Q).
  match goal with |- context [with_mem ?s m3] => set (s4 := s) end.
  assert (He4 : evolves m (with_mem s4 m3)).
  { eapply evolves_trans; [exact He3|].
    apply evolves_store; [exact (evolves_wf _ _ He3)|apply wr_same_vars]. }
  assert (Hp4 : pin (mem (with_mem s4 m3))).
  { intros (_ & _ & _ & _ & Hbit & _). change (mem (with_mem s4 m3)) with s4.
    subst s4. rewrite rd_wr_same.
    apply clear_bit_testbit. exact Hbit. }
  apply (preempt_bind cfg _ Q pin (with_mem s4 m3) m Hpin He4 Hp4).
  intros m5 He5 Hp5.
  subst Q. exists m5. split; [exact He5|]. split; [exact Hp5|]. reflexivity.
Qed.

End LifeCycle.

Section SetUp.

Context (cfg : config) (bcfg : board_config).

(** The course of [st_init]: the registers are set between interrupts that
    leave timer 1 in the mode it was given; the pace is configured last,
    between interrupts that leave the timer's registers alone as long as no
    marker is resident. *)
Lemma st_init_course x m :
  wf (mem m) ->
  exists x' m1,
    evolves m m1 /\
    (STEPPING_PORT cfg <> TCCR1B ->
       Z.testbit (rd TCCR1B (mem m1)) WGM12 = true /\
       Z.testbit (rd TCCR1B (mem m1)) WGM13 = false) /\
    (STEPPING_PORT cfg <> TCCR1B -> STEPPING_PORT cfg <> OCR1A ->
     markers (resident (mem m)) = 0%nat ->
       rd OCR1A (mem m1) = fst (pace_ceiling_prescaler cfg 20000) /\
       Z.land (rd TCCR1B (mem m1)) 7 = snd (pace_ceiling_prescaler cfg 20000) + 1) /\
    st_init cfg bcfg x m
    = Returned x' (with_mem (set_current_pace 20000 (mem m1)) m1) /\
    x' TCCR2A = 0 /\ x' TCCR2B = 2 /\ x' TIMSK2 = 0 /\
    Z.testbit (x' SREG) SREG_I = true /\
    (forall k, 0 <= k < 8 -> k <> 2 -> k <> 3 -> Z.testbit (x' TCCR1A) k = false).
Proof.
  intros Hwf.
  set (Q := fun o : outcome setup => exists x' m1,
    evolves m m1 /\
    (STEPPING_PORT cfg <> TCCR1B ->
       Z.testbit (rd TCCR1B (mem m1)) WGM12 = true /\
       Z.testbit (rd TCCR1B (mem m1)) WGM13 = false) /\
    (STEPPING_PORT cfg <> TCCR1B -> STEPPING_PORT cfg <> OCR1A ->
     markers (resident (mem m)) = 0%nat ->
       rd OCR1A (mem m1) = fst (pace_ceiling_prescaler cfg 20000) /\
       Z.land (rd TCCR1B (mem m1)) 7 = snd (pace_ceiling_prescaler cfg 20000) + 1) /\
    o = Returned x' (with_mem (set_current_pace 20000 (mem m1)) m1) /\
    x' TCCR2A = 0 /\ x' TCCR2B = 2 /\ x' TIMSK2 = 0 /\
    Z.testbit (x' SREG) SREG_I = true /\
    (forall k, 0 <= k < 8 -> k <> 2 -> k <> 3 -> Z.testbit (x' TCCR1A) k = false)).
  change (Q (st_init cfg bcfg x m)).
  set (low13 := fun s => STEPPING_PORT cfg <> TCCR1B ->
    Z.testbit (rd TCCR1B s) WGM13 = false).
  set (ctc := fun s => STEPPING_PORT cfg <> TCCR1B ->
    Z.testbit (rd TCCR1B s) WGM12 = true /\ Z.testbit (rd TCCR1B s) WGM13 = false).
  assert (Hlow13 : handler_stable cfg low13).
  { intros i s HP Hport.
    apply (timer_mode_stable cfg WGM13 false Hport ltac:(unfold WGM13; lia)).
    apply HP. exact Hport. }
  assert (Hctc : handler_stable cfg ctc).
  { intros i s HP Hport. destruct (HP Hport) as [H12 H13]. split.
    - apply (timer_mode_stable cfg WGM12 true Hport ltac:(unfold WGM12; lia)). exact H12.
    - apply (timer_mode_stable cfg WGM13 false Hport ltac:(unfold WGM13; lia)). exact H13. }
  pose proof (handler_stable_true cfg) as Htrue.
  pose proof (evolves_refl m Hwf) as He.
  unfold st_init. cbv zeta.
  apply (preempt_bind cfg _ Q (fun _ => True) m m Htrue He I). clear He. intros m1 He _.
  apply (store_bind _ _ Q).
  match goal with |- context [with_mem ?s m1] => set (s2 := s) end.
  assert (He2 : evolves m (with_mem s2 m1)).
  { eapply evolves_trans; [exact He|].
    apply evolves_store; [exact (evolves_wf _ _ He)|apply wr_same_vars]. }
  apply (preempt_bind cfg _ Q (fun _ => True) _ m Htrue He2 I). clear He He2. intros m3 He _.
  apply (preempt_bind cfg _ Q (fun _ => True) _ m Htrue He I). clear He. intros m4 He _.
  apply (preempt_bind cfg _ Q (fun _ => True) _ m Htrue He I). clear He. intros m5 He _.
  apply (store_bind _ _ Q).
  match goal with |- context [with_mem ?s m5] => set (s6 := s) end.
  assert (He6 : evolves m (with_mem s6 m5)).
  { eapply evolves_trans; [exact He|].
    apply evolves_store; [exact (evolves_wf _ _ He)|apply wr_same_vars]. }
  assert (Hp6 : low13 (mem (with_mem s6 m5))).
  { intros _. change (mem (with_mem s6 m5)) with s6. subst s6. rewrite rd_wr_same.
    apply clear_bit_testbit. unfold WGM13. lia. }
  apply (preempt_bind cfg _ Q low13 _ m Hlow13 He6 Hp6). clear He He6 Hp6. intros m7 He Hp.
  apply (store_bind _ _ Q).
  match goal with |- context [with_mem ?s m7] => set (s8 := s) end.
  assert (He8 : evolves m (with_mem s8 m7)).
  { eapply evolves_trans; [exact He|].
    apply evolves_store; [exact (evolves_wf _ _ He)|apply wr_same_vars]. }
  assert (Hp8 : ctc (mem (with_mem s8 m7))).
  { intros Hport. change (mem (with_mem s8 m7)) with s8. subst s8. rewrite rd_wr_same.
    split; [apply set_bit_testbit; unfold WGM12; lia|].
    rewrite set_bit_other by (unfold WGM12, WGM13; lia). apply Hp. exact Hport. }
  apply (preempt_bind cfg _ Q ctc _ m Hctc He8 Hp8). clear He He8 Hp Hp8. intros m9 He Hp.
  do 8 (match goal with |- Q ((preempt cfg;; _) ?mi) =>
          apply (preempt_bind cfg _ Q ctc mi m Hctc He Hp); clear He Hp;
          let m' := fresh "m" in intros m' He Hp
        end).
  set (c := fst (pace_ceiling_prescaler cfg 20000)).
  set (p := snd (pace_ceiling_prescaler cfg 20000)).
  assert (Hprange : 0 <= p + 1 < 8).
  { pose proof (pace_ceiling_prescaler_cases cfg 20000) as Hcases. cbv zeta in Hcases.
    subst p.
    destruct Hcases as [[_ E]|[[_ E]|[[_ E]|[[_ E]|[[_ E]|[_ E]]]]]];
      rewrite E; simpl; lia. }
  set (Pa := fun s => ctc s /\
    (STEPPING_PORT cfg <> TCCR1B -> STEPPING_PORT cfg <> OCR1A ->
     markers (resident (mem m)) = 0%nat ->
       wf s /\ markers (resident s) = 0%nat /\ Z.land (rd TCCR1B s) 7 = p + 1)).
  set (Pb := fun s => ctc s /\
    (STEPPING_PORT cfg <> TCCR1B -> STEPPING_PORT cfg <> OCR1A ->
     markers (resident (mem m)) = 0%nat ->
       wf s /\ markers (resident s) = 0%nat /\ Z.land (rd TCCR1B s) 7 = p + 1 /\
       rd OCR1A s = c)).
  assert (Hsa : handler_stable cfg Pa).
  { intros i s [Hc Hq]. split; [apply Hctc; exact Hc|]. intros Hp1 Hp2 H0.
    destruct (Hq Hp1 Hp2 H0) as (Hw & Hm0 & Hl).
    destruct (quiet_timer_stable cfg (rd TCCR1B s) (rd OCR1A s) Hp1 Hp2 i s
                (conj Hw (conj Hm0 (conj eq_refl eq_refl)))) as (A & B & C & _).
    rewrite C. auto. }
  assert (Hsb : handler_stable cfg Pb).
  { intros i s [Hc Hq]. split; [apply Hctc; exact Hc|]. intros Hp1 Hp2 H0.
    destruct (Hq Hp1 Hp2 H0) as (Hw & Hm0 & Hl & Ho).
    destruct (quiet_timer_stable cfg (rd TCCR1B s) (rd OCR1A s) Hp1 Hp2 i s
                (conj Hw (conj Hm0 (conj eq_refl eq_refl)))) as (A & B & C & D).
    rewrite C, D. auto. }
  match goal with |- Q ((config_pace_timer_foreground cfg 20000;; ?k) ?mk) =>
    destruct (config_pace_timer_foreground_course cfg 20000 mk Pa Pb
                (evolves_wf _ _ He) Hsa Hsb) as (mz & Hez & [Hcz Hqz] & Heq)
  end.
  { split.
    - intros Hport. destruct (Hp Hport) as [H12 H13]. rewrite rd_wr_same.
      rewrite !clock_select_keeps_mode_bits by (unfold WGM12, WGM13; lia). auto.
    - intros Hp1 Hp2 H0. split; [|split].
      + apply (same_vars_wf _ _ (wr_same_vars _ _ _)). exact (evolves_wf _ _ He).
      + rewrite (same_vars_resident _ _ (wr_same_vars _ _ _)).
        apply (evolves_quiet _ _ He H0).
      + rewrite rd_wr_same. apply clock_select_field. exact Hprange. }
  { intros s [Hc Hq]. split.
    - intros Hport. rewrite rd_wr_other by discriminate. apply Hc. exact Hport.
    - intros Hp1 Hp2 H0. destruct (Hq Hp1 Hp2 H0) as (Hw & Hm0 & Hl).
      split; [apply (same_vars_wf _ _ (wr_same_vars _ _ _)); exact Hw|].
      split; [rewrite (same_vars_resident _ _ (wr_same_vars _ _ _)); exact Hm0|].
      split; [rewrite rd_wr_other by discriminate; exact Hl|apply rd_wr_same]. }
  unfold mbind at 1, M_bind at 1. rewrite Heq.
  subst Q. cbv beta.
  eexists _, mz. split; [eapply evolves_trans; [exact He|exact Hez]|].
  split; [exact Hcz|].
  split; [intros Hp1 Hp2 H0; destruct (Hqz Hp1 Hp2 H0) as (_ & _ & Hl & Ho); auto|].
  split; [reflexivity|].
  split; [reflexivity|]. split; [reflexivity|]. split; [reflexivity|].
  split; [apply sei_sets_flag|].
  intros k Hk Hk2 Hk3. unfold sei, wr_setup. simpl.
  repeat (progress (rewrite ?wrap8_testbit, ?Z.land_spec, ?Z.lnot_spec by lia)).
  assert (Hcases : k = 0 \/ k = 1 \/ k = 4 \/ k = 5 \/ k = 6 \/ k = 7) by lia.
  destruct Hcases as [->|[->|[->|[->|[->| ->]]]]]; simpl;
    rewrite ?andb_false_r; reflexivity.
Qed.

End SetUp.

Lemma wr_setup_same r v x : wr_setup r v x r = v.
Proof. unfold wr_setup. destruct (decide (r = r)); congruence. Qed.

Lemma wr_setup_other r r' v x : r' <> r -> wr_setup r v x r' = x r'.
Proof. intros H. unfold wr_setup. destruct (decide (r' = r)); congruence. Qed.

(** X13.  [st_start] always returns, with the mode Running, the enable pin
    raised and both timer interrupts enabled; it enqueues and discards
    nothing: buffer and head are as before and the stream of consumed and
    resident instructions, and their paces, are those of the handlers. *)
Theorem st_start_runs cfg bcfg x m :
  wf (mem m) -> enable_pin_apart cfg bcfg ->
  returned (st_start cfg bcfg x m) = true /\
  stepper_mode (mem (final (st_start cfg bcfg x m))) = STEPPER_MODE_RUNNING cfg /\
  wf (mem (final (st_start cfg bcfg x m))) /\
  Z.testbit (rd (STEPPERS_ENABLE_PORT bcfg) (mem (final (st_start cfg bcfg x m))))
            (STEPPERS_ENABLE_BIT bcfg) = true /\
  step_buffer (mem (final (st_start cfg bcfg x m))) = step_buffer (mem m) /\
  step_buffer_head (mem (final (st_start cfg bcfg x m))) = step_buffer_head (mem m) /\
  executed m `prefix_of` executed (final (st_start cfg bcfg x m)) /\
  map fst (executed (final (st_start cfg bcfg x m)))
    ++ resident (mem (final (st_start cfg bcfg x m)))
  = map fst (executed m) ++ resident (mem m) /\
  steps (executed (final (st_start cfg bcfg x m)))
    ++ upcoming (mem (final (st_start cfg bcfg x m)))
  = steps (executed m) ++ upcoming (mem m) /\
  (settled (mem m) -> settled (mem (final (st_start cfg bcfg x m)))) /\
  (exists x', value (st_start cfg bcfg x m) = Some x' /\
     Z.testbit (x' TIMSK1) OCIE1A = true /\ Z.testbit (x' TIMSK2) TOIE2 = true).
Proof.
  intros Hwf Hpin.
  destruct (st_start_course cfg bcfg x m Hwf) as (m1 & [Hr Hi] & Hp & ->).
  simpl final. simpl returned. simpl value.
  change (mem (with_mem (set_stepper_mode (STEPPER_MODE_RUNNING cfg) (mem m1)) m1))
    with (set_stepper_mode (STEPPER_MODE_RUNNING cfg) (mem m1)).
  change (executed (with_mem (set_stepper_mode (STEPPER_MODE_RUNNING cfg) (mem m1)) m1))
    with (executed m1).
  change (resident (set_stepper_mode (STEPPER_MODE_RUNNING cfg) (mem m1)))
    with (resident (mem m1)).
  change (upcoming (set_stepper_mode (STEPPER_MODE_RUNNING cfg) (mem m1)))
    with (upcoming (mem m1)).
  change (settled (set_stepper_mode (STEPPER_MODE_RUNNING cfg) (mem m1)))
    with (settled (mem m1)).
  destruct Hr as (Hwf1 & Hb & Hh & _ & Hpre & Hq & Hu & Hs & _).
  split; [reflexivity|]. split; [reflexivity|]. split; [exact Hwf1|].
  split; [exact (Hp Hpin)|]. split; [exact Hb|]. split; [exact Hh|].
  split; [exact Hpre|]. split; [exact Hq|]. split; [exact Hu|].
  split; [intros H; apply Hs; exact H|].
  eexists. split; [reflexivity|].
  split; [rewrite wr_setup_other by discriminate|]; rewrite wr_setup_same;
    apply set_bit_testbit; unfold OCIE1A, TOIE2; lia.
Qed.

Lemma sample_enable_pin_apart : enable_pin_apart sample_config sample_board_config.
Proof.
  unfold enable_pin_apart. simpl.
  repeat split; try discriminate; try lia.
Qed.

Lemma st_start_runs_witness :
  wf (mem stopped_machine) /\ enable_pin_apart sample_config sample_board_config /\
  stepper_mode (mem (final (st_start sample_config sample_board_config sample_setup
                              stopped_machine)))
  = STEPPER_MODE_RUNNING sample_config.
Proof.
  assert (H1 : wf (mem stopped_machine)).
  { unfold wf. vm_compute. repeat split; try reflexivity; discriminate. }
  pose proof sample_enable_pin_apart as H2.
  split; [exact H1|]. split; [exact H2|].
  apply (st_start_runs sample_config sample_board_config sample_setup stopped_machine H1 H2).
Defined.

Lemma st_stop_unfold cfg bcfg x m :
  st_stop cfg bcfg x m
  = match st_synchronize cfg x m with
    | Returned x1 m1 => st_stop_tail cfg bcfg x1 m1
    | Asleep m1 => Asleep m1
    end.
Proof. reflexivity. Qed.

(** X14.  [st_stop] first drains, then stops.  Called while Running it
    returns only if at least as many cadence interrupts were to come as
    instructions are resident (on an empty buffer it returns), and then
    every resident instruction has been executed; called while not Running
    it returns at once and executes nothing.  When it returns the mode is
    Stopped, the buffer is empty, the enable pin is low, both timer
    interrupts are disabled, and [st_buffer_step] and [st_buffer_pace] do
    nothing; while it sleeps the mode is unchanged and nothing is lost. *)
Theorem st_stop_drains_and_stops cfg bcfg x m b p :
  wf (mem m) -> enable_pin_apart cfg bcfg ->
  STEPPER_MODE_STOPPED cfg <> STEPPER_MODE_RUNNING cfg ->
  (running cfg (mem m) ->
     (returned (st_stop cfg bcfg x m) = true ->
      (length (resident (mem m)) <= cadence_ticks (pending m))%nat) /\
     (is_empty (mem m) -> returned (st_stop cfg bcfg x m) = true)) /\
  (~ running cfg (mem m) -> returned (st_stop cfg bcfg x m) = true) /\
  (returned (st_stop cfg bcfg x m) = true ->
     stepper_mode (mem (final (st_stop cfg bcfg x m))) = STEPPER_MODE_STOPPED cfg /\
     is_empty (mem (final (st_stop cfg bcfg x m))) /\
     Z.testbit (rd (STEPPERS_ENABLE_PORT bcfg) (mem (final (st_stop cfg bcfg x m))))
               (STEPPERS_ENABLE_BIT bcfg) = false /\
     (running cfg (mem m) ->
        map fst (executed (final (st_stop cfg bcfg x m)))
        = map fst (executed m) ++ resident (mem m)) /\
     (~ running cfg (mem m) -> executed (final (st_stop cfg bcfg x m)) = executed m) /\
     step_buffer_head (mem (final (st_stop cfg bcfg x m))) = step_buffer_head (mem m) /\
     st_buffer_step cfg b (final (st_stop cfg bcfg x m))
     = Returned tt (final (st_stop cfg bcfg x m)) /\
     st_buffer_pace cfg p (final (st_stop cfg bcfg x m))
     = Returned tt (final (st_stop cfg bcfg x m)) /\
     (exists x', value (st_stop cfg bcfg x m) = Some x' /\
        Z.testbit (x' TIMSK1) OCIE1A = false /\ Z.testbit (x' TIMSK2) TOIE2 = false)) /\
  (returned (st_stop cfg bcfg x m) = false ->
     stepper_mode (mem (final (st_stop cfg bcfg x m))) = stepper_mode (mem m) /\
     map fst (executed (final (st_stop cfg bcfg x m)))
       ++ resident (mem (final (st_stop cfg bcfg x m)))
     = map fst (executed m) ++ resident (mem m)).
Proof.
  intros Hwf Hpin Hmodes. rewrite st_stop_unfold.
  (* what the tail does from a machine with an empty buffer *)
  assert (Htail : forall x1 ms,
    wf (mem ms) -> is_empty (mem ms) ->
    returned (st_stop_tail cfg bcfg x1 ms) = true /\
    stepper_mode (mem (final (st_stop_tail cfg bcfg x1 ms))) = STEPPER_MODE_STOPPED cfg /\
    is_empty (mem (final (st_stop_tail cfg bcfg x1 ms))) /\
    Z.testbit (rd (STEPPERS_ENABLE_PORT bcfg) (mem (final (st_stop_tail cfg bcfg x1 ms))))
              (STEPPERS_ENABLE_BIT bcfg) = false /\
    executed (final (st_stop_tail cfg bcfg x1 ms)) = executed ms /\
    step_buffer_head (mem (final (st_stop_tail cfg bcfg x1 ms))) = step_buffer_head (mem ms) /\
    st_buffer_step cfg b (final (st_stop_tail cfg bcfg x1 ms))
    = Returned tt (final (st_stop_tail cfg bcfg x1 ms)) /\
    st_buffer_pace cfg p (final (st_stop_tail cfg bcfg x1 ms))
    = Returned tt (final (st_stop_tail cfg bcfg x1 ms)) /\
    (exists x', value (st_stop_tail cfg bcfg x1 ms) = Some x' /\
       Z.testbit (x' TIMSK1) OCIE1A = false /\ Z.testbit (x' TIMSK2) TOIE2 = false)).
  { intros x1 ms Hwfs Hes.
    destruct (st_stop_tail_course cfg bcfg x1 ms Hwfs) as (m1 & Hev & Hp & ->).
    destruct (evolves_empty ms m1 Hwfs Hev Hes) as (Hlog & Hv & He1).
    simpl final. simpl returned. simpl value.
    set (mf := with_mem (set_stepper_mode (STEPPER_MODE_STOPPED cfg) (mem m1)) m1).
    assert (Hnr : ~ running cfg (mem mf)).
    { unfold running. simpl. exact Hmodes. }
    split; [reflexivity|]. split; [reflexivity|]. split; [exact He1|].
    split; [exact (Hp Hpin)|]. split; [exact Hlog|].
    split; [destruct Hv as (_ & Hh & _); exact Hh|].
    split; [apply st_buffer_step_unchanged; exact Hnr|].
    split; [apply st_buffer_pace_unchanged; right; exact Hnr|].
    eexists. split; [reflexivity|].
    split; [rewrite wr_setup_other by discriminate|]; rewrite wr_setup_same;
      apply clear_bit_testbit; unfold OCIE1A, TOIE2; lia. }
  destruct (Z.eq_dec (stepper_mode (mem m)) (STEPPER_MODE_RUNNING cfg)) as [Hrun|Hnrun].
  - (* Running: drain *)
    rewrite (st_synchronize_running cfg x m Hrun).
    pose proof (preempt_while_returns cfg _ 0%nat (step_buffer_head (mem m)) m
                  (empty_condition (step_buffer_head (mem m))) Hwf eq_refl) as Hiff.
    pose proof (preempt_while_spec cfg
                  (fun s => negb (step_buffer_tail s =? step_buffer_head s)) m Hwf) as Hspec.
    destruct ((preempt cfg;; while_asleep cfg _) m) as [[] ms|ms];
      simpl in Hiff; destruct Hspec as [Hev Hc].
    + assert (Hwfs : wf (mem ms)) by exact (evolves_wf _ _ Hev).
      assert (Hes : is_empty (mem ms)).
      { apply negb_false_iff, Z.eqb_eq in Hc. unfold is_empty. congruence. }
      destruct (Htail x ms Hwfs Hes) as (H1 & H2 & H3 & H4 & H5 & H6 & H7 & H8 & H9).
      destruct Hev as [Hr _].
      assert (Hres : resident (mem ms) = []).
      { apply (is_empty_length _ Hwfs) in Hes.
        destruct (resident (mem ms)); [reflexivity|discriminate]. }
      destruct Hr as (_ & _ & Hh & _ & _ & Hq & _). rewrite Hres, app_nil_r in Hq.
      split; [intros _; rewrite H1; split; [intros _; apply Hiff; reflexivity|reflexivity]|].
      split; [intros _; exact H1|].
      split.
      { intros _. split; [exact H2|]. split; [exact H3|]. split; [exact H4|].
        split; [intros _; rewrite H5; exact Hq|].
        split; [intros Hn; contradiction|].
        split; [rewrite H6; exact Hh|]. split; [exact H7|]. split; [exact H8|exact H9]. }
      rewrite H1. discriminate.
    + simpl final. simpl returned.
      split.
      { intros _. split; [apply Hiff|]. intros He0. apply Hiff.
        apply (is_empty_length _ Hwf) in He0. lia. }
      split; [intros Hn; contradiction|].
      split; [discriminate|]. intros _. destruct Hev as [Hr _].
      destruct Hr as (_ & _ & _ & Hm & _ & Hq & _). split; assumption.
  - (* not Running: flush *)
    rewrite (st_synchronize_not_running cfg x m Hnrun).
    destruct (st_flush_spec x m Hwf)
      as (_ & _ & Hes & Hwfs & Hlog & _ & _ & Hh & _ & _ & _ & _ & _).
    unfold st_flush, mbind, M_bind, store, mret, M_ret in *. simpl in Hes, Hwfs, Hlog, Hh.
    match goal with |- context [st_stop_tail cfg bcfg ?x1 ?ms] =>
      destruct (Htail x1 ms Hwfs Hes) as (H1 & H2 & H3 & H4 & H5 & H6 & H7 & H8 & H9)
    end.
    split; [intros Hr; contradiction|]. split; [intros _; exact H1|].
    split.
    { intros _. split; [exact H2|]. split; [exact H3|]. split; [exact H4|].
      split; [intros Hr; contradiction|]. split; [intros _; rewrite H5; exact Hlog|].
      split; [rewrite H6; exact Hh|]. split; [exact H7|]. split; [exact H8|exact H9]. }
    rewrite H1. discriminate.
Qed.

Lemma st_stop_drains_and_stops_witness :
  wf (mem (sample_machine sample_schedule)) /\
  enable_pin_apart sample_config sample_board_config /\
  STEPPER_MODE_STOPPED sample_config <> STEPPER_MODE_RUNNING sample_config /\
  running sample_config (mem (sample_machine sample_schedule)) /\
  is_empty (mem (sample_machine sample_schedule)) /\
  returned (st_stop sample_config sample_board_config sample_setup
              (sample_machine sample_schedule)) = true /\
  stepper_mode (mem (final (st_stop sample_config sample_board_config sample_setup
                              (sample_machine sample_schedule))))
  = STEPPER_MODE_STOPPED sample_config.
Proof.
  destruct (sample_machine_at_rest sample_schedule) as (H1 & Hrun & _).
  pose proof sample_enable_pin_apart as H2.
  assert (H3 : STEPPER_MODE_STOPPED sample_config <> STEPPER_MODE_RUNNING sample_config)
    by (simpl; lia).
  assert (He : is_empty (mem (sample_machine sample_schedule))) by reflexivity.
  split; [exact H1|]. split; [exact H2|]. split; [exact H3|].
  split; [exact Hrun|]. split; [exact He|].
  destruct (st_stop_drains_and_stops sample_config sample_board_config sample_setup
              (sample_machine sample_schedule) 7 1000 H1 H2 H3)
    as (Hr & _ & Hpost & _).
  pose proof (proj2 (Hr Hrun) He) as Hret.
  split; [exact Hret|]. exact (proj1 (Hpost Hret)).
Defined.

(** X15.  [st_init] always returns.  On return timer 1 is in CTC mode (WGM12
    set, WGM13 clear in TCCR1B), timer 2 runs at the 1/8 prescaler with its
    interrupts disabled, and interrupts are enabled globally.  The function
    does not touch the mode, the buffer or its head: the stream of consumed
    and resident instructions is that of the handlers.  When no marker is
    resident at the call, no handler reconfigures timer 1 meanwhile, and on
    return the timer has the clock select and the ceiling of a pace of 20000
    microseconds and [current_pace] is 20000. *)
Theorem st_init_configures cfg bcfg x m :
  wf (mem m) -> STEPPING_PORT cfg <> TCCR1B -> STEPPING_PORT cfg <> OCR1A ->
  returned (st_init cfg bcfg x m) = true /\
  wf (mem (final (st_init cfg bcfg x m))) /\
  Z.testbit (rd TCCR1B (mem (final (st_init cfg bcfg x m)))) WGM12 = true /\
  Z.testbit (rd TCCR1B (mem (final (st_init cfg bcfg x m)))) WGM13 = false /\
  stepper_mode (mem (final (st_init cfg bcfg x m))) = stepper_mode (mem m) /\
  step_buffer (mem (final (st_init cfg bcfg x m))) = step_buffer (mem m) /\
  step_buffer_head (mem (final (st_init cfg bcfg x m))) = step_buffer_head (mem m) /\
  executed m `prefix_of` executed (final (st_init cfg bcfg x m)) /\
  map fst (executed (final (st_init cfg bcfg x m)))
    ++ resident (mem (final (st_init cfg bcfg x m)))
  = map fst (executed m) ++ resident (mem m) /\
  (exists x', value (st_init cfg bcfg x m) = Some x' /\
     x' TCCR2A = 0 /\ x' TCCR2B = Z.shiftl 1 CS21 /\ x' TIMSK2 = 0 /\
     Z.testbit (x' SREG) SREG_I = true /\
     Z.testbit (x' TCCR1A) WGM10 = false /\ Z.testbit (x' TCCR1A) WGM11 = false /\
     (forall k, 4 <= k < 8 -> Z.testbit (x' TCCR1A) k = false)) /\
  (markers (resident (mem m)) = 0%nat ->
     current_pace (mem (final (st_init cfg bcfg x m))) = 20000 /\
     next_pace (mem (final (st_init cfg bcfg x m))) = next_pace (mem m) /\
     rd OCR1A (mem (final (st_init cfg bcfg x m))) = fst (pace_ceiling_prescaler cfg 20000) /\
     Z.land (rd TCCR1B (mem (final (st_init cfg bcfg x m)))) 7
     = snd (pace_ceiling_prescaler cfg 20000) + 1).
Proof.
  intros Hwf Hport Hport2.
  destruct (st_init_course cfg bcfg x m Hwf)
    as (x' & m1 & [Hr Hi] & Hctc & Hquiet & -> & H2a & H2b & Hm2 & Hsreg & H1a).
  destruct (Hctc Hport) as [H12 H13].
  simpl final. simpl returned. simpl value.
  change (mem (with_mem (set_current_pace 20000 (mem m1)) m1))
    with (set_current_pace 20000 (mem m1)).
  change (executed (with_mem (set_current_pace 20000 (mem m1)) m1)) with (executed m1).
  change (resident (set_current_pace 20000 (mem m1))) with (resident (mem m1)).
  change (rd TCCR1B (set_current_pace 20000 (mem m1))) with (rd TCCR1B (mem m1)).
  change (rd OCR1A (set_current_pace 20000 (mem m1))) with (rd OCR1A (mem m1)).
  pose proof (rely_no_marker _ _ _ _ Hr) as Hno.
  destruct Hr as (Hwf1 & Hb & Hh & Hmode & Hpre & Hq & _).
  split; [reflexivity|]. split; [exact Hwf1|].
  split; [exact H12|]. split; [exact H13|].
  split; [exact Hmode|]. split; [exact Hb|]. split; [exact Hh|].
  split; [exact Hpre|]. split; [exact Hq|].
  split.
  { exists x'. split; [reflexivity|]. split; [exact H2a|]. split; [exact H2b|].
    split; [exact Hm2|]. split; [exact Hsreg|].
    split; [apply H1a; unfold WGM10; lia|]. split; [apply H1a; unfold WGM11; lia|].
    intros k Hk. apply H1a; lia. }
  intros H0. destruct (Hquiet Hport Hport2 H0) as [Ho Hl].
  destruct (Hno H0) as (_ & _ & Hn).
  split; [reflexivity|]. split; [exact Hn|]. split; [exact Ho|exact Hl].
Qed.

Lemma st_init_configures_witness :
  wf (mem stopped_machine) /\ STEPPING_PORT sample_config <> TCCR1B /\
  STEPPING_PORT sample_config <> OCR1A /\
  markers (resident (mem stopped_machine)) = 0%nat /\
  rd OCR1A (mem (final (st_init sample_config sample_board_config sample_setup
                          stopped_machine))) = 40000.
Proof.
  assert (H1 : wf (mem stopped_machine)).
  { unfold wf. vm_compute. repeat split; try reflexivity; discriminate. }
  assert (H2 : STEPPING_PORT sample_config <> TCCR1B) by (simpl; discriminate).
  assert (H3 : STEPPING_PORT sample_config <> OCR1A) by (simpl; discriminate).
  assert (H0 : markers (resident (mem stopped_machine)) = 0%nat) by reflexivity.
  split; [exact H1|]. split; [exact H2|]. split; [exact H3|]. split; [exact H0|].
  destruct (st_init_configures sample_config sample_board_config sample_setup
              stopped_machine H1 H2 H3) as (_ & _ & _ & _ & _ & _ & _ & _ & _ & _ & Hq).
  destruct (Hq H0) as (_ & _ & Ho & _). exact Ho.
Defined.

(** The condition of X15 on the markers is needed.  With a pace of 500
    microseconds pending and its marker popped between the writes of TCCR1B
    and OCR1A, [st_init] leaves the clock select of the pending pace
    (prescaler 1) with the ceiling of the pace 20000 (40000, meant for the
    prescaler 8): a period of 2500 microseconds, with [current_pace] at
    20000. *)
Lemma st_init_races_with_pending_pace :
  markers (resident (mem racing_machine)) = 1%nat /\
  pace_ceiling_prescaler sample_config 20000 = (40000, 1) /\
  pace_ceiling_prescaler sample_config 500 = (8000, 0) /\
  Z.land (rd TCCR1B (mem (final (st_init sample_config sample_board_config sample_setup
                                   racing_machine)))) 7 = 1 /\
  rd OCR1A (mem (final (st_init sample_config sample_board_config sample_setup
                          racing_machine))) = 40000 /\
  current_pace (mem (final (st_init sample_config sample_board_config sample_setup
                              racing_machine))) = 20000.
Proof. repeat split; vm_compute; reflexivity. Qed.

Lemma initial_vars_wf cfg s : initial_vars cfg s -> wf s /\ is_empty s.
Proof.
  intros (Hb & Hh & Ht & _). unfold wf, is_empty. rewrite Hb, Hh, Ht.
  rewrite length_replicate. unfold STEP_BUFFER_SIZE. repeat split; lia.
Qed.

Lemma power_up_unfold cfg bcfg x m :
  power_up cfg bcfg x m
  = match st_init cfg bcfg x m with
    | Returned x1 m1 =>
        match preempt cfg m1 with
        | Returned _ m2 => st_start cfg bcfg x1 m2
        | Asleep m2 => Asleep m2
        end
    | Asleep m1 => Asleep m1
    end.
Proof. reflexivity. Qed.

(** X16.  From the values the declarations give the globals, [st_init] and
    then [st_start] always return and leave the subsystem at rest: Running,
    the buffer empty, no pace pending, the pace 20000 microseconds, the
    enable pin raised.  No interrupt served on the way executes anything. *)
Theorem power_up_at_rest cfg bcfg x m :
  initial_vars cfg (mem m) -> enable_pin_apart cfg bcfg ->
  returned (power_up cfg bcfg x m) = true /\
  at_rest cfg (final (power_up cfg bcfg x m)) /\
  is_empty (mem (final (power_up cfg bcfg x m))) /\
  current_pace (mem (final (power_up cfg bcfg x m))) = 20000 /\
  next_pace (mem (final (power_up cfg bcfg x m))) = 0 /\
  Z.testbit (rd (STEPPERS_ENABLE_PORT bcfg) (mem (final (power_up cfg bcfg x m))))
            (STEPPERS_ENABLE_BIT bcfg) = true /\
  executed (final (power_up cfg bcfg x m)) = executed m /\
  issued (final (power_up cfg bcfg x m)) = issued m.
Proof.
  intros Hinit Hpin. destruct (initial_vars_wf cfg _ Hinit) as [Hwf He].
  destruct Hinit as (_ & _ & _ & _ & Hnext & _).
  rewrite power_up_unfold.
  destruct (st_init_course cfg bcfg x m Hwf) as (x1 & m1 & Hev1 & _ & _ & -> & _).
  destruct (evolves_empty m m1 Hwf Hev1 He) as (Hlog1 & Hv1 & He1).
  set (ma := with_mem (set_current_pace 20000 (mem m1)) m1).
  assert (Hwfa : wf (mem ma)).
  { destruct Hev1 as [Hr _]. apply Hr. }
  assert (Hea : is_empty (mem ma)) by exact He1.
  destruct (preempt_spec cfg ma Hwfa) as (m2 & -> & Hev2).
  destruct (evolves_empty ma m2 Hwfa Hev2 Hea) as (Hlog2 & Hv2 & He2).
  assert (Hwf2 : wf (mem m2)) by (destruct Hev2 as [Hr _]; apply Hr).
  destruct (st_start_course cfg bcfg x1 m2 Hwf2) as (m3 & Hev3 & Hp & ->).
  destruct (evolves_empty m2 m3 Hwf2 Hev3 He2) as (Hlog3 & Hv3 & He3).
  assert (Hwf3 : wf (mem m3)) by (destruct Hev3 as [Hr _]; apply Hr).
  simpl final. simpl returned.
  set (mf := with_mem (set_stepper_mode (STEPPER_MODE_RUNNING cfg) (mem m3)) m3).
  destruct Hv1 as (_ & _ & _ & _ & N1 & _).
  destruct Hv2 as (_ & _ & _ & C2 & N2 & _).
  destruct Hv3 as (_ & _ & _ & C3 & N3 & _).
  simpl in C2, N2.
  assert (Hnf : next_pace (mem mf) = 0).
  { simpl. rewrite N3, N2, N1. exact Hnext. }
  assert (Hres : resident (mem m3) = []).
  { apply (is_empty_length _ Hwf3) in He3.
    destruct (resident (mem m3)); [reflexivity|discriminate]. }
  split; [reflexivity|].
  split.
  { split; [exact Hwf3|]. split; [reflexivity|].
    unfold settled. rewrite Hnf.
    change (resident (mem mf)) with (resident (mem m3)). rewrite Hres. reflexivity. }
  split; [exact He3|].
  split; [simpl; rewrite C3; exact C2|].
  split; [exact Hnf|]. split; [exact (Hp Hpin)|].
  split; [simpl; rewrite Hlog3, Hlog2; exact Hlog1|].
  simpl. destruct Hev1 as [_ I1], Hev2 as [_ I2], Hev3 as [_ I3].
  rewrite I3, I2. exact I1.
Qed.

Lemma power_up_at_rest_witness :
  initial_vars sample_config (mem power_on_machine) /\
  enable_pin_apart sample_config sample_board_config /\
  at_rest sample_config
    (final (power_up sample_config sample_board_config sample_setup power_on_machine)).
Proof.
  assert (H1 : initial_vars sample_config (mem power_on_machine)).
  { unfold initial_vars. vm_compute. repeat split. }
  pose proof sample_enable_pin_apart as H2.
  split; [exact H1|]. split; [exact H2|].
  apply (power_up_at_rest sample_config sample_board_config sample_setup
           power_on_machine H1 H2).
Defined.

(** ** The limit switches *)

Lemma land_single_zero p k :
  0 <= k -> (Z.land p (Z.shiftl 1 k) =? 0) = negb (Z.testbit p k).
Proof.
  intros Hk. destruct (Z.testbit p k) eqn:Hb; simpl.
  - apply Z.eqb_neq. intros H0.
    assert (Hk' : Z.testbit (Z.land p (Z.shiftl 1 k)) k = true).
    { rewrite Z.land_spec, Hb, testbit_single, Z.eqb_refl by lia. reflexivity. }
    rewrite H0, Z.bits_0 in Hk'. discriminate.
  - apply Z.eqb_eq. apply Z.bits_inj'. intros n Hn.
    rewrite Z.land_spec, Z.bits_0, testbit_single by lia.
    destruct (Z.eqb_spec n k) as [->|_]; [rewrite Hb; reflexivity|apply andb_false_r].
Qed.

Lemma wrap8_single k : 0 <= k < 8 -> wrap8 (Z.shiftl 1 k) = Z.shiftl 1 k.
Proof.
  intros Hk. unfold wrap8. rewrite Z.shiftl_1_l. apply Z.mod_small.
  split; [apply Z.pow_nonneg; lia|apply Z.pow_lt_mono_r; lia].
Qed.

Lemma wrap8_single_high k : 8 <= k -> wrap8 (Z.shiftl 1 k) = 0.
Proof.
  intros Hk. unfold wrap8. rewrite Z.shiftl_1_l.
  replace k with (8 + (k - 8)) by lia. rewrite Z.pow_add_r by lia.
  rewrite Z.mul_comm. apply Z.mod_mul. lia.
Qed.

Lemma limit_test p1 p2 k :
  0 <= k < 8 ->
  (if negb (Z.land p1 (wrap8 (Z.shiftl 1 k)) =? 0)
      || negb (Z.land p2 (wrap8 (Z.shiftl 1 k)) =? 0) then 1 else 0)
  = Z.b2z (Z.testbit p1 k || Z.testbit p2 k).
Proof.
  intros Hk. rewrite wrap8_single by exact Hk.
  rewrite !land_single_zero by lia. rewrite !negb_involutive.
  destruct (Z.testbit p1 k), (Z.testbit p2 k); reflexivity.
Qed.

Lemma limit_test_high p1 p2 k :
  8 <= k ->
  (if negb (Z.land p1 (wrap8 (Z.shiftl 1 k)) =? 0)
      || negb (Z.land p2 (wrap8 (Z.shiftl 1 k)) =? 0) then 1 else 0) = 0.
Proof. intros Hk. rewrite wrap8_single_high by exact Hk. rewrite !Z.land_0_r. reflexivity. Qed.

(** The limit bit [check_limit_switch] tests for an axis: the first case
    of the switch that matches. *)
Lemma check_limit_switch_cases cfg axis port1 port2 :
  (axis = X_AXIS cfg \/ axis = Y_AXIS cfg \/ axis = Z_AXIS cfg) ->
  exists k,
    (k = X_LIMIT_BIT cfg \/ k = Y_LIMIT_BIT cfg \/ k = Z_LIMIT_BIT cfg) /\
    check_limit_switch cfg axis port1 port2
    = if negb (Z.land port1 (wrap8 (Z.shiftl 1 k)) =? 0)
         || negb (Z.land port2 (wrap8 (Z.shiftl 1 k)) =? 0) then 1 else 0.
Proof.
  intros Hax. unfold check_limit_switch.
  destruct (Z.eqb_spec axis (X_AXIS cfg)); [eexists; split; [left; reflexivity|reflexivity]|].
  destruct (Z.eqb_spec axis (Y_AXIS cfg));
    [eexists; split; [right; left; reflexivity|reflexivity]|].
  destruct (Z.eqb_spec axis (Z_AXIS cfg));
    [eexists; split; [right; right; reflexivity|reflexivity]|].
  exfalso. destruct Hax as [?|[?|?]]; contradiction.
Qed.

(** X17.  For the X axis [check_limit_switch] is 1 exactly when the X limit
    bit is set in one of the two reads of the limit port, whatever the other
    bits are; so it is for the Y and Z axes when the axis numbers differ.
    A limit bit from 8 to 14 falls outside the 8-bit mask and the switch is
    never seen. *)
Theorem check_limit_switch_reads_axis_bit cfg port1 port2 :
  X_AXIS cfg <> Y_AXIS cfg -> X_AXIS cfg <> Z_AXIS cfg -> Y_AXIS cfg <> Z_AXIS cfg ->
  (0 <= X_LIMIT_BIT cfg < 8 ->
     check_limit_switch cfg (X_AXIS cfg) port1 port2
     = Z.b2z (Z.testbit port1 (X_LIMIT_BIT cfg) || Z.testbit port2 (X_LIMIT_BIT cfg))) /\
  (0 <= Y_LIMIT_BIT cfg < 8 ->
     check_limit_switch cfg (Y_AXIS cfg) port1 port2
     = Z.b2z (Z.testbit port1 (Y_LIMIT_BIT cfg) || Z.testbit port2 (Y_LIMIT_BIT cfg))) /\
  (0 <= Z_LIMIT_BIT cfg < 8 ->
     check_limit_switch cfg (Z_AXIS cfg) port1 port2
     = Z.b2z (Z.testbit port1 (Z_LIMIT_BIT cfg) || Z.testbit port2 (Z_LIMIT_BIT cfg))) /\
  (8 <= X_LIMIT_BIT cfg < 15 -> check_limit_switch cfg (X_AXIS cfg) port1 port2 = 0) /\
  (8 <= Y_LIMIT_BIT cfg < 15 -> check_limit_switch cfg (Y_AXIS cfg) port1 port2 = 0) /\
  (8 <= Z_LIMIT_BIT cfg < 15 -> check_limit_switch cfg (Z_AXIS cfg) port1 port2 = 0).
Proof.
  intros Hxy Hxz Hyz. unfold check_limit_switch.
  rewrite !Z.eqb_refl.
  destruct (Z.eqb_spec (Y_AXIS cfg) (X_AXIS cfg)) as [E|_]; [congruence|].
  destruct (Z.eqb_spec (Z_AXIS cfg) (X_AXIS cfg)) as [E|_]; [congruence|].
  destruct (Z.eqb_spec (Z_AXIS cfg) (Y_AXIS cfg)) as [E|_]; [congruence|].
  split; [apply limit_test|]. split; [apply limit_test|]. split; [apply limit_test|].
  split; [intros H; apply limit_test_high; lia|].
  split; intros H; apply limit_test_high; lia.
Qed.

Lemma check_limit_switch_reads_axis_bit_witness :
  X_AXIS sample_config <> Y_AXIS sample_config /\
  check_limit_switch sample_config (X_AXIS sample_config) 8 0 = 1.
Proof.
  assert (Hxy : X_AXIS sample_config <> Y_AXIS sample_config) by (simpl; lia).
  assert (Hxz : X_AXIS sample_config <> Z_AXIS sample_config) by (simpl; lia).
  assert (Hyz : Y_AXIS sample_config <> Z_AXIS sample_config) by (simpl; lia).
  split; [exact Hxy|].
  refine (proj1 (check_limit_switch_reads_axis_bit sample_config 8 0 Hxy Hxz Hyz) _).
  simpl; lia.
Defined.

(** X18.  [check_limit_switches] is zero exactly when no bit of
    [LIMIT_MASK] is set in either read of the limit port.  An axis whose
    limit bit lies in [LIMIT_MASK] and that [check_limit_switch] reports on
    two reads is reported by [check_limit_switches] on the same reads. *)
Theorem check_limit_switches_sees_axes cfg bcfg axis port1 port2 :
  (axis = X_AXIS cfg \/ axis = Y_AXIS cfg \/ axis = Z_AXIS cfg) ->
  Z.testbit (LIMIT_MASK bcfg) (X_LIMIT_BIT cfg) = true ->
  Z.testbit (LIMIT_MASK bcfg) (Y_LIMIT_BIT cfg) = true ->
  Z.testbit (LIMIT_MASK bcfg) (Z_LIMIT_BIT cfg) = true ->
  (check_limit_switches bcfg port1 port2 = 0 <->
   Z.land port1 (LIMIT_MASK bcfg) = 0 /\ Z.land port2 (LIMIT_MASK bcfg) = 0) /\
  (check_limit_switch cfg axis port1 port2 = 1 ->
   check_limit_switches bcfg port1 port2 <> 0).
Proof.
  intros Hax Hx Hy Hz.
  assert (Hzero : check_limit_switches bcfg port1 port2 = 0 <->
                  Z.land port1 (LIMIT_MASK bcfg) = 0 /\ Z.land port2 (LIMIT_MASK bcfg) = 0).
  { unfold check_limit_switches. apply Z.lor_eq_0_iff. }
  split; [exact Hzero|]. intros H1 H0.
  destruct (check_limit_switch_cases cfg axis port1 port2 Hax) as (k & Hk & E).
  assert (Hmask : Z.testbit (LIMIT_MASK bcfg) k = true)
    by (destruct Hk as [-> | [-> | ->]]; assumption).
  assert (Hk0 : 0 <= k).
  { destruct (Z.lt_ge_cases k 0) as [Hneg|]; [|assumption].
    rewrite Z.testbit_neg_r in Hmask by exact Hneg. discriminate. }
  rewrite E in H1. destruct (Z.lt_ge_cases k 8) as [Hlt|Hge].
  - rewrite limit_test in H1 by lia.
    apply Hzero in H0. destruct H0 as [Z1 Z2].
    assert (B1 : Z.testbit port1 k = false).
    { pose proof (Z.land_spec port1 (LIMIT_MASK bcfg) k) as Hs.
      rewrite Z1, Z.bits_0, Hmask, andb_true_r in Hs. symmetry. exact Hs. }
    assert (B2 : Z.testbit port2 k = false).
    { pose proof (Z.land_spec port2 (LIMIT_MASK bcfg) k) as Hs.
      rewrite Z2, Z.bits_0, Hmask, andb_true_r in Hs. symmetry. exact Hs. }
    rewrite B1, B2 in H1. discriminate.
  - rewrite limit_test_high in H1 by exact Hge. discriminate.
Qed.

Lemma check_limit_switches_sees_axes_witness :
  check_limit_switch sample_config (Y_AXIS sample_config) 0 16 = 1 /\
  check_limit_switches sample_board_config 0 16 <> 0.
Proof.
  split; [reflexivity|].
  refine (proj2 (check_limit_switches_sees_axes sample_config sample_board_config
                   (Y_AXIS sample_config) 0 16 _ _ _ _) _);
    [right; left; reflexivity|reflexivity|reflexivity|reflexivity|reflexivity].
Defined.

(** ** The marker and the pulse *)

Lemma SIG_OUTPUT_COMPARE1A_marker cfg s :
  step_buffer_head s <> step_buffer_tail s ->
  is_marker (step_buffer s !!! Z.to_nat (step_buffer_tail s)) = true ->
  SIG_OUTPUT_COMPARE1A cfg s =
  let s0 := wr PORTD (wrap8 (Z.land (rd PORTD s) (Z.lnot (Z.shiftl 1 3)))) s in
  let s1 := set_next_pace 0 (config_pace_timer cfg (next_pace s) s0) in
  set_step_buffer_tail (Z.rem (step_buffer_tail s + 1) STEP_BUFFER_SIZE) s1.
Proof.
  intros Hne Hm. unfold SIG_OUTPUT_COMPARE1A, is_marker in *.
  destruct (Z.eqb_spec (step_buffer_head s) (step_buffer_tail s)); [contradiction|].
  simpl negb. cbv iota zeta. simpl step_buffer. simpl step_buffer_tail.
  rewrite Hm. simpl next_pace.
  unfold config_pace_timer. destruct (pace_ceiling_prescaler cfg (next_pace s)). reflexivity.
Qed.

(** X19.  On a marker the cadence handler makes no step: it leaves the
    stepping port (when that is not PORTD) and the pulse timer TCNT2 as
    they were, sets timer 1 for the pending pace, makes the pending pace the
    current one and clears [next_pace]; of PORTD it clears bit 3 only. *)
Theorem cadence_handler_marker_changes_pace_only cfg s :
  step_buffer_head s <> step_buffer_tail s ->
  is_marker (step_buffer s !!! Z.to_nat (step_buffer_tail s)) = true ->
  current_pace (SIG_OUTPUT_COMPARE1A cfg s) = next_pace s /\
  next_pace (SIG_OUTPUT_COMPARE1A cfg s) = 0 /\
  rd OCR1A (SIG_OUTPUT_COMPARE1A cfg s) = fst (pace_ceiling_prescaler cfg (next_pace s)) /\
  Z.land (rd TCCR1B (SIG_OUTPUT_COMPARE1A cfg s)) 7
  = snd (pace_ceiling_prescaler cfg (next_pace s)) + 1 /\
  (forall r, r <> PORTD -> r <> TCCR1B -> r <> OCR1A ->
     rd r (SIG_OUTPUT_COMPARE1A cfg s) = rd r s) /\
  Z.testbit (rd PORTD (SIG_OUTPUT_COMPARE1A cfg s)) 3 = false /\
  (forall i, 0 <= i < 8 -> i <> 3 ->
     Z.testbit (rd PORTD (SIG_OUTPUT_COMPARE1A cfg s)) i = Z.testbit (rd PORTD s) i).
Proof.
  intros Hne Hm. rewrite (SIG_OUTPUT_COMPARE1A_marker cfg s Hne Hm). cbv zeta.
  set (s0 := wr PORTD (wrap8 (Z.land (rd PORTD s) (Z.lnot (Z.shiftl 1 3)))) s).
  assert (Hrd : forall r v t, rd r (set_step_buffer_tail t (set_next_pace 0 v)) = rd r v)
    by reflexivity.
  destruct (config_pace_timer_regs cfg (next_pace s) s0) as (Rocr & Rtccr & Rcur).
  pose proof (pace_ceiling_prescaler_cases cfg (next_pace s)) as Hcases. cbv zeta in Hcases.
  assert (Hp : 0 <= snd (pace_ceiling_prescaler cfg (next_pace s)) + 1 < 8).
  { destruct Hcases as [[_ E]|[[_ E]|[[_ E]|[[_ E]|[[_ E]|[_ E]]]]]];
      rewrite E; simpl; lia. }
  assert (Hother : forall r, r <> TCCR1B -> r <> OCR1A ->
            rd r (config_pace_timer cfg (next_pace s) s0) = rd r s0).
  { intros r H1 H2. unfold config_pace_timer.
    destruct (pace_ceiling_prescaler cfg (next_pace s)) as [c p].
    unfold rd, wr, set_current_pace. simpl.
    destruct (decide (r = OCR1A)); [contradiction|].
    destruct (decide (r = TCCR1B)); [contradiction|reflexivity]. }
  split; [exact Rcur|]. split; [reflexivity|].
  split; [rewrite Hrd; exact Rocr|].
  split; [rewrite Hrd, Rtccr; apply clock_select_field; exact Hp|].
  split.
  { intros r H1 H2 H3. rewrite Hrd, Hother by assumption.
    subst s0. apply rd_wr_other. exact H1. }
  split.
  { rewrite Hrd, Hother by discriminate. subst s0. rewrite rd_wr_same.
    apply clear_bit_testbit. lia. }
  intros i Hi Hi3. rewrite Hrd, Hother by discriminate. subst s0. rewrite rd_wr_same.
  apply clear_bit_other; lia.
Qed.

Lemma cadence_handler_marker_changes_pace_only_witness :
  current_pace
    (SIG_OUTPUT_COMPARE1A sample_config
       (set_next_pace 500
          (set_step_buffer_head 1
             (set_step_buffer (<[0%nat := PACE_CHANGE_MARKER]> (step_buffer sample_state))
                sample_state)))) = 500.
Proof.
  refine (proj1 (cadence_handler_marker_changes_pace_only sample_config
            (set_next_pace 500
               (set_step_buffer_head 1
                  (set_step_buffer (<[0%nat := PACE_CHANGE_MARKER]> (step_buffer sample_state))
                     sample_state))) _ _)).
  - simpl. lia.
  - reflexivity.
Defined.

(** X20.  One step cycle: after the cadence handler has executed a step
    instruction and the pulse-reset handler has run, every step line is back
    at the level the invert mask gives it, every direction line that is not
    a step line still carries the instruction's direction, and the
    instruction stays consumed. *)
Theorem step_cycle_ends_pulse_keeps_direction cfg s i :
  step_buffer_head s <> step_buffer_tail s ->
  is_marker (step_buffer s !!! Z.to_nat (step_buffer_tail s)) = false ->
  STEPPING_PORT cfg <> TCNT2 -> 0 <= i < 8 ->
  (Z.testbit (STEP_MASK cfg) i = true ->
     Z.testbit (rd (STEPPING_PORT cfg) (SIG_OVERFLOW2 cfg (SIG_OUTPUT_COMPARE1A cfg s))) i
     = Z.testbit (STEPPING_INVERT_MASK cfg) i) /\
  (Z.testbit (STEP_MASK cfg) i = false -> Z.testbit (DIRECTION_MASK cfg) i = true ->
     Z.testbit (rd (STEPPING_PORT cfg) (SIG_OVERFLOW2 cfg (SIG_OUTPUT_COMPARE1A cfg s))) i
     = xorb (Z.testbit (step_buffer s !!! Z.to_nat (step_buffer_tail s)) i)
            (Z.testbit (STEPPING_INVERT_MASK cfg) i)) /\
  step_buffer_tail (SIG_OVERFLOW2 cfg (SIG_OUTPUT_COMPARE1A cfg s))
  = Z.rem (step_buffer_tail s + 1) STEP_BUFFER_SIZE /\
  rd TCNT2 (SIG_OVERFLOW2 cfg (SIG_OUTPUT_COMPARE1A cfg s))
  = rd TCNT2 (SIG_OUTPUT_COMPARE1A cfg s).
Proof.
  intros Hne Hm Hport Hi.
  assert (Hreset : forall t,
    Z.testbit (rd (STEPPING_PORT cfg) (SIG_OVERFLOW2 cfg t)) i
    = if Z.testbit (STEP_MASK cfg) i then Z.testbit (STEPPING_INVERT_MASK cfg) i
      else Z.testbit (rd (STEPPING_PORT cfg) t) i).
  { intros t. unfold SIG_OVERFLOW2. rewrite rd_wr_same, wrap8_testbit by lia.
    rewrite Z.lor_spec, !Z.land_spec, Z.lnot_spec by lia.
    destruct (Z.testbit (STEP_MASK cfg) i), (Z.testbit (STEPPING_INVERT_MASK cfg) i),
      (Z.testbit (rd (STEPPING_PORT cfg) t) i); reflexivity. }
  split; [intros Hs; rewrite Hreset, Hs; reflexivity|].
  split.
  { intros Hs Hd. rewrite Hreset, Hs.
    rewrite (SIG_OUTPUT_COMPARE1A_step cfg s Hne Hm). cbv zeta.
    set (popped := step_buffer s !!! Z.to_nat (step_buffer_tail s)).
    set (s0 := wr PORTD _ s).
    assert (Hvalue : forall v1 v2 v3 t,
      rd (STEPPING_PORT cfg)
         (set_step_buffer_tail v3 (wr TCNT2 v2 (wr (STEPPING_PORT cfg) v1 t))) = v1).
    { intros v1 v2 v3 t. unfold rd, wr, set_step_buffer_tail. simpl.
      destruct (decide (STEPPING_PORT cfg = TCNT2)); [contradiction|].
      destruct (decide (STEPPING_PORT cfg = STEPPING_PORT cfg)); [reflexivity|contradiction]. }
    rewrite Hvalue, rd_wr_same.
    repeat (progress (rewrite ?wrap8_testbit, ?Z.lor_spec, ?Z.land_spec, ?Z.lnot_spec,
                        ?Z.lxor_spec by lia)).
    rewrite Hs, Hd.
    destruct (Z.testbit (rd (STEPPING_PORT cfg) s0) i), (Z.testbit popped i),
      (Z.testbit (STEPPING_INVERT_MASK cfg) i); reflexivity. }
  split.
  { rewrite (SIG_OUTPUT_COMPARE1A_step cfg s Hne Hm). reflexivity. }
  unfold SIG_OVERFLOW2. apply rd_wr_other. intros E. apply Hport. symmetry. exact E.
Qed.

Lemma step_cycle_ends_pulse_keeps_direction_witness :
  Z.testbit (DIRECTION_MASK sample_config) 5 = true /\
  Z.testbit
    (rd (STEPPING_PORT sample_config)
       (SIG_OVERFLOW2 sample_config
          (SIG_OUTPUT_COMPARE1A sample_config
             (set_step_buffer_head 1
                (set_step_buffer (<[0%nat := 36]> (step_buffer sample_state))
                   sample_state))))) 5
  = xorb (Z.testbit 36 5) (Z.testbit (STEPPING_INVERT_MASK sample_config) 5).
Proof.
  split; [reflexivity|].
  refine (proj1 (proj2 (step_cycle_ends_pulse_keeps_direction sample_config
            (set_step_buffer_head 1
               (set_step_buffer (<[0%nat := 36]> (step_buffer sample_state))
                  sample_state)) 5 _ _ _ _)) _ _).
  - simpl. lia.
  - reflexivity.
  - simpl. discriminate.
  - lia.
  - reflexivity.
  - reflexivity.
Defined.
